(** * sbws core: relay list, circuit builders and destinations

    A shallow embedding of [sbws/lib/relaylist.py],
    [sbws/lib/circuitbuilder.py] and [sbws/lib/destination.py].

    The Python objects are records; a method is a function in a small
    state-and-exception monad.  Everything the code asks of the outside
    (the stem controller, the clock, the random source, the HTTP session,
    [urlparse]) is answered by a record of collaborators, each answer a
    function of the history of calls made so far, and every such call is
    appended to that history.  A counting stub of the network-status
    source is therefore just the number of [EvGetNetworkStatuses] events
    in the history.

    A Python float is the rational it denotes, and an operation on floats
    is the exact operation followed by rounding to the nearest binary64
    number.  The one loop of the code without a bound, the rejection
    sampling of [_random_sample_relays], runs on fuel. *)

From Stdlib Require Import String Ascii List ZArith QArith Lqa Lia Bool.
From Stdlib Require Import Permutation Sorted Qround Qpower.
From stdpp Require Import base decidable gmap strings list pretty.

Open Scope string_scope.
Open Scope list_scope.
Open Scope Z_scope.

(** ** Python exceptions and results *)

Inductive exn : Type :=
| PathLengthException
| AssertionError
| NotImplementedError
| TypeError
| IndexError
| AttributeError
| KeyError
| ValueError
| InvalidArguments
| InvalidRequest
| CircuitExtensionFailed
| ProtocolError
| Timeout
| DescriptorUnavailable
| ConnectionError
| ReadTimeout.

Definition exn_eqb (a b : exn) : bool :=
  match a, b with
  | PathLengthException, PathLengthException
  | AssertionError, AssertionError
  | NotImplementedError, NotImplementedError
  | TypeError, TypeError
  | IndexError, IndexError
  | AttributeError, AttributeError
  | KeyError, KeyError
  | ValueError, ValueError
  | InvalidArguments, InvalidArguments
  | InvalidRequest, InvalidRequest
  | CircuitExtensionFailed, CircuitExtensionFailed
  | ProtocolError, ProtocolError
  | Timeout, Timeout
  | DescriptorUnavailable, DescriptorUnavailable
  | ConnectionError, ConnectionError
  | ReadTimeout, ReadTimeout => true
  | _, _ => false
  end.

(** The text [str(e)] that [log.warning(e)] prints. *)
Definition exn_str (e : exn) : string :=
  match e with
  | PathLengthException => "PathLengthException"
  | AssertionError => "AssertionError"
  | NotImplementedError => "NotImplementedError"
  | TypeError => "TypeError"
  | IndexError => "IndexError"
  | AttributeError => "AttributeError"
  | KeyError => "KeyError"
  | ValueError => "ValueError"
  | InvalidArguments => "InvalidArguments"
  | InvalidRequest => "InvalidRequest"
  | CircuitExtensionFailed => "CircuitExtensionFailed"
  | ProtocolError => "ProtocolError"
  | Timeout => "Timeout"
  | DescriptorUnavailable => "DescriptorUnavailable"
  | ConnectionError => "ConnectionError"
  | ReadTimeout => "ReadTimeout"
  end.

(** A call returns a value, raises, or (for the one unbounded loop of the
    code, the rejection sampling) is still running when the fuel is spent. *)
Inductive result (A : Type) : Type :=
| Return (a : A)
| Raise (e : exn)
| OutOfFuel.

Arguments Return {A} a.
Arguments Raise {A} e.
Arguments OutOfFuel {A}.

(** ** Python floats

    A float is an IEEE 754 binary64 number: 53 significant bits.  It is
    modelled by its value, a rational; the result of an operation is the
    exact result rounded to the nearest such number, to the one with an
    even significand when two are as near.  Infinities, NaN and the
    subnormal numbers below 2^-1022 are left out: no clock reading or
    interval of the program comes near either end of the range, and a sum
    of two floats that small is exact. *)

(** [floor(log2 x)] for a positive [x]. *)
Definition binade (x : Q) : Z :=
  let k := (Z.log2 (Qnum x) - Z.log2 (Z.pos (Qden x)))%Z in
  if Qle_bool (2 ^ k) x then k else (k - 1)%Z.

(** The integer nearest to [y], the even one of two that are as near. *)
Definition round_half_even (y : Q) : Z :=
  let f := Qfloor y in
  match Qcompare (y - inject_Z f) (1 # 2) with
  | Lt => f
  | Gt => (f + 1)%Z
  | Eq => if Z.even f then f else (f + 1)%Z
  end.

(** A positive [x] rounded to 53 significant bits. *)
Definition round_pos (x : Q) : Q :=
  let e := (binade x - 52)%Z in
  (inject_Z (round_half_even (x / 2 ^ e)) * 2 ^ e)%Q.

(** The float nearest to [x]. *)
Definition round64 (x : Q) : Q :=
  match Qnum x with
  | Z0 => 0%Q
  | Zpos _ => round_pos x
  | Zneg _ => (- round_pos (- x))%Q
  end.

(** [a + b] on floats. *)
Definition float_add (a b : Q) : Q := round64 (a + b).

(** [float(i)], the conversion an int undergoes when it meets a float. *)
Definition float_of_int (i : Z) : Q := round64 (inject_Z i).

(** A Python number: an int, or a float. *)
Inductive pynum : Type :=
| PyInt (i : Z)
| PyFloat (x : Q).

Definition num_value (n : pynum) : Q :=
  match n with
  | PyInt i => inject_Z i
  | PyFloat x => x
  end.

(** [n + i] for an int [i]: exact on an int, rounded on a float. *)
Definition num_add_int (n : pynum) (i : Z) : pynum :=
  match n with
  | PyInt j => PyInt (j + i)
  | PyFloat x => PyFloat (float_add x (float_of_int i))
  end.

(** ** Data model *)

Inductive Flag : Type := FAST | EXIT | GUARD | HSDIR | AUTHORITY | OTHERFLAG.

Definition Flag_eqb (a b : Flag) : bool :=
  match a, b with
  | FAST, FAST | EXIT, EXIT | GUARD, GUARD | HSDIR, HSDIR
  | AUTHORITY, AUTHORITY | OTHERFLAG, OTHERFLAG => true
  | _, _ => false
  end.

(** One rule of a stem exit policy: accept or reject, an address (or the
    wildcard) and a port range. *)
Record ExitPolicyRule : Type := {
  is_accept : bool;
  rule_address : option string;
  min_port : Z;
  max_port : Z
}.

(** A stem [ExitPolicy]; Python's truth value of it is [len(policy) > 0]. *)
Definition ExitPolicy : Type := list ExitPolicyRule.

(** A router status entry of the consensus. *)
Record Relay : Type := {
  fingerprint : string;
  nickname : string;
  address : string;
  flags : list Flag;
  bandwidth : Z;
  exit_policy : option ExitPolicy;
  is_unmeasured : bool
}.

(** [urllib.parse.ParseResult] *)
Record ParseResult : Type := {
  scheme : string;
  netloc : string;
  path : string;
  params : string;
  query : string;
  fragment : string
}.

(** The answer to an HTTP HEAD request. *)
Record Response : Type := {
  status_code : Z;
  headers : list (string * string)
}.

Inductive level : Type := DEBUG | INFO | WARNING | ERROR.

(** ** The history of calls to the collaborators *)

Inductive event : Type :=
| EvTime
| EvIsControllerOkay
| EvGetNetworkStatuses
| EvGetMicrodescriptor (fp : string)
| EvFpOrNickToRelay (fp_nick : string)
| EvGetCircuit (circ_id : string)
| EvCloseCircuit (circ_id : string)
| EvNewCircuit (fps : list string) (await_build : bool) (timeout : Z)
| EvChoice (n : nat)
| EvResolve (host : string)
| EvMakeSession
| EvAddEventListener (circ_id : string)
| EvRemoveEventListener (circ_id : string)
| EvHead (url : string)
| EvCircuitStr (circ_id : string)
| EvLockAcquire
| EvLockRelease
| EvStreamLockAcquire
| EvStreamLockRelease
| EvLog (lvl : level) (fmt : string) (args : list string).

(** The history, newest call first. *)
Definition history : Type := list event.

Definition is_new_circuit (e : event) : bool :=
  match e with EvNewCircuit _ _ _ => true | _ => false end.

Definition is_get_network_statuses (e : event) : bool :=
  match e with EvGetNetworkStatuses => true | _ => false end.

Definition is_close_of (circ_id : string) (e : event) : bool :=
  match e with EvCloseCircuit c => String.eqb c circ_id | _ => false end.

Definition is_warning (e : event) : bool :=
  match e with EvLog WARNING _ _ => true | _ => false end.

Definition count_events (p : event -> bool) (h : history) : nat :=
  length (List.filter p h).

(** ** The collaborators *)

Record Collaborators : Type := {
  (* the clock behind time.time(), in seconds *)
  time_time : history -> Q;
  (* stem_utils.is_controller_okay(c) *)
  is_controller_okay : history -> bool;
  (* c.get_network_statuses() *)
  get_network_statuses : history -> list Relay;
  (* c.get_microdescriptor(fp).exit_policy *)
  get_microdescriptor : history -> string -> exn + option ExitPolicy;
  (* stem_utils.fp_or_nick_to_relay(c, fp) *)
  fp_or_nick_to_relay : history -> string -> option Relay;
  (* c.get_circuit(circ_id, default=None): the (fingerprint, nickname) path *)
  get_circuit : history -> string -> option (list (string * string));
  (* c.close_circuit(circ_id): None when it went through *)
  close_circuit_ctl : history -> string -> option exn;
  (* c.new_circuit(path, await_build=True, timeout=timeout) *)
  new_circuit : history -> list string -> Z -> exn + string;
  (* the index random.SystemRandom().choice draws in a sequence of length n *)
  rng_index : history -> nat -> nat;
  (* policy.can_exit_to(address, port) of stem *)
  can_exit_to : ExitPolicy -> option string -> option Z -> exn + bool;
  (* sbws.globals.resolve(host) *)
  resolve : history -> string -> list string;
  is_valid_ipv4_address : string -> bool;
  is_valid_ipv6_address : string -> bool;
  (* urllib.parse.urlparse and the hostname and port it derives *)
  urlparse : string -> ParseResult;
  geturl : ParseResult -> string;
  url_hostname : ParseResult -> string;
  url_port : ParseResult -> exn + option Z;
  (* requests_utils.head(session, url) *)
  head : history -> string -> exn + Response;
  (* stem_utils.circuit_str(cont, circ_id) *)
  circuit_str : history -> string -> string;
  (* int(s) *)
  py_int : string -> option Z
}.

(** ** The monad: a method reads and writes its object and the history *)

Definition M (S A : Type) : Type := S -> history -> result A * S * history.

Definition ret {S A : Type} (a : A) : M S A :=
  fun s h => (Return a, s, h).

Definition raise {S A : Type} (e : exn) : M S A :=
  fun s h => (Raise e, s, h).

Definition bind {S A B : Type} (m : M S A) (k : A -> M S B) : M S B :=
  fun s h =>
    match m s h with
    | (Return a, s', h') => k a s' h'
    | (Raise e, s', h') => (Raise e, s', h')
    | (OutOfFuel, s', h') => (OutOfFuel, s', h')
    end.

Notation "x <- m ;; k" := (bind m (fun x => k))
  (at level 100, m at next level, right associativity).
Notation "m ;;; k" := (bind m (fun _ => k))
  (at level 100, right associativity).

(** [try: m except <the exceptions handled>: handler] *)
Definition try_except {S A : Type} (m : M S A) (handled : exn -> bool)
    (handler : exn -> M S A) : M S A :=
  fun s h =>
    match m s h with
    | (Raise e, s', h') =>
        if handled e then handler e s' h' else (Raise e, s', h')
    | r => r
    end.

(** [try: m finally: f] *)
Definition try_finally {S A : Type} (m : M S A) (f : M S unit) : M S A :=
  fun s h =>
    match m s h with
    | (r, s', h') =>
        match f s' h' with
        | (Return _, s'', h'') => (r, s'', h'')
        | (Raise e, s'', h'') => (Raise e, s'', h'')
        | (OutOfFuel, s'', h'') => (OutOfFuel, s'', h'')
        end
    end.

Definition get_self {S : Type} : M S S := fun s h => (Return s, s, h).
Definition put_self {S : Type} (s : S) : M S unit := fun _ h => (Return tt, s, h).

(** Run a method of a member object. *)
Definition zoom {S T A : Type} (get : S -> T) (set : T -> S -> S)
    (m : M T A) : M S A :=
  fun s h =>
    match m (get s) h with
    | (r, t', h') => (r, set t' s, h')
    end.

(** [assert b] *)
Definition py_assert {S : Type} (b : bool) : M S unit :=
  if b then ret tt else raise AssertionError.

(** A call to a collaborator: the answer is computed from the history so
    far and the call is recorded. *)
Definition call {S A : Type} (answer : history -> A) (ev : event) : M S A :=
  fun s h => (Return (answer h), s, ev :: h).

Definition call_exn {S A : Type} (answer : history -> exn + A) (ev : event)
    : M S A :=
  fun s h =>
    match answer h with
    | inl e => (Raise e, s, ev :: h)
    | inr a => (Return a, s, ev :: h)
    end.

Definition log {S : Type} (lvl : level) (fmt : string) (args : list string)
    : M S unit :=
  fun s h => (Return tt, s, EvLog lvl fmt args :: h).

Definition res_of {S A : Type} (o : result A * S * history) : result A :=
  fst (fst o).
Definition self_of {S A : Type} (o : result A * S * history) : S :=
  snd (fst o).
Definition hist_of {S A : Type} (o : result A * S * history) : history :=
  snd o.

(** ** relaylist.py *)

Record RelayList : Type := {
  _relays : list Relay;
  _last_refresh : Q
}.

(** [REFRESH_INTERVAL = 300]; as a float the int 300 is the same number. *)
Definition REFRESH_INTERVAL : Q := 300 # 1.

Section WithCollaborators.

Variable env : Collaborators.

(** [time.time()]: the reading of the clock, as a float. *)
Definition py_time {S : Type} : M S Q :=
  call (fun h => round64 (time_time env h)) EvTime.

Definition _init_relays : M RelayList (list Relay) :=
  ok <- call (is_controller_okay env) EvIsControllerOkay ;;
  py_assert ok ;;;
  call (get_network_statuses env) EvGetNetworkStatuses.

Definition _refresh : M RelayList unit :=
  rs <- _init_relays ;;
  self <- get_self ;;
  put_self {| _relays := rs; _last_refresh := _last_refresh self |} ;;;
  now <- py_time ;;
  self <- get_self ;;
  put_self {| _relays := _relays self; _last_refresh := now |}.


Definition relays : M RelayList (list Relay) :=
  now <- py_time ;;
  self <- get_self ;;
  (if Qle_bool (float_add (_last_refresh self) REFRESH_INTERVAL) now
   then _refresh
   else ret tt) ;;;
  self <- get_self ;;
  ret (_relays self).

Definition _relays_with_flag (flag : Flag) : M RelayList (list Relay) :=
  rs <- relays ;;
  ret (List.filter (fun r => existsb (Flag_eqb flag) (flags r)) rs).

Definition _relays_without_flag (flag : Flag) : M RelayList (list Relay) :=
  rs <- relays ;;
  ret (List.filter (fun r => negb (existsb (Flag_eqb flag) (flags r))) rs).

Definition exits : M RelayList (list Relay) := _relays_with_flag EXIT.

(** [for x in l: body], the body threading the local variables [acc];
    a [continue] is a body that returns them as they are. *)
Fixpoint for_each {S A B : Type} (l : list A) (body : A -> B -> M S B)
    (acc : B) : M S B :=
  match l with
  | [] => ret acc
  | x :: l' => acc' <- body x acc ;; for_each l' body acc'
  end.

(** [if exit.exit_policy]: a policy object is true when it has a rule. *)
Definition policy_truthy (p : option ExitPolicy) : bool :=
  match p with
  | Some (_ :: _) => true
  | _ => false
  end.

(** [host = resolve(host)[0]] when [host] is not a literal address. *)
Definition resolve_host (host : string) : M RelayList string :=
  if negb (is_valid_ipv4_address env host)
     && negb (is_valid_ipv6_address env host)
  then
    addrs <- call (fun h => resolve env h host) (EvResolve host) ;;
    match addrs with
    | [] => raise IndexError
    | a :: _ => ret a
    end
  else ret host.

(** The policy to check for one exit, or [None] for the [continue] taken
    when the microdescriptor is not available. *)
Definition exit_policy_of (exit : Relay)
    : M RelayList (option (option ExitPolicy)) :=
  if policy_truthy (exit_policy exit)
  then ret (Some (exit_policy exit))
  else
    try_except
      (policy <- call_exn
         (fun h => get_microdescriptor env h (fingerprint exit))
         (EvGetMicrodescriptor (fingerprint exit)) ;;
       ret (Some policy))
      (exn_eqb DescriptorUnavailable)
      (fun e => log DEBUG (exn_str e) [] ;;; ret None).

Definition lift_exn {S A : Type} (r : exn + A) : M S A :=
  match r with
  | inl e => raise e
  | inr a => ret a
  end.

(** The body of the loop over [self.exits]; the policy is asked about the
    port alone, [policy.can_exit_to(port=port)]. *)
Definition exits_can_exit_to_body (port : Z) (exit : Relay)
    (exits_acc : list Relay) : M RelayList (list Relay) :=
  policy <- exit_policy_of exit ;;
  match policy with
  | None => ret exits_acc
  | Some policy =>
      try_except
        (match policy with
         | None => ret exits_acc
         | Some p =>
             b <- lift_exn (can_exit_to env p None (Some port)) ;;
             ret (if (b : bool) then exits_acc ++ [exit] else exits_acc)
         end)
        (exn_eqb KeyError)
        (fun e =>
           log ERROR "Got that KeyError in stem again...: %s" [exn_str e] ;;;
           ret exits_acc)
  end.

Definition exits_can_exit_to (host : string) (port : Z)
    : M RelayList (list Relay) :=
  host <- resolve_host host ;;
  py_assert (is_valid_ipv4_address env host
             || is_valid_ipv6_address env host) ;;;
  es <- exits ;;
  for_each es (exits_can_exit_to_body port) [].

(** The policy for which [exit] was kept: its own, or one that the
    controller handed out for its fingerprint; asked about the port alone,
    it accepts. *)
Definition accepts_port (port : Z) (exit : Relay) : Prop :=
  exists p,
    (exit_policy exit = Some p
     \/ exists h, get_microdescriptor env h (fingerprint exit) = inr (Some p))
    /\ can_exit_to env p None (Some port) = inr true.

(** [rng.choice(seq)]: IndexError on an empty sequence. *)
Definition rng_choice {S A : Type} (l : list A) : M S A :=
  match l with
  | [] => raise IndexError
  | d :: _ =>
      call (fun h => nth (rng_index env h (length l) mod length l)%nat l d)
           (EvChoice (length l))
  end.

Definition random_relay : M RelayList Relay :=
  rs <- relays ;;
  rng_choice rs.

(** ** circuitbuilder.py *)

(** [path] is an int or a list. *)
Definition valid_circuit_length {A : Type} (path : Z + list A) : bool :=
  match path with
  | inl n => (0 <? n) && (n <=? 8)
  | inr l => (0 <? Z.of_nat (length l)) && (Z.of_nat (length l) <=? 8)
  end.

Record CircuitBuilder : Type := {
  relay_list : RelayList;
  built_circuits : gset string;
  close_circuits_on_exit : bool;
  circuit_timeout : Z
}.

Definition set_relay_list (rl : RelayList) (self : CircuitBuilder)
    : CircuitBuilder :=
  {| relay_list := rl;
     built_circuits := built_circuits self;
     close_circuits_on_exit := close_circuits_on_exit self;
     circuit_timeout := circuit_timeout self |}.

Definition set_built_circuits (bc : gset string) (self : CircuitBuilder)
    : CircuitBuilder :=
  {| relay_list := relay_list self;
     built_circuits := bc;
     close_circuits_on_exit := close_circuits_on_exit self;
     circuit_timeout := circuit_timeout self |}.


(** The [relays] property of the builder. *)
Definition cb_relays : M CircuitBuilder (list Relay) :=
  zoom relay_list set_relay_list relays.



(** [c.close_circuit(circ_id)] *)
Definition ctl_close (circ_id : string) : M CircuitBuilder unit :=
  call_exn (fun h => match close_circuit_ctl env h circ_id with
                     | Some e => inl e
                     | None => inr tt
                     end)
           (EvCloseCircuit circ_id).

Definition close_circuit (circ_id : string) : M CircuitBuilder unit :=
  ok <- call (is_controller_okay env) EvIsControllerOkay ;;
  if negb ok then ret tt
  else
    circ <- call (fun h => get_circuit env h circ_id) (EvGetCircuit circ_id) ;;
    match circ with
    | Some _ =>
        try_except (ctl_close circ_id)
                   (exn_eqb InvalidArguments) (fun _ => ret tt) ;;;
        self <- get_self ;;
        put_self (set_built_circuits (built_circuits self ∖ {[circ_id]}) self)
    | None => ret tt
    end.

(** [isinstance(e, cls)].  Of the exceptions modelled here only two are
    related: stem's InvalidArguments is a subclass of its InvalidRequest. *)
Definition py_isinstance (e cls : exn) : bool :=
  exn_eqb e cls || (exn_eqb e InvalidArguments && exn_eqb cls InvalidRequest).

(** [except (InvalidRequest, CircuitExtensionFailed, ProtocolError,
    Timeout)]: the exceptions of [c.new_circuit] that the builder retries
    on. *)
Definition transient (e : exn) : bool :=
  existsb (py_isinstance e)
    [InvalidRequest; CircuitExtensionFailed; ProtocolError; Timeout].

(** [for _ in range(0, n)]: the first circuit id ends the loop, a
    transient fault is logged and the next round starts. *)
Fixpoint build_attempts (n : nat) (fps : list string) (timeout : Z)
    : M CircuitBuilder (option string) :=
  match n with
  | O => ret None
  | S n' =>
      r <- try_except
             (circ_id <- call_exn (fun h => new_circuit env h fps timeout)
                                  (EvNewCircuit fps true timeout) ;;
              ret (Some circ_id))
             transient
             (fun e => log WARNING (exn_str e) [] ;;; ret None) ;;
      match r with
      | Some circ_id => ret (Some circ_id)
      | None => build_attempts n' fps timeout
      end
  end.

Definition fp_path_str (fps : list string) : string :=
  "[" +:+ String.concat " -> " (map (substring 0 8) fps) +:+ "]".

Definition _build_circuit_impl (fps : list string)
    : M CircuitBuilder (option string) :=
  if negb (valid_circuit_length (inr fps)) then raise PathLengthException
  else
    ok <- call (is_controller_okay env) EvIsControllerOkay ;;
    py_assert ok ;;;
    self <- get_self ;;
    log DEBUG "Building %s" [fp_path_str fps] ;;;
    build_attempts 3 fps (circuit_timeout self).

(** [CircuitBuilder.__del__] *)
Definition CircuitBuilder_del : M CircuitBuilder unit :=
  self <- get_self ;;
  if negb (close_circuits_on_exit self) then ret tt
  else
    ok <- call (is_controller_okay env) EvIsControllerOkay ;;
    if negb ok then ret tt
    else
      for_each (elements (built_circuits self))
        (fun circ_id _ =>
           circ <- call (fun h => get_circuit env h circ_id)
                        (EvGetCircuit circ_id) ;;
           match circ with
           | Some _ =>
               try_except (ctl_close circ_id)
                          (exn_eqb InvalidArguments) (fun _ => ret tt)
           | None => ret tt
           end) tt ;;;
      self <- get_self ;;
      put_self (set_built_circuits ∅ self).

(** *** GapsCircuitBuilder *)

(** [not fp] for a slot that holds a string or None. *)
Definition falsey (fp : option string) : bool :=
  match fp with
  | None => true
  | Some s => String.eqb s ""
  end.

(** The names in the pinned slots of a path, in order. *)
Definition pinned_names (slots : list (option string)) : list string :=
  omap (fun fp => if falsey fp then None else fp) slots.

Fixpoint _normalize_path_loop (slots : list (option string))
    (new_path : list (option Relay))
    : M CircuitBuilder (option (list (option Relay))) :=
  match slots with
  | [] => ret (Some new_path)
  | fp :: rest =>
      if falsey fp then _normalize_path_loop rest (new_path ++ [None])
      else
        let fp := match fp with Some s => s | None => "" end in
        relay <- call (fun h => fp_or_nick_to_relay env h fp)
                      (EvFpOrNickToRelay fp) ;;
        match relay with
        | None =>
            log DEBUG "Failed to get descriptor for relay %s" [fp] ;;;
            ret None
        | Some r => _normalize_path_loop rest (new_path ++ [Some r])
        end
  end.

Definition _normalize_path (slots : list (option string))
    : M CircuitBuilder (option (list (option Relay))) :=
  _normalize_path_loop slots [].

Definition out_of_fuel {S A : Type} : M S A :=
  fun s h => (OutOfFuel, s, h).

(** [while len(chosen_fps) < number]: each round of the loop costs one
    unit of fuel. *)
Fixpoint sample_loop (fuel : nat) (number : nat) (all_fps : list string)
    (black_fps chosen_fps : list string) : M CircuitBuilder (list string) :=
  if (length chosen_fps <? number)%nat then
    match fuel with
    | O => out_of_fuel
    | S fuel' =>
        choice <- rng_choice all_fps ;;
        if existsb (String.eqb choice) black_fps
        then sample_loop fuel' number all_fps black_fps chosen_fps
        else sample_loop fuel' number all_fps
               (black_fps ++ [choice]) (chosen_fps ++ [choice])
    end
  else ret chosen_fps.

Definition _random_sample_relays (fuel : nat) (number : nat)
    (blacklist : list Relay) : M CircuitBuilder (option (list (option Relay))) :=
  rs <- cb_relays ;;
  let all_fps := map fingerprint rs in
  let black_fps := map fingerprint blacklist in
  if (length all_fps <? length black_fps + number)%nat then ret None
  else
    chosen_fps <- sample_loop fuel number all_fps black_fps [] ;;
    rels <- for_each chosen_fps
              (fun fp acc =>
                 r <- call (fun h => fp_or_nick_to_relay env h fp)
                           (EvFpOrNickToRelay fp) ;;
                 ret (acc ++ [r])) [] ;;
    ret (Some rels).

(** [sep.join(items)]: TypeError when an item is not a string. *)
Definition py_join (sep : string) (items : list (option string))
    : result string :=
  if forallb (fun i => match i with Some _ => true | None => false end) items
  then Return (String.concat sep (omap id items))
  else Raise TypeError.

(** [l.pop()]: the last item and the rest. *)
Definition py_pop {A : Type} (l : list A) : option (A * list A) :=
  match rev l with
  | [] => None
  | x :: r => Some (x, rev r)
  end.

(** [[r.fingerprint if r else insert_relays.pop().fingerprint for r in path]] *)
Fixpoint fill_path (slots : list (option Relay))
    (insert_relays : list (option Relay)) : result (list string) :=
  match slots with
  | [] => Return []
  | Some r :: rest =>
      match fill_path rest insert_relays with
      | Return fps => Return (fingerprint r :: fps)
      | Raise e => Raise e
      | OutOfFuel => OutOfFuel
      end
  | None :: rest =>
      match py_pop insert_relays with
      | None => Raise IndexError
      | Some (None, _) => Raise AttributeError
      | Some (Some r, insert_relays') =>
          match fill_path rest insert_relays' with
          | Return fps => Return (fingerprint r :: fps)
          | Raise e => Raise e
          | OutOfFuel => OutOfFuel
          end
      end
  end.

(** The candidates of the snapshot that the blacklist leaves. *)
Definition unblacklisted (all_fps black_fps : list string) : list string :=
  List.filter (fun fp => negb (existsb (String.eqb fp) black_fps)) all_fps.

Definition lift_result {S A : Type} (r : result A) : M S A :=
  fun s h => (r, s, h).

Definition is_none {A : Type} (o : option A) : bool :=
  match o with None => true | Some _ => false end.

Definition build_circuit (fuel : nat) (slots : list (option string))
    : M CircuitBuilder (option string) :=
  if negb (valid_circuit_length (inr slots)) then raise PathLengthException
  else
    npath <- _normalize_path slots ;;
    match npath with
    | None => ret None
    | Some npath =>
        let num_missing := length (List.filter is_none npath) in
        insert_relays <- _random_sample_relays fuel num_missing
                           (omap id npath) ;;
        match insert_relays with
        | None =>
            joined <- lift_result
                        (py_join "," (map (option_map nickname) npath)) ;;
            log WARNING
              "Problem building a circuit to satisfy %s with available relays in the network"
              [joined] ;;;
            ret None
        | Some insert_relays =>
            py_assert (length insert_relays =? num_missing)%nat ;;;
            fps <- lift_result (fill_path npath insert_relays) ;;
            _build_circuit_impl fps
        end
    end.

(** *** The life of a builder

    What the code can do to a builder once [__init__] has made it: the
    methods of [CircuitBuilder] and [GapsCircuitBuilder] (the
    [build_circuit] of each), called in any order with any arguments.  Each call comes with the calls that other
    objects made to the collaborators since the one before. *)





(** ** destination.py *)

Record Destination : Type := {
  _max_dl : Z;
  _url : ParseResult
}.

(** The two kinds of Python value that meet in [Destination.__init__]. *)
Inductive pyval : Type :=
| PyStr (s : string)
| PyTuple (items : list string).

(** [a + b]: strings concatenate with strings and tuples with tuples;
    anything else is a TypeError. *)
Definition py_add (a b : pyval) : result pyval :=
  match a, b with
  | PyStr x, PyStr y => Return (PyStr (x +:+ y))
  | PyTuple x, PyTuple y => Return (PyTuple (x ++ y))
  | _, _ => Raise TypeError
  end.

Definition rbind {A B : Type} (r : result A) (k : A -> result B) : result B :=
  match r with
  | Return a => k a
  | Raise e => Raise e
  | OutOfFuel => OutOfFuel
  end.

(** [u] as the 6-tuple it is. *)
Definition ParseResult_tuple (u : ParseResult) : list string :=
  [scheme u; netloc u; path u; params u; query u; fragment u].

(** ['{}://{}{}{}{}{}'.format( *parts )]: the first six positional
    arguments are used, fewer are an IndexError. *)
Definition format_url (parts : pyval) : result string :=
  let args := match parts with
              | PyTuple items => items
              | PyStr s => map (fun c => String c EmptyString)
                               (list_ascii_of_string s)
              end in
  match args with
  | a0 :: a1 :: a2 :: a3 :: a4 :: a5 :: _ =>
      Return (a0 +:+ "://" +:+ a1 +:+ a2 +:+ a3 +:+ a4 +:+ a5)
  | _ => Raise IndexError
  end.

Definition str_truthy (s : string) : bool := negb (String.eqb s "").

(** [Destination.__init__(url, default_path, max_dl)] *)
Definition Destination_init (url default_path : string) (max_dl : Z)
    : result Destination :=
  let u := urlparse env url in
  if negb (String.eqb (scheme u) "http" || String.eqb (scheme u) "https")
  then Raise AssertionError
  else if negb (str_truthy (netloc u)) then Raise AssertionError
  else if negb (str_truthy (path u)) then
    match default_path with
    | EmptyString => Raise IndexError
    | String c _ =>
        if negb (Ascii.eqb c "/"%char) then Raise AssertionError
        else
          rbind (py_add (PyTuple (firstn 2 (ParseResult_tuple u)))
                        (PyStr default_path)) (fun p1 =>
          rbind (py_add p1 (PyTuple (skipn 2 (ParseResult_tuple u))))
                (fun parts =>
          rbind (format_url parts) (fun s =>
          Return {| _max_dl := max_dl; _url := urlparse env s |})))
    end
  else Return {| _max_dl := max_dl; _url := u |}.

Definition Destination_url (d : Destination) : string := geturl env (_url d).

Definition Destination_hostname (d : Destination) : string :=
  url_hostname env (_url d).

(** The [port] property. *)
Definition Destination_port (d : Destination) : result Z :=
  match url_port env (_url d) with
  | inl e => Raise e
  | inr (Some p) => Return p
  | inr None =>
      if String.eqb (scheme (_url d)) "http" then Return 80
      else if String.eqb (scheme (_url d)) "https" then Return 443
      else Raise AssertionError
  end.

Definition Destination_from_config (conf_url : option string)
    (default_path : string) (max_dl : Z) : result Destination :=
  match conf_url with
  | None => Raise AssertionError
  | Some url => Destination_init url default_path max_dl
  end.

(** [s.lower()] on the ASCII letters, of which a header name is made. *)
Definition lower_ascii (c : ascii) : ascii :=
  let n := nat_of_ascii c in
  if ((65 <=? n) && (n <=? 90))%nat then ascii_of_nat (n + 32) else c.

Fixpoint lower (s : string) : string :=
  match s with
  | EmptyString => EmptyString
  | String c rest => String (lower_ascii c) (lower rest)
  end.

(** [head.headers] is the case-insensitive dict of requests, given by its
    items: [k in headers] and [headers[k]] compare the names with their
    letters lowered. *)
Definition lookup_header (k : string) (hs : list (string * string))
    : option string :=
  match List.find (fun kv => String.eqb (lower (fst kv)) (lower k)) hs with
  | Some kv => Some (snd kv)
  | None => None
  end.

(** What [connect_to_destination_over_circuit] returns: [inl reason] for
    [(False, reason)] and [inr n] for [(True, {'content_length': n})]. *)
Definition usability : Type := (string + Z)%type.

Definition with_lock {S A : Type} (acquire release : event) (m : M S A)
    : M S A :=
  call (fun _ => tt) acquire ;;;
  try_finally m (call (fun _ => tt) release).

Definition connect_to_destination_over_circuit {S : Type} (dest : Destination)
    (circ_id : string) (max_dl : Z) : M S usability :=
  let url := Destination_url dest in
  let error_prefix := "When sending HTTP HEAD to " +:+ url +:+ ", " in
  r <- with_lock EvStreamLockAcquire EvStreamLockRelease
         (call (fun _ => tt) (EvAddEventListener circ_id) ;;;
          try_finally
            (try_except
               (hd <- call_exn (fun h => head env h url) (EvHead url) ;;
                ret (inr hd))
               (fun e => exn_eqb e ConnectionError || exn_eqb e ReadTimeout)
               (fun e =>
                  cs <- call (fun h => circuit_str env h circ_id)
                             (EvCircuitStr circ_id) ;;
                  ret (inl ("Could not connect to " +:+ url +:+ " over circ "
                            +:+ circ_id +:+ " " +:+ cs +:+ ": "
                            +:+ exn_str e))))
            (call (fun _ => tt) (EvRemoveEventListener circ_id))) ;;
  match r with
  | inl reason => ret (inl reason)
  | inr hd =>
      if negb (status_code hd =? 200)
      then ret (inl (error_prefix +:+ "we expected HTTP code " +:+ "200"
                     +:+ " not " +:+ pretty (status_code hd)))
      else
        match lookup_header "content-length" (headers hd) with
        | None =>
            ret (inl (error_prefix +:+
               "we except the header Content-Length to exist in the response"))
        | Some v =>
            match py_int env v with
            | None => raise ValueError
            | Some content_length =>
                if content_length <? max_dl
                then ret (inl (error_prefix +:+
                         "our maximum configured download size is "
                         +:+ pretty max_dl +:+ " but the content is only "
                         +:+ pretty content_length))
                else
                  log DEBUG "Connected to %s over circuit %s" [url; circ_id] ;;;
                  ret (inr content_length)
            end
        end
  end.

Definition is_usable {S : Type} (dest : Destination) (circ_id : string)
    : M S usability :=
  connect_to_destination_over_circuit dest circ_id (_max_dl dest).

Record DestinationList : Type := {
  _cb : CircuitBuilder;
  _rl : RelayList;
  _all_dests : list Destination;
  _usable_dests : list Destination;
  _last_usability_test : pynum;
  _usability_test_interval : Z;
  _usability_test_timeout : Q
}.

Definition set_cb (cb : CircuitBuilder) (self : DestinationList)
    : DestinationList :=
  {| _cb := cb; _rl := _rl self; _all_dests := _all_dests self;
     _usable_dests := _usable_dests self;
     _last_usability_test := _last_usability_test self;
     _usability_test_interval := _usability_test_interval self;
     _usability_test_timeout := _usability_test_timeout self |}.

Definition set_rl (rl : RelayList) (self : DestinationList)
    : DestinationList :=
  {| _cb := _cb self; _rl := rl; _all_dests := _all_dests self;
     _usable_dests := _usable_dests self;
     _last_usability_test := _last_usability_test self;
     _usability_test_interval := _usability_test_interval self;
     _usability_test_timeout := _usability_test_timeout self |}.

Definition set_usable (ds : list Destination) (now : Q)
    (self : DestinationList) : DestinationList :=
  {| _cb := _cb self; _rl := _rl self; _all_dests := _all_dests self;
     _usable_dests := ds;
     _last_usability_test := PyFloat now;
     _usability_test_interval := _usability_test_interval self;
     _usability_test_timeout := _usability_test_timeout self |}.

(** [_last_usability_test] is the int 0 until the first sweep and a float
    afterwards; an int and a float compare by value. *)
Definition _should_perform_usability_test : M DestinationList bool :=
  self <- get_self ;;
  now <- py_time ;;
  ret (negb (Qle_bool now
               (num_value (num_add_int (_last_usability_test self)
                                       (_usability_test_interval self))))).

(** [sorted(possible_exits, key=lambda e: e.bandwidth, reverse=True)]:
    descending, relays of equal bandwidth in their original order. *)
Fixpoint insert_by_bandwidth (r : Relay) (l : list Relay) : list Relay :=
  match l with
  | [] => [r]
  | x :: l' =>
      if bandwidth x <=? bandwidth r then r :: x :: l'
      else x :: insert_by_bandwidth r l'
  end.

Definition sorted_by_bandwidth (l : list Relay) : list Relay :=
  fold_right insert_by_bandwidth [] l.

(** [int(max(3, len(possible_exits) * 0.1))]: a tenth of the length,
    rounded down, and at least 3. *)
Definition num_keep (possible_exits : list Relay) : nat :=
  Z.to_nat (Z.max 3 (Z.of_nat (length possible_exits) / 10)).

(** [if circ_id]: None and the empty string are false. *)
Definition circ_truthy (circ_id : option string) : bool := negb (falsey circ_id).

(** [for _ in range(0, n)] of the sweep: pick an exit, build, stop at the
    first circuit. *)
Fixpoint try_build (n : nat) (fuel : nat) (exits_kept : list Relay)
    (circ_id : option string) : M DestinationList (option string) :=
  match n with
  | O => ret circ_id
  | S n' =>
      exit <- rng_choice exits_kept ;;
      circ_id <- zoom _cb set_cb
                   (build_circuit fuel [None; Some (fingerprint exit)]) ;;
      if circ_truthy circ_id then ret circ_id
      else try_build n' fuel exits_kept circ_id
  end.

(** The body of the loop over [self._all_dests]. *)
Definition usability_test_body (fuel : nat) (dest : Destination)
    (usable_dests : list Destination) : M DestinationList (list Destination) :=
  port <- lift_result (Destination_port dest) ;;
  possible_exits <- zoom _rl set_rl
                      (exits_can_exit_to (Destination_hostname dest) port) ;;
  let exits_kept := firstn (num_keep possible_exits)
                           (sorted_by_bandwidth possible_exits) in
  circ_id <- try_build 3 fuel exits_kept None ;;
  if negb (circ_truthy circ_id) then
    log WARNING
      "Unable to build a circuit to test the usability of %s. Assuming it isn't usable."
      [Destination_url dest] ;;;
    ret usable_dests
  else
    let circ_id := match circ_id with Some c => c | None => "" end in
    cs <- call (fun h => circuit_str env h circ_id) (EvCircuitStr circ_id) ;;
    log DEBUG "Built circ %s %s to test usability of %s"
        [circ_id; cs; Destination_url dest] ;;;
    u <- is_usable dest circ_id ;;
    match u with
    | inl data =>
        log WARNING data [] ;;;
        ret usable_dests
    | inr _ =>
        log DEBUG "%s seems usable so we will keep it" [Destination_url dest] ;;;
        zoom _cb set_cb (close_circuit circ_id) ;;;
        ret (usable_dests ++ [dest])
    end.

Definition _perform_usability_test (fuel : nat) : M DestinationList unit :=
  call (fun _ => tt) EvLockAcquire ;;;
  log DEBUG "Perform usability tests" [] ;;;
  call (fun _ => tt) EvMakeSession ;;;
  self <- get_self ;;
  usable_dests <- for_each (_all_dests self) (usability_test_body fuel) [] ;;
  now <- py_time ;;
  self <- get_self ;;
  put_self (set_usable usable_dests now self) ;;;
  call (fun _ => tt) EvLockRelease.

(** ** The rest of relaylist.py: the views by flag *)

Definition fast : M RelayList (list Relay) := _relays_with_flag FAST.

(** Relays without the Fast flag. *)
Definition slow : M RelayList (list Relay) := _relays_without_flag FAST.

Definition guards : M RelayList (list Relay) := _relays_with_flag GUARD.

Definition hsdirs : M RelayList (list Relay) := _relays_with_flag HSDIR.

Definition authorities : M RelayList (list Relay) :=
  _relays_with_flag AUTHORITY.

Definition unmeasured : M RelayList (list Relay) :=
  rs <- relays ;;
  ret (List.filter is_unmeasured rs).

Definition measured : M RelayList (list Relay) :=
  rs <- relays ;;
  ret (List.filter (fun r => negb (is_unmeasured r)) rs).

(** ** The rest of destination.py: construction of the list and [next] *)

(** [DestinationList.__init__]: the builder and the relay list are the
    objects handed in, the usable list starts empty and the last test is
    at time 0. *)
Definition DestinationList_init (interval : Z) (http_timeout : Q)
    (dests : list Destination) (circuit_builder : CircuitBuilder)
    (relay_list : RelayList) : result DestinationList :=
  if negb (0 <? length dests)%nat then Raise AssertionError
  else Return {| _cb := circuit_builder; _rl := relay_list;
                 _all_dests := dests; _usable_dests := [];
                 _last_usability_test := PyInt 0;
                 _usability_test_interval := interval;
                 _usability_test_timeout := http_timeout |}.

(** A thread in [DestinationList.next]: the list, and the sleeps the
    thread has taken so far, newest first. *)
Record Caller : Type := {
  dests_of : DestinationList;
  slept : list Q
}.

Definition set_dests (dl : DestinationList) (c : Caller) : Caller :=
  {| dests_of := dl; slept := slept c |}.

(** [time.sleep(seconds)] *)
Definition sleep (seconds : Q) : M Caller unit :=
  fun c h => (Return tt, {| dests_of := dests_of c;
                            slept := seconds :: slept c |}, h).

(** [x[i], x[j] = x[j], x[i]] *)
Definition swap {A : Type} (x : list A) (i j : nat) : list A :=
  match x !! i, x !! j with
  | Some a, Some b => <[j:=a]> (<[i:=b]> x)
  | _, _ => x
  end.

(** [randbelow(n)], the draw that [choice] makes too. *)
Definition randbelow {St : Type} (n : nat) : M St nat :=
  call (fun h => (rng_index env h n mod n)%nat) (EvChoice n).

(** [for i in reversed(range(1, len(x))): j = randbelow(i + 1); swap],
    the loop of [random.shuffle], from index [i] down to 1. *)
Fixpoint shuffle_from {St A : Type} (i : nat) (x : list A)
    : M St (list A) :=
  match i with
  | O => ret x
  | S i' =>
      j <- randbelow (S i) ;;
      shuffle_from i' (swap x i j)
  end.

Definition shuffle {St A : Type} (x : list A) : M St (list A) :=
  shuffle_from (length x - 1) x.

Definition set_usable_dests (ds : list Destination) (self : DestinationList)
    : DestinationList :=
  {| _cb := _cb self; _rl := _rl self; _all_dests := _all_dests self;
     _usable_dests := ds;
     _last_usability_test := _last_usability_test self;
     _usability_test_interval := _usability_test_interval self;
     _usability_test_timeout := _usability_test_timeout self |}.

Definition nat_str (n : nat) : string := pretty n.

(** ['%f' % x]: six digits after the point. *)
Definition float_str (x : Q) : string :=
  let y := (x * inject_Z 1000000 + (1 # 2))%Q in
  let n := (Qnum y / Z.pos (Qden y))%Z in
  let frac := pretty (Z.abs n mod 1000000)%Z in
  (if (n <? 0)%Z then "-" else "") +:+ pretty (Z.abs n / 1000000)%Z +:+ "."
  +:+ String.concat "" (replicate (6 - String.length frac) "0") +:+ frac.

(** [while True] of [next]: each round costs one unit of [rounds]; a round
    ends in the [break] or in a sleep. *)
Fixpoint next_loop (rounds : nat) (fuel : nat) : M Caller unit :=
  match rounds with
  | O => out_of_fuel
  | S rounds' =>
      should <- zoom dests_of set_dests _should_perform_usability_test ;;
      (if (should : bool) then
         zoom dests_of set_dests (_perform_usability_test fuel) ;;;
         c <- get_self ;;
         log DEBUG
           "%s/%s of our configured destinations are usable at this time"
           [nat_str (length (_usable_dests (dests_of c)));
            nat_str (length (_all_dests (dests_of c)))]
       else ret tt) ;;;
      c <- get_self ;;
      if (0 <? length (_usable_dests (dests_of c)))%nat then ret tt
      else
        let time_till_next_check :=
          float_add (float_of_int (_usability_test_interval (dests_of c)))
                    (round64 (1 # 10000)) in
        log WARNING
          "Of our %d configured destinations, none are usable at this time. Sleeping %f seconds on this blocking call to DestinationList.next() until we can check for a usable destination again."
          [nat_str (length (_all_dests (dests_of c)));
           float_str time_till_next_check] ;;;
        sleep time_till_next_check ;;;
        next_loop rounds' fuel
  end.

(** [DestinationList.next] *)
Definition next (rounds : nat) (fuel : nat) : M Caller Destination :=
  with_lock EvLockAcquire EvLockRelease (next_loop rounds fuel) ;;;
  c <- get_self ;;
  shuffled <- shuffle (_usable_dests (dests_of c)) ;;
  c <- get_self ;;
  put_self (set_dests (set_usable_dests shuffled (dests_of c)) c) ;;;
  match shuffled with
  | [] => raise IndexError
  | d :: _ => ret d
  end.

End WithCollaborators.

(** ** Footprints

    [bounded f p n m]: running [m] leaves the part [f] of the object as it
    was and adds at most [n] events that satisfy [p] to the history. *)
Definition bounded {S A T : Type} (f : S -> T) (p : event -> bool) (n : nat)
    (m : M S A) : Prop :=
  forall s h,
    f (self_of (m s h)) = f s
    /\ (count_events p (hist_of (m s h)) <= count_events p h + n)%nat.

(** ** Test doubles

    Concrete collaborators and objects on which the methods are run. *)

Module Stub.

Definition relayA : Relay :=
  {| fingerprint := "AAAAAAAAAAAAAAAAAAAA"; nickname := "alpha";
     address := "10.0.0.1"; flags := [FAST; GUARD]; bandwidth := 100;
     exit_policy := None; is_unmeasured := false |}.

Definition relayB : Relay :=
  {| fingerprint := "BBBBBBBBBBBBBBBBBBBB"; nickname := "bravo";
     address := "10.0.0.2"; flags := [FAST]; bandwidth := 70;
     exit_policy := None; is_unmeasured := false |}.

(** An exit that accepts port 443 to any address. *)
Definition relayE : Relay :=
  {| fingerprint := "EXITFPR"; nickname := "echo";
     address := "10.0.0.5"; flags := [FAST; EXIT]; bandwidth := 50;
     exit_policy := Some [ {| is_accept := true; rule_address := None;
                              min_port := 443; max_port := 443 |};
                           {| is_accept := false; rule_address := None;
                              min_port := 1; max_port := 65535 |} ];
     is_unmeasured := false |}.

(** An exit that accepts port 443 to the one address 5.6.7.8. *)
Definition only_5678 : ExitPolicy :=
  [ {| is_accept := true; rule_address := Some "5.6.7.8";
       min_port := 443; max_port := 443 |};
    {| is_accept := false; rule_address := None;
       min_port := 1; max_port := 65535 |} ].

Definition relayX : Relay :=
  {| fingerprint := "XXXXXXXXXXXXXXXXXXXX"; nickname := "xray";
     address := "10.0.0.9"; flags := [EXIT]; bandwidth := 20;
     exit_policy := Some only_5678; is_unmeasured := false |}.

(** A rule matcher in the manner of stem's [ExitPolicyRule.is_match] with
    [strict=False]: a rule matches when address and port fit; when the
    caller leaves one out that the rule constrains, the match is a fuzzy
    one and holds for accept rules only. *)
Definition rule_is_match (r : ExitPolicyRule) (addr : option string)
    (port : option Z) : bool :=
  let port_wildcard := (min_port r <=? 1) && (65535 <=? max_port r) in
  let addr_fit :=
    match rule_address r, addr with
    | None, _ => Some false
    | Some _, None => Some true
    | Some a, Some b => if String.eqb a b then Some false else None
    end in
  let port_fit :=
    if port_wildcard then Some false
    else match port with
         | None => Some true
         | Some p => if (min_port r <=? p) && (p <=? max_port r)
                     then Some false else None
         end in
  match addr_fit, port_fit with
  | Some f1, Some f2 => if f1 || f2 then is_accept r else true
  | _, _ => false
  end.

(** The first matching rule decides; no match means allowed. *)
Fixpoint stem_can_exit_to (p : ExitPolicy) (addr : option string)
    (port : option Z) : exn + bool :=
  match p with
  | [] => inr true
  | r :: p' =>
      if rule_is_match r addr port then inr (is_accept r)
      else stem_can_exit_to p' addr port
  end.

Definition relay_named (s : string) (r : Relay) : bool :=
  String.eqb (fingerprint r) s || String.eqb (nickname r) s.

Definition is_ipv4_char (c : ascii) : bool :=
  let n := nat_of_ascii c in
  ((48 <=? n)%nat && (n <=? 57)%nat) || (n =? 46)%nat.

Definition looks_ipv4 (s : string) : bool :=
  str_truthy s && forallb is_ipv4_char (list_ascii_of_string s).

(** [urlparse] on the URLs the examples use. *)
Definition urlparse_table (url : string) : ParseResult :=
  if String.eqb url "https://example.com" then
    {| scheme := "https"; netloc := "example.com"; path := "";
       params := ""; query := ""; fragment := "" |}
  else if String.eqb url "https://example.com/" then
    {| scheme := "https"; netloc := "example.com"; path := "/";
       params := ""; query := ""; fragment := "" |}
  else if String.eqb url "https://example.com/sbws.bin" then
    {| scheme := "https"; netloc := "example.com"; path := "/sbws.bin";
       params := ""; query := ""; fragment := "" |}
  else if String.eqb url "http://example.com/sbws.bin" then
    {| scheme := "http"; netloc := "example.com"; path := "/sbws.bin";
       params := ""; query := ""; fragment := "" |}
  else if String.eqb url "http://example.com:8080/sbws.bin" then
    {| scheme := "http"; netloc := "example.com:8080"; path := "/sbws.bin";
       params := ""; query := ""; fragment := "" |}
  else
    {| scheme := ""; netloc := ""; path := url;
       params := ""; query := ""; fragment := "" |}.

Definition port_table (u : ParseResult) : exn + option Z :=
  if String.eqb (netloc u) "example.com:8080" then inr (Some 8080)
  else inr None.

Definition hostname_table (u : ParseResult) : string :=
  if String.eqb (netloc u) "example.com:8080" then "example.com"
  else netloc u.

Definition int_table (s : string) : option Z :=
  if String.eqb s "1024" then Some 1024
  else if String.eqb s "10" then Some 10
  else None.

(** A healthy controller over the consensus [net]: every construction call
    is answered by [nc], every circuit lookup by [circ], every HEAD request
    by [resp]; the clock stands at [now] and the random source always draws
    index 0. *)
Definition env (net : list Relay) (now : Q) (nc : exn + string)
    (circ : option (list (string * string))) (resp : exn + Response)
    : Collaborators :=
  {| time_time := fun _ => now;
     is_controller_okay := fun _ => true;
     get_network_statuses := fun _ => net;
     get_microdescriptor := fun _ _ => inl DescriptorUnavailable;
     fp_or_nick_to_relay := fun _ s => List.find (relay_named s) net;
     get_circuit := fun _ _ => circ;
     close_circuit_ctl := fun _ _ => None;
     new_circuit := fun _ _ _ => nc;
     rng_index := fun _ _ => 0%nat;
     can_exit_to := stem_can_exit_to;
     resolve := fun _ _ => ["93.184.216.34"];
     is_valid_ipv4_address := looks_ipv4;
     is_valid_ipv6_address := fun _ => false;
     urlparse := urlparse_table;
     geturl := fun u => scheme u +:+ "://" +:+ netloc u +:+ path u;
     url_hostname := hostname_table;
     url_port := port_table;
     head := fun _ _ => resp;
     circuit_str := fun _ _ => "[circuit]";
     py_int := int_table |}.

(** The controller [e] when relays are looked up by fingerprint alone. *)
Definition by_fingerprint (net : list Relay) (e : Collaborators)
    : Collaborators :=
  {| time_time := time_time e;
     is_controller_okay := is_controller_okay e;
     get_network_statuses := get_network_statuses e;
     get_microdescriptor := get_microdescriptor e;
     fp_or_nick_to_relay :=
       fun _ s => List.find (fun r => String.eqb (fingerprint r) s) net;
     get_circuit := get_circuit e;
     close_circuit_ctl := close_circuit_ctl e;
     new_circuit := new_circuit e;
     rng_index := rng_index e;
     can_exit_to := can_exit_to e;
     resolve := resolve e;
     is_valid_ipv4_address := is_valid_ipv4_address e;
     is_valid_ipv6_address := is_valid_ipv6_address e;
     urlparse := urlparse e;
     geturl := geturl e;
     url_hostname := url_hostname e;
     url_port := url_port e;
     head := head e;
     circuit_str := circuit_str e;
     py_int := py_int e |}.

Definition ok_response : Response :=
  {| status_code := 200; headers := [("Content-Length", "1024")] |}.

Definition not_found_response : Response :=
  {| status_code := 404; headers := [] |}.

(** A relay list fetched at time 1000. *)
Definition rl (net : list Relay) : RelayList :=
  {| _relays := net; _last_refresh := 1000 # 1 |}.

(** A builder over [net] whose set of built circuits is [bc]. *)
Definition cb (net : list Relay) (bc : gset string) : CircuitBuilder :=
  {| relay_list := rl net; built_circuits := bc;
     close_circuits_on_exit := true; circuit_timeout := 10 |}.

Definition dest_https : Destination :=
  {| _max_dl := 1024; _url := urlparse_table "https://example.com/sbws.bin" |}.

(** A destination list with the one destination [dest_https]. *)
Definition dl (net : list Relay) : DestinationList :=
  {| _cb := cb net ∅; _rl := rl net; _all_dests := [dest_https];
     _usable_dests := []; _last_usability_test := PyInt 0;
     _usability_test_interval := 300;
     _usability_test_timeout := 10 # 1 |}.

End Stub.

(** ** Scenarios *)

Module Scenario.
Import Stub.

(** Two relays, every construction call answered with circuit id 7. *)
Definition net_two : list Relay := [relayA; relayE].

Definition env_builds : Collaborators :=
  env net_two (1000 # 1) (inr "7") (Some [("AAAAAAAAAAAAAAAAAAAA", "alpha")])
      (inr ok_response).

(** The same with a destination that answers 404. *)
Definition env_not_found : Collaborators :=
  env net_two (1000 # 1) (inr "7") (Some [("AAAAAAAAAAAAAAAAAAAA", "alpha")])
      (inr not_found_response).

(** A consensus with the pinned exit alone. *)
Definition env_exit_only : Collaborators :=
  env [relayE] (1000 # 1) (inr "7") None (inr ok_response).

(** A consensus without any exit. *)
Definition env_no_exit : Collaborators :=
  env [relayA] (1000 # 1) (inr "7") None (inr ok_response).

(** A consensus whose one exit accepts 5.6.7.8:443 only. *)
Definition env_picky_exit : Collaborators :=
  env [relayA; relayX] (1000 # 1) (inr "7") None (inr ok_response).

(** A session that knows no circuit. *)
Definition env_gone : Collaborators :=
  env net_two (1000 # 1) (inr "7") None (inr ok_response).

(** A session whose construction calls all time out. *)
Definition env_timeouts : Collaborators :=
  env net_two (1000 # 1) (inl Timeout) None (inr ok_response).

(** The clock at 1299 and at 1300, the list fetched at 1000. *)
Definition env_at (now : Q) : Collaborators :=
  env net_two now (inr "7") None (inr ok_response).

(** [env_builds], relays looked up by fingerprint alone. *)
Definition env_by_fingerprint : Collaborators :=
  by_fingerprint net_two env_builds.

End Scenario.

(** ** Fixtures

    Collaborators derived from others by replacing one answer, and the
    predicates on events that the footprints count. *)

Module Fixture.

Definition with_time_time (v : history -> Q) (e : Collaborators)
    : Collaborators :=
  {|
     time_time := v;
     is_controller_okay := is_controller_okay e;
     get_network_statuses := get_network_statuses e;
     get_microdescriptor := get_microdescriptor e;
     fp_or_nick_to_relay := fp_or_nick_to_relay e;
     get_circuit := get_circuit e;
     close_circuit_ctl := close_circuit_ctl e;
     new_circuit := new_circuit e;
     rng_index := rng_index e;
     can_exit_to := can_exit_to e;
     resolve := resolve e;
     is_valid_ipv4_address := is_valid_ipv4_address e;
     is_valid_ipv6_address := is_valid_ipv6_address e;
     urlparse := urlparse e;
     geturl := geturl e;
     url_hostname := url_hostname e;
     url_port := url_port e;
     head := head e;
     circuit_str := circuit_str e;
     py_int := py_int e |}.

Definition with_is_controller_okay (v : history -> bool) (e : Collaborators)
    : Collaborators :=
  {|
     time_time := time_time e;
     is_controller_okay := v;
     get_network_statuses := get_network_statuses e;
     get_microdescriptor := get_microdescriptor e;
     fp_or_nick_to_relay := fp_or_nick_to_relay e;
     get_circuit := get_circuit e;
     close_circuit_ctl := close_circuit_ctl e;
     new_circuit := new_circuit e;
     rng_index := rng_index e;
     can_exit_to := can_exit_to e;
     resolve := resolve e;
     is_valid_ipv4_address := is_valid_ipv4_address e;
     is_valid_ipv6_address := is_valid_ipv6_address e;
     urlparse := urlparse e;
     geturl := geturl e;
     url_hostname := url_hostname e;
     url_port := url_port e;
     head := head e;
     circuit_str := circuit_str e;
     py_int := py_int e |}.

Definition with_get_microdescriptor (v : history -> string -> exn + option ExitPolicy) (e : Collaborators)
    : Collaborators :=
  {|
     time_time := time_time e;
     is_controller_okay := is_controller_okay e;
     get_network_statuses := get_network_statuses e;
     get_microdescriptor := v;
     fp_or_nick_to_relay := fp_or_nick_to_relay e;
     get_circuit := get_circuit e;
     close_circuit_ctl := close_circuit_ctl e;
     new_circuit := new_circuit e;
     rng_index := rng_index e;
     can_exit_to := can_exit_to e;
     resolve := resolve e;
     is_valid_ipv4_address := is_valid_ipv4_address e;
     is_valid_ipv6_address := is_valid_ipv6_address e;
     urlparse := urlparse e;
     geturl := geturl e;
     url_hostname := url_hostname e;
     url_port := url_port e;
     head := head e;
     circuit_str := circuit_str e;
     py_int := py_int e |}.

Definition with_fp_or_nick_to_relay (v : history -> string -> option Relay) (e : Collaborators)
    : Collaborators :=
  {|
     time_time := time_time e;
     is_controller_okay := is_controller_okay e;
     get_network_statuses := get_network_statuses e;
     get_microdescriptor := get_microdescriptor e;
     fp_or_nick_to_relay := v;
     get_circuit := get_circuit e;
     close_circuit_ctl := close_circuit_ctl e;
     new_circuit := new_circuit e;
     rng_index := rng_index e;
     can_exit_to := can_exit_to e;
     resolve := resolve e;
     is_valid_ipv4_address := is_valid_ipv4_address e;
     is_valid_ipv6_address := is_valid_ipv6_address e;
     urlparse := urlparse e;
     geturl := geturl e;
     url_hostname := url_hostname e;
     url_port := url_port e;
     head := head e;
     circuit_str := circuit_str e;
     py_int := py_int e |}.

Definition with_get_circuit (v : history -> string -> option (list (string * string))) (e : Collaborators)
    : Collaborators :=
  {|
     time_time := time_time e;
     is_controller_okay := is_controller_okay e;
     get_network_statuses := get_network_statuses e;
     get_microdescriptor := get_microdescriptor e;
     fp_or_nick_to_relay := fp_or_nick_to_relay e;
     get_circuit := v;
     close_circuit_ctl := close_circuit_ctl e;
     new_circuit := new_circuit e;
     rng_index := rng_index e;
     can_exit_to := can_exit_to e;
     resolve := resolve e;
     is_valid_ipv4_address := is_valid_ipv4_address e;
     is_valid_ipv6_address := is_valid_ipv6_address e;
     urlparse := urlparse e;
     geturl := geturl e;
     url_hostname := url_hostname e;
     url_port := url_port e;
     head := head e;
     circuit_str := circuit_str e;
     py_int := py_int e |}.

Definition with_close_circuit_ctl (v : history -> string -> option exn) (e : Collaborators)
    : Collaborators :=
  {|
     time_time := time_time e;
     is_controller_okay := is_controller_okay e;
     get_network_statuses := get_network_statuses e;
     get_microdescriptor := get_microdescriptor e;
     fp_or_nick_to_relay := fp_or_nick_to_relay e;
     get_circuit := get_circuit e;
     close_circuit_ctl := v;
     new_circuit := new_circuit e;
     rng_index := rng_index e;
     can_exit_to := can_exit_to e;
     resolve := resolve e;
     is_valid_ipv4_address := is_valid_ipv4_address e;
     is_valid_ipv6_address := is_valid_ipv6_address e;
     urlparse := urlparse e;
     geturl := geturl e;
     url_hostname := url_hostname e;
     url_port := url_port e;
     head := head e;
     circuit_str := circuit_str e;
     py_int := py_int e |}.

Definition with_new_circuit (v : history -> list string -> Z -> exn + string) (e : Collaborators)
    : Collaborators :=
  {|
     time_time := time_time e;
     is_controller_okay := is_controller_okay e;
     get_network_statuses := get_network_statuses e;
     get_microdescriptor := get_microdescriptor e;
     fp_or_nick_to_relay := fp_or_nick_to_relay e;
     get_circuit := get_circuit e;
     close_circuit_ctl := close_circuit_ctl e;
     new_circuit := v;
     rng_index := rng_index e;
     can_exit_to := can_exit_to e;
     resolve := resolve e;
     is_valid_ipv4_address := is_valid_ipv4_address e;
     is_valid_ipv6_address := is_valid_ipv6_address e;
     urlparse := urlparse e;
     geturl := geturl e;
     url_hostname := url_hostname e;
     url_port := url_port e;
     head := head e;
     circuit_str := circuit_str e;
     py_int := py_int e |}.

Definition with_rng_index (v : history -> nat -> nat) (e : Collaborators)
    : Collaborators :=
  {|
     time_time := time_time e;
     is_controller_okay := is_controller_okay e;
     get_network_statuses := get_network_statuses e;
     get_microdescriptor := get_microdescriptor e;
     fp_or_nick_to_relay := fp_or_nick_to_relay e;
     get_circuit := get_circuit e;
     close_circuit_ctl := close_circuit_ctl e;
     new_circuit := new_circuit e;
     rng_index := v;
     can_exit_to := can_exit_to e;
     resolve := resolve e;
     is_valid_ipv4_address := is_valid_ipv4_address e;
     is_valid_ipv6_address := is_valid_ipv6_address e;
     urlparse := urlparse e;
     geturl := geturl e;
     url_hostname := url_hostname e;
     url_port := url_port e;
     head := head e;
     circuit_str := circuit_str e;
     py_int := py_int e |}.

Definition with_can_exit_to (v : ExitPolicy -> option string -> option Z -> exn + bool) (e : Collaborators)
    : Collaborators :=
  {|
     time_time := time_time e;
     is_controller_okay := is_controller_okay e;
     get_network_statuses := get_network_statuses e;
     get_microdescriptor := get_microdescriptor e;
     fp_or_nick_to_relay := fp_or_nick_to_relay e;
     get_circuit := get_circuit e;
     close_circuit_ctl := close_circuit_ctl e;
     new_circuit := new_circuit e;
     rng_index := rng_index e;
     can_exit_to := v;
     resolve := resolve e;
     is_valid_ipv4_address := is_valid_ipv4_address e;
     is_valid_ipv6_address := is_valid_ipv6_address e;
     urlparse := urlparse e;
     geturl := geturl e;
     url_hostname := url_hostname e;
     url_port := url_port e;
     head := head e;
     circuit_str := circuit_str e;
     py_int := py_int e |}.

Definition with_resolve (v : history -> string -> list string) (e : Collaborators)
    : Collaborators :=
  {|
     time_time := time_time e;
     is_controller_okay := is_controller_okay e;
     get_network_statuses := get_network_statuses e;
     get_microdescriptor := get_microdescriptor e;
     fp_or_nick_to_relay := fp_or_nick_to_relay e;
     get_circuit := get_circuit e;
     close_circuit_ctl := close_circuit_ctl e;
     new_circuit := new_circuit e;
     rng_index := rng_index e;
     can_exit_to := can_exit_to e;
     resolve := v;
     is_valid_ipv4_address := is_valid_ipv4_address e;
     is_valid_ipv6_address := is_valid_ipv6_address e;
     urlparse := urlparse e;
     geturl := geturl e;
     url_hostname := url_hostname e;
     url_port := url_port e;
     head := head e;
     circuit_str := circuit_str e;
     py_int := py_int e |}.

Definition with_head (v : history -> string -> exn + Response) (e : Collaborators)
    : Collaborators :=
  {|
     time_time := time_time e;
     is_controller_okay := is_controller_okay e;
     get_network_statuses := get_network_statuses e;
     get_microdescriptor := get_microdescriptor e;
     fp_or_nick_to_relay := fp_or_nick_to_relay e;
     get_circuit := get_circuit e;
     close_circuit_ctl := close_circuit_ctl e;
     new_circuit := new_circuit e;
     rng_index := rng_index e;
     can_exit_to := can_exit_to e;
     resolve := resolve e;
     is_valid_ipv4_address := is_valid_ipv4_address e;
     is_valid_ipv6_address := is_valid_ipv6_address e;
     urlparse := urlparse e;
     geturl := geturl e;
     url_hostname := url_hostname e;
     url_port := url_port e;
     head := v;
     circuit_str := circuit_str e;
     py_int := py_int e |}.

Definition with_url_port (v : ParseResult -> exn + option Z) (e : Collaborators)
    : Collaborators :=
  {|
     time_time := time_time e;
     is_controller_okay := is_controller_okay e;
     get_network_statuses := get_network_statuses e;
     get_microdescriptor := get_microdescriptor e;
     fp_or_nick_to_relay := fp_or_nick_to_relay e;
     get_circuit := get_circuit e;
     close_circuit_ctl := close_circuit_ctl e;
     new_circuit := new_circuit e;
     rng_index := rng_index e;
     can_exit_to := can_exit_to e;
     resolve := resolve e;
     is_valid_ipv4_address := is_valid_ipv4_address e;
     is_valid_ipv6_address := is_valid_ipv6_address e;
     urlparse := urlparse e;
     geturl := geturl e;
     url_hostname := url_hostname e;
     url_port := v;
     head := head e;
     circuit_str := circuit_str e;
     py_int := py_int e |}.

End Fixture.

Module Situation.
Import Stub.

(** The clock at 1300, the list fetched at 1000, the controller not okay. *)
Definition env_unhealthy : Collaborators :=
  Fixture.with_is_controller_okay (fun _ => false)
    (Scenario.env_at (1300 # 1)).

(** The clock at 1100: the snapshot fetched at 1000 is still fresh. *)
Definition env_fresh : Collaborators := Scenario.env_at (1100 # 1).

(** The floats that Python writes 1000.1 and 1300.1. *)
Definition float_1000_1 : Q := round64 (10001 # 10).
Definition float_1300_1 : Q := round64 (13001 # 10).

(** A clock that stands at 1000.1 for its first two readings and at
    1300.1 from then on, and a snapshot that is old at 1000.1. *)
Definition env_two_calls : Collaborators :=
  Fixture.with_time_time
    (fun h =>
       match count_events (fun e => match e with EvTime => true | _ => false end) h
       with
       | 0%nat | 1%nat => float_1000_1
       | _ => float_1300_1
       end)
    Scenario.env_builds.
Definition rl_old : RelayList :=
  {| _relays := []; _last_refresh := 0 |}.

(** A session whose close fails with ProtocolError. *)
Definition env_close_fault : Collaborators :=
  Fixture.with_close_circuit_ctl (fun _ _ => Some ProtocolError)
    Scenario.env_builds.

(** A destination that cannot be connected to. *)
Definition env_no_connection : Collaborators :=
  Fixture.with_head (fun _ _ => inl ConnectionError) Scenario.env_builds.

Definition two_hops : list string := ["AAAAAAAAAAAAAAAAAAAA"; "EXITFPR"].


(** A controller whose first three attempts to build a circuit fail, each
    in its own way, and whose fourth would give circuit 9. *)
Definition env_three_faults : Collaborators :=
  Fixture.with_new_circuit
    (fun h _ _ =>
       match count_events is_new_circuit h with
       | 0%nat => inl InvalidArguments
       | 1%nat => inl CircuitExtensionFailed
       | 2%nat => inl ProtocolError
       | _ => inr "9"
       end)
    Scenario.env_builds.

(** A thread about to call [next] on a list with one destination. *)
Definition caller : Caller :=
  {| dests_of := dl Scenario.net_two; slept := [] |}.

End Situation.

Definition is_choice (e : event) : bool :=
  match e with EvChoice _ => true | _ => false end.

Definition is_resolve (e : event) : bool :=
  match e with EvResolve _ => true | _ => false end.

Definition is_close (e : event) : bool :=
  match e with EvCloseCircuit _ => true | _ => false end.

Definition is_get_microdescriptor (e : event) : bool :=
  match e with EvGetMicrodescriptor _ => true | _ => false end.

Definition is_lookup (e : event) : bool :=
  match e with EvFpOrNickToRelay _ => true | _ => false end.

Definition is_head (e : event) : bool :=
  match e with EvHead _ => true | _ => false end.

Definition is_lock_acquire (e : event) : bool :=
  match e with EvLockAcquire => true | _ => false end.

Definition is_lock_release (e : event) : bool :=
  match e with EvLockRelease => true | _ => false end.

Definition is_stream_lock_acquire (e : event) : bool :=
  match e with EvStreamLockAcquire => true | _ => false end.

Definition is_stream_lock_release (e : event) : bool :=
  match e with EvStreamLockRelease => true | _ => false end.

Definition is_add_listener (e : event) : bool :=
  match e with EvAddEventListener _ => true | _ => false end.

Definition is_remove_listener (e : event) : bool :=
  match e with EvRemoveEventListener _ => true | _ => false end.

Definition is_get_circuit (e : event) : bool :=
  match e with EvGetCircuit _ => true | _ => false end.

(** No event. *)
Definition no_event (e : event) : bool := false.

(** [quiet p m]: running [m] adds no event that satisfies [p]. *)
Definition quiet {S A : Type} (p : event -> bool) (m : M S A) : Prop :=
  forall s h, count_events p (hist_of (m s h)) = count_events p h.

(** [returns P m]: whatever [m] returns satisfies [P]. *)
Definition returns {S A : Type} (P : A -> Prop) (m : M S A) : Prop :=
  forall s h a s' h', m s h = (Return a, s', h') -> P a.

(** The usable destinations of the caller's list are among the configured
    ones. *)
Definition usable_within (c : Caller) : Prop :=
  forall x, x ∈ _usable_dests (dests_of c) -> x ∈ _all_dests (dests_of c).

(** The relay's own policy accepts the port, the address left out; a
    policy that is missing, or whose check fails, does not. *)
Definition port_accepted (env : Collaborators) (port : Z) (r : Relay)
    : bool :=
  match exit_policy r with
  | Some p =>
      match can_exit_to env p None (Some port) with
      | inr true => true
      | _ => false
      end
  | None => false
  end.

Definition has_flag (flag : Flag) (r : Relay) : bool :=
  existsb (Flag_eqb flag) (flags r).

(** * Theorems *)

Ltac unfold_monad :=
  unfold py_time in *;
  unfold bind, ret, raise, call, call_exn, log, get_self, put_self,
    py_assert, try_except, try_finally, zoom, lift_exn, lift_result,
    out_of_fuel, res_of, self_of, hist_of in *.

Lemma count_events_cons p e h :
  count_events p (e :: h)
  = ((if p e then 1 else 0) + count_events p h)%nat.
Proof.
  unfold count_events. simpl. destruct (p e); reflexivity.
Qed.

Lemma bind_run {S A B : Type} (m : M S A) (k : A -> M S B) s h :
  bind m k s h
  = match m s h with
    | (Return a, s', h') => k a s' h'
    | (Raise e, s', h') => (Raise e, s', h')
    | (OutOfFuel, s', h') => (OutOfFuel, s', h')
    end.
Proof. reflexivity. Qed.

(** ** Rounding to the nearest float *)

Section Floats.

Local Open Scope Q_scope.

Lemma two_not_0 : ~ 2 == 0.
Proof. intros H. discriminate H. Qed.

Lemma pow2_pos (e : Z) : 0 < 2 ^ e.
Proof. apply Qpower_0_lt. reflexivity. Qed.

Lemma pow2_succ (e : Z) : 2 ^ (e + 1) == 2 * 2 ^ e.
Proof. rewrite Qpower_plus by apply two_not_0. rewrite Qpower_1_r. ring. Qed.

Lemma pow2_le (a b : Z) : (a <= b)%Z -> 2 ^ a <= 2 ^ b.
Proof. intros H. apply Qpower_le_compat_l; [exact H|]. discriminate. Qed.

Lemma pow2_lt_inv (a b : Z) : 2 ^ a < 2 ^ b -> (a < b)%Z.
Proof. intros H. apply (Qpower_lt_compat_l_inv 2); [exact H|reflexivity]. Qed.

Lemma inject_Z_pow2 (n : Z) : (0 <= n)%Z -> inject_Z (2 ^ n) == 2 ^ n.
Proof. intros H. rewrite Zpower_Qpower by exact H. reflexivity. Qed.

Lemma Qnum_pos_iff (x : Q) : 0 < x <-> (0 < Qnum x)%Z.
Proof. unfold Qlt. simpl. rewrite Z.mul_1_r. reflexivity. Qed.

Lemma binade_spec (x : Q) :
  0 < x -> 2 ^ binade x <= x /\ x < 2 ^ (binade x + 1).
Proof.
  intros Hx. unfold binade.
  set (ln := Z.log2 (Qnum x)). set (ld := Z.log2 (Z.pos (Qden x))).
  assert (Hn : (0 < Qnum x)%Z) by (apply Qnum_pos_iff; exact Hx).
  assert (Hd : (0 < Z.pos (Qden x))%Z) by reflexivity.
  destruct (Z.log2_spec _ Hn) as [Hn1 Hn2]. fold ln in Hn1, Hn2.
  destruct (Z.log2_spec _ Hd) as [Hd1 Hd2]. fold ld in Hd1, Hd2.
  assert (Hln : (0 <= ln)%Z) by apply Z.log2_nonneg.
  assert (Hld : (0 <= ld)%Z) by apply Z.log2_nonneg.
  assert (Ex : x == inject_Z (Qnum x) / inject_Z (Z.pos (Qden x))).
  { rewrite <- (Qmake_Qdiv (Qnum x) (Qden x)). destruct x; reflexivity. }
  assert (Hdq : 0 < inject_Z (Z.pos (Qden x))) by reflexivity.
  assert (Hxd : x * inject_Z (Z.pos (Qden x)) == inject_Z (Qnum x)).
  { rewrite Ex at 1. field. intros H. rewrite H in Hdq. discriminate Hdq. }
  (* bounds in Q *)
  assert (Qn1 : 2 ^ ln <= inject_Z (Qnum x)).
  { rewrite <- inject_Z_pow2 by exact Hln. rewrite <- Zle_Qle. exact Hn1. }
  assert (Qn2 : inject_Z (Qnum x) < 2 ^ (ln + 1)).
  { rewrite <- inject_Z_pow2 by lia. rewrite <- Zlt_Qlt.
    replace (ln + 1)%Z with (Z.succ ln) by lia. exact Hn2. }
  assert (Qd1 : 2 ^ ld <= inject_Z (Z.pos (Qden x))).
  { rewrite <- inject_Z_pow2 by exact Hld. rewrite <- Zle_Qle. exact Hd1. }
  assert (Qd2 : inject_Z (Z.pos (Qden x)) < 2 ^ (ld + 1)).
  { rewrite <- inject_Z_pow2 by lia. rewrite <- Zlt_Qlt.
    replace (ld + 1)%Z with (Z.succ ld) by lia. exact Hd2. }
  set (D := inject_Z (Z.pos (Qden x))) in *.
  set (N := inject_Z (Qnum x)) in *.
  assert (Hup : x < 2 ^ (ln - ld + 1)).
  { (* x * D = N < 2^(ln+1) = 2^(ln-ld+1) * 2^ld <= 2^(ln-ld+1) * D *)
    assert (E : 2 ^ (ln + 1) == 2 ^ (ln - ld + 1) * 2 ^ ld).
    { rewrite <- Qpower_plus by apply two_not_0.
      replace (ln - ld + 1 + ld)%Z with (ln + 1)%Z by lia. reflexivity. }
    pose proof (pow2_pos (ln - ld + 1)) as Hp.
    pose proof (pow2_pos ld) as Hp'.
    apply (Qmult_lt_r _ _ D Hdq).
    rewrite Hxd. eapply Qlt_le_trans; [exact Qn2|]. rewrite E.
    apply Qmult_le_l; [exact Hp|exact Qd1]. }
  assert (Hlow : 2 ^ (ln - ld - 1) <= x).
  { assert (E : 2 ^ ln == 2 ^ (ln - ld - 1) * 2 ^ (ld + 1)).
    { rewrite <- Qpower_plus by apply two_not_0.
      replace (ln - ld - 1 + (ld + 1))%Z with ln by lia. reflexivity. }
    pose proof (pow2_pos (ln - ld - 1)) as Hp.
    apply (Qmult_le_r _ _ D Hdq).
    rewrite Hxd. eapply Qle_trans; [|exact Qn1]. rewrite E.
    apply Qmult_le_l; [exact Hp|]. apply Qlt_le_weak. exact Qd2. }
  destruct (Qle_bool (2 ^ (ln - ld)) x) eqn:E.
  - apply Qle_bool_iff in E. split; [exact E|exact Hup].
  - split; [exact Hlow|].
    replace (ln - ld - 1 + 1)%Z with (ln - ld)%Z by lia.
    apply Qnot_le_lt. intros H. apply Qle_bool_iff in H. congruence.
Qed.

Lemma binade_le (x y : Q) : 0 < x -> x <= y -> (binade x <= binade y)%Z.
Proof.
  intros Hx Hxy.
  assert (Hy : 0 < y) by (eapply Qlt_le_trans; eassumption).
  destruct (binade_spec x Hx) as [Hx1 _].
  destruct (binade_spec y Hy) as [_ Hy2].
  assert (H : 2 ^ binade x < 2 ^ (binade y + 1)).
  { eapply Qle_lt_trans; [exact Hx1|]. eapply Qle_lt_trans; eassumption. }
  apply pow2_lt_inv in H. lia.
Qed.

Lemma round_half_even_range (y : Q) :
  (Qfloor y <= round_half_even y <= Qfloor y + 1)%Z.
Proof.
  unfold round_half_even.
  destruct (Qcompare _ _); [destruct (Z.even _)| |]; lia.
Qed.

Lemma round_half_even_le (y1 y2 : Q) :
  y1 <= y2 -> (round_half_even y1 <= round_half_even y2)%Z.
Proof.
  intros H. pose proof (Qfloor_resp_le _ _ H) as Hf.
  pose proof (round_half_even_range y1) as R1.
  pose proof (round_half_even_range y2) as R2.
  destruct (Z.eq_dec (Qfloor y1) (Qfloor y2)) as [E|NE]; [|lia].
  assert (Hy : y1 - inject_Z (Qfloor y1) <= y2 - inject_Z (Qfloor y1)) by lra.
  unfold round_half_even. rewrite <- E.
  destruct (Qcompare (y1 - inject_Z (Qfloor y1)) (1 # 2)) eqn:C1;
    destruct (Qcompare (y2 - inject_Z (Qfloor y1)) (1 # 2)) eqn:C2;
    try (destruct (Z.even (Qfloor y1))); try lia; exfalso;
    repeat match goal with
           | C : Qcompare _ _ = Eq |- _ => apply Qeq_alt in C
           | C : Qcompare _ _ = Lt |- _ => apply Qlt_alt in C
           | C : Qcompare _ _ = Gt |- _ => apply Qgt_alt in C
           end;
    lra.
Qed.

Lemma round_half_even_Z (k : Z) : round_half_even (inject_Z k) = k.
Proof.
  unfold round_half_even. rewrite Qfloor_Z.
  assert (E : Qcompare (inject_Z k - inject_Z k) (1 # 2) = Lt).
  { apply Qlt_alt. setoid_replace (inject_Z k - inject_Z k) with 0
      using relation Qeq by ring.
    reflexivity. }
  rewrite E. reflexivity.
Qed.

Lemma scaled_range (x : Q) :
  0 < x ->
  inject_Z (2 ^ 52) <= x / 2 ^ (binade x - 52)
  /\ x / 2 ^ (binade x - 52) <= inject_Z (2 ^ 53).
Proof.
  intros Hx. destruct (binade_spec x Hx) as [H1 H2].
  pose proof (pow2_pos (binade x - 52)) as Hp.
  assert (E1 : 2 ^ binade x == inject_Z (2 ^ 52) * 2 ^ (binade x - 52)).
  { rewrite inject_Z_pow2 by lia. rewrite <- Qpower_plus by apply two_not_0.
    replace (52 + (binade x - 52))%Z with (binade x) by lia. reflexivity. }
  assert (E2 : 2 ^ (binade x + 1) == inject_Z (2 ^ 53) * 2 ^ (binade x - 52)).
  { rewrite inject_Z_pow2 by lia. rewrite <- Qpower_plus by apply two_not_0.
    replace (53 + (binade x - 52))%Z with (binade x + 1)%Z by lia.
    reflexivity. }
  split.
  - apply Qle_shift_div_l; [exact Hp|]. rewrite <- E1. exact H1.
  - apply Qle_shift_div_r; [exact Hp|]. rewrite <- E2.
    apply Qlt_le_weak. exact H2.
Qed.

Lemma round_pos_range (x : Q) :
  0 < x -> 2 ^ binade x <= round_pos x /\ round_pos x <= 2 ^ (binade x + 1).
Proof.
  intros Hx. destruct (scaled_range x Hx) as [H1 H2].
  pose proof (pow2_pos (binade x - 52)) as Hp.
  apply round_half_even_le in H1, H2. rewrite round_half_even_Z in H1, H2.
  unfold round_pos. cbv zeta.
  set (m := round_half_even _) in *.
  assert (E1 : 2 ^ binade x == inject_Z (2 ^ 52) * 2 ^ (binade x - 52)).
  { rewrite inject_Z_pow2 by lia. rewrite <- Qpower_plus by apply two_not_0.
    replace (52 + (binade x - 52))%Z with (binade x) by lia. reflexivity. }
  assert (E2 : 2 ^ (binade x + 1) == inject_Z (2 ^ 53) * 2 ^ (binade x - 52)).
  { rewrite inject_Z_pow2 by lia. rewrite <- Qpower_plus by apply two_not_0.
    replace (53 + (binade x - 52))%Z with (binade x + 1)%Z by lia.
    reflexivity. }
  rewrite E1, E2. split; apply Qmult_le_compat_r;
    try (apply Qlt_le_weak; exact Hp); rewrite <- Zle_Qle; assumption.
Qed.

Lemma round_pos_le (x y : Q) :
  0 < x -> x <= y -> round_pos x <= round_pos y.
Proof.
  intros Hx Hxy.
  assert (Hy : 0 < y) by (eapply Qlt_le_trans; eassumption).
  pose proof (binade_le x y Hx Hxy) as Hb.
  destruct (Z.eq_dec (binade x) (binade y)) as [E|NE].
  - unfold round_pos. cbv zeta. rewrite E.
    pose proof (pow2_pos (binade y - 52)) as Hp.
    apply Qmult_le_compat_r; [|apply Qlt_le_weak; exact Hp].
    rewrite <- Zle_Qle. apply round_half_even_le.
    apply Qmult_le_compat_r; [exact Hxy|].
    apply Qlt_le_weak. apply Qinv_lt_0_compat. exact Hp.
  - destruct (round_pos_range x Hx) as [_ Hux].
    destruct (round_pos_range y Hy) as [Hly _].
    eapply Qle_trans; [exact Hux|]. eapply Qle_trans; [|exact Hly].
    apply pow2_le. lia.
Qed.

Lemma round_pos_pos (x : Q) : 0 < x -> 0 < round_pos x.
Proof.
  intros Hx. destruct (round_pos_range x Hx) as [H _].
  eapply Qlt_le_trans; [apply pow2_pos|exact H].
Qed.

Lemma Qnum_neg_iff (x : Q) : x < 0 <-> (Qnum x < 0)%Z.
Proof. unfold Qlt. simpl. rewrite Z.mul_1_r. reflexivity. Qed.

(** Rounding to the nearest float keeps the order. *)
Lemma round64_le (x y : Q) : x <= y -> round64 x <= round64 y.
Proof.
  intros Hxy. unfold round64.
  destruct (Qnum x) as [|px|px] eqn:Ex; destruct (Qnum y) as [|py|py] eqn:Ey.
  - apply Qle_refl.
  - apply Qlt_le_weak. apply round_pos_pos. apply Qnum_pos_iff. rewrite Ey.
    reflexivity.
  - exfalso. assert (y < 0) by (apply Qnum_neg_iff; rewrite Ey; reflexivity).
    assert (x == 0) by (unfold Qeq; simpl; rewrite Ex; reflexivity). lra.
  - exfalso. assert (0 < x) by (apply Qnum_pos_iff; rewrite Ex; reflexivity).
    assert (y == 0) by (unfold Qeq; simpl; rewrite Ey; reflexivity). lra.
  - apply round_pos_le; [|exact Hxy]. apply Qnum_pos_iff. rewrite Ex.
    reflexivity.
  - exfalso. assert (0 < x) by (apply Qnum_pos_iff; rewrite Ex; reflexivity).
    assert (y < 0) by (apply Qnum_neg_iff; rewrite Ey; reflexivity). lra.
  - assert (Hx : x < 0) by (apply Qnum_neg_iff; rewrite Ex; reflexivity).
    assert (0 < round_pos (- x)) by (apply round_pos_pos; lra). lra.
  - assert (Hx : x < 0) by (apply Qnum_neg_iff; rewrite Ex; reflexivity).
    assert (0 < round_pos (- x)) by (apply round_pos_pos; lra).
    assert (0 < y) by (apply Qnum_pos_iff; rewrite Ey; reflexivity).
    assert (0 < round_pos y) by (apply round_pos_pos; assumption). lra.
  - assert (Hy : y < 0) by (apply Qnum_neg_iff; rewrite Ey; reflexivity).
    assert (H : round_pos (- y) <= round_pos (- x)).
    { apply round_pos_le; lra. }
    lra.
Qed.

(** The floats that Python prints as 0.1, 1000.1 and 1300.1, the sums
    1000.1 + 300 and 300 + 0.0001, and two ties between neighbours. *)
Lemma round64_examples :
  round64 (1 # 10) == 3602879701896397 # 36028797018963968
  /\ round64 (10001 # 10) == 8796972631510221 # 8796093022208
  /\ round64 (13001 # 10) == 2858950134543155 # 2199023255552
  /\ float_add (round64 (10001 # 10)) REFRESH_INTERVAL
     == 2858950134543155 # 2199023255552
  /\ float_add (float_of_int 300) (round64 (1 # 10000))
     == 1319414393135851 # 4398046511104
  /\ round64 (9007199254740993 # 1) == 9007199254740992 # 1
  /\ round64 (9007199254740995 # 1) == 9007199254740996 # 1.
Proof. repeat split; vm_compute; reflexivity. Qed.

(** [_last_refresh + 300 <= clock] in exact arithmetic gives the same in
    floats. *)
Lemma float_add_le_time (last clock : Q) :
  last + REFRESH_INTERVAL <= clock ->
  float_add last REFRESH_INTERVAL <= round64 clock.
Proof. intros H. unfold float_add. apply round64_le. exact H. Qed.

End Floats.

Section RelayListFacts.

Variable env : Collaborators.

Lemma _refresh_okay self h :
  is_controller_okay env h = true ->
  _refresh env self h
  = (Return tt,
     {| _relays := get_network_statuses env (EvIsControllerOkay :: h);
        _last_refresh :=
          round64 (time_time env
                     (EvGetNetworkStatuses :: EvIsControllerOkay :: h)) |},
     EvTime :: EvGetNetworkStatuses :: EvIsControllerOkay :: h).
Proof.
  intros Hok. unfold _refresh, _init_relays. unfold_monad.
  rewrite Hok. reflexivity.
Qed.

Lemma relays_fresh self h :
  Qle_bool (float_add (_last_refresh self) REFRESH_INTERVAL)
           (round64 (time_time env h)) = false ->
  relays env self h = (Return (_relays self), self, EvTime :: h).
Proof.
  intros Hage. unfold relays. unfold_monad. rewrite Hage. reflexivity.
Qed.

Lemma relays_stale self h :
  Qle_bool (float_add (_last_refresh self) REFRESH_INTERVAL)
           (round64 (time_time env h)) = true ->
  is_controller_okay env (EvTime :: h) = true ->
  relays env self h
  = (Return (get_network_statuses env (EvIsControllerOkay :: EvTime :: h)),
     {| _relays := get_network_statuses env (EvIsControllerOkay :: EvTime :: h);
        _last_refresh :=
          round64 (time_time env
                     (EvGetNetworkStatuses :: EvIsControllerOkay
                      :: EvTime :: h)) |},
     EvTime :: EvGetNetworkStatuses :: EvIsControllerOkay :: EvTime :: h).
Proof.
  intros Hage Hok. unfold relays, py_time. unfold bind at 1. unfold call at 1.
  unfold bind at 1. unfold get_self at 1. unfold bind at 1.
  rewrite Hage. rewrite (_refresh_okay _ _ Hok). reflexivity.
Qed.

Lemma relays_returns_cache s h rs s' h' :
  relays env s h = (Return rs, s', h') -> rs = _relays s'.
Proof.
  unfold relays, _refresh, _init_relays. unfold_monad.
  destruct (Qle_bool _ _); simpl.
  - destruct (is_controller_okay env _); simpl; intros [= <- <- _];
      reflexivity.
  - intros [= <- <- _]. reflexivity.
Qed.

(** The code's test [time.time() >= _last_refresh + 300] fails. *)
Lemma not_stale_yet (last clock : Q) :
  (round64 clock < float_add last REFRESH_INTERVAL)%Q ->
  Qle_bool (float_add last REFRESH_INTERVAL) (round64 clock) = false.
Proof.
  intros Hlt. destruct (Qle_bool _ _) eqn:E; [|reflexivity].
  apply Qle_bool_iff in E. exfalso.
  exact (Qlt_not_le _ _ Hlt E).
Qed.

(** Two calls in a row: when the first returned and the second reads the
    clock before [_last_refresh + 300], the second returns the same
    snapshot and all it does is read the clock. *)
Lemma relays_second_call self h rs s1 h1 :
  relays env self h = (Return rs, s1, h1) ->
  (round64 (time_time env h1) < float_add (_last_refresh s1) REFRESH_INTERVAL)%Q ->
  relays env s1 h1 = (Return rs, s1, EvTime :: h1).
Proof.
  intros Hfirst Hage. apply relays_returns_cache in Hfirst. subst rs.
  apply relays_fresh. apply not_stale_yet. exact Hage.
Qed.

(** C10, as the code has it.  Let [now] be the float that [time.time()]
    hands to a call of [relays], and [deadline] the float sum
    [_last_refresh + 300].  When [now < deadline] the call returns the
    cached snapshot, leaves the object as it is and does not call
    [get_network_statuses].  When [deadline <= now] (and the controller is
    okay, as [_init_relays] asserts) it calls [get_network_statuses]
    exactly once, stores and returns its answer, and stamps
    [_last_refresh] with the clock read after the fetch.  An age of 300
    seconds or more always gives [deadline <= now].  And of a pair of
    calls, the second is judged against the stamp the first left: read
    before that stamp plus 300, it returns what the first returned and only
    reads the clock. *)
Theorem relays_cached_or_refetched_once (self : RelayList) (h : history) :
  let now := round64 (time_time env h) in
  let deadline := float_add (_last_refresh self) REFRESH_INTERVAL in
  let o := relays env self h in
  let h3 := EvGetNetworkStatuses :: EvIsControllerOkay :: EvTime :: h in
  let fetched := get_network_statuses env (EvIsControllerOkay :: EvTime :: h) in
  ((now < deadline)%Q ->
     o = (Return (_relays self), self, EvTime :: h)
     /\ count_events is_get_network_statuses (hist_of o)
        = count_events is_get_network_statuses h)
  /\
  ((deadline <= now)%Q ->
   is_controller_okay env (EvTime :: h) = true ->
     o = (Return fetched,
          {| _relays := fetched;
             _last_refresh := round64 (time_time env h3) |},
          EvTime :: h3)
     /\ count_events is_get_network_statuses (hist_of o)
        = S (count_events is_get_network_statuses h))
  /\
  ((REFRESH_INTERVAL <= time_time env h - _last_refresh self)%Q ->
   (deadline <= now)%Q)
  /\
  (forall rs s1 h1,
     o = (Return rs, s1, h1) ->
     (round64 (time_time env h1)
      < float_add (_last_refresh s1) REFRESH_INTERVAL)%Q ->
     relays env s1 h1 = (Return rs, s1, EvTime :: h1)
     /\ count_events is_get_network_statuses (EvTime :: h1)
        = count_events is_get_network_statuses h1).
Proof.
  intros now deadline o h3 fetched. subst now deadline o h3 fetched.
  split; [|split; [|split]].
  - intros Hage. rewrite (relays_fresh _ _ (not_stale_yet _ _ Hage)).
    split; [reflexivity|].
    unfold hist_of. simpl. rewrite count_events_cons. reflexivity.
  - intros Hage Hok. apply Qle_bool_iff in Hage.
    rewrite (relays_stale _ _ Hage Hok). split; [reflexivity|].
    unfold hist_of. simpl. rewrite !count_events_cons. reflexivity.
  - intros Hage. apply float_add_le_time. lra.
  - intros rs s1 h1 Hfirst Hage. split.
    + exact (relays_second_call _ _ _ _ _ Hfirst Hage).
    + rewrite count_events_cons. reflexivity.
Qed.

End RelayListFacts.

Lemma relays_cached_or_refetched_once_witness :
  relays (Scenario.env_at (1299 # 1)) (Stub.rl Scenario.net_two) []
  = (Return Scenario.net_two, Stub.rl Scenario.net_two, [EvTime])
  /\ relays (Scenario.env_at (1300 # 1)) (Stub.rl Scenario.net_two) []
     = (Return Scenario.net_two,
        {| _relays := Scenario.net_two; _last_refresh := round64 (1300 # 1) |},
        [EvTime; EvGetNetworkStatuses; EvIsControllerOkay; EvTime])
  /\ relays (Scenario.env_at (1300 # 1))
       {| _relays := Scenario.net_two; _last_refresh := round64 (1300 # 1) |}
       [EvTime; EvGetNetworkStatuses; EvIsControllerOkay; EvTime]
     = (Return Scenario.net_two,
        {| _relays := Scenario.net_two; _last_refresh := round64 (1300 # 1) |},
        [EvTime; EvTime; EvGetNetworkStatuses; EvIsControllerOkay; EvTime]).
Proof.
  split; [|split].
  - destruct (relays_cached_or_refetched_once (Scenario.env_at (1299 # 1))
                (Stub.rl Scenario.net_two) []) as [Hfresh _].
    apply Hfresh. vm_compute. reflexivity.
  - destruct (relays_cached_or_refetched_once (Scenario.env_at (1300 # 1))
                (Stub.rl Scenario.net_two) []) as (_ & Hstale & Hage & _).
    apply Hstale.
    + apply Hage. vm_compute. discriminate.
    + reflexivity.
  - destruct (relays_cached_or_refetched_once (Scenario.env_at (1300 # 1))
                (Stub.rl Scenario.net_two) []) as (_ & _ & _ & Hpair).
    apply (Hpair Scenario.net_two).
    + reflexivity.
    + vm_compute. reflexivity.
Defined.

(** C10, as the claim has it, fails.  The first call finds an old
    snapshot, fetches, and stamps it with the float 1000.1.  The second
    call reads the float 1300.1: the age of the snapshot is below 300
    seconds, by about 1e-13, and yet the float sum 1000.1 + 300 is 1300.1,
    so the second call fetches the network statuses again. *)
Lemma relays_refetches_below_300 :
  let first := relays Situation.env_two_calls Situation.rl_old [] in
  let second :=
    relays Situation.env_two_calls (self_of first) (hist_of first) in
  count_events is_get_network_statuses (hist_of first) = 1%nat
  /\ (_last_refresh (self_of first) == Situation.float_1000_1)%Q
  /\ (time_time Situation.env_two_calls (hist_of first)
      == Situation.float_1300_1)%Q
  /\ (time_time Situation.env_two_calls (hist_of first)
      - _last_refresh (self_of first) < REFRESH_INTERVAL)%Q
  /\ count_events is_get_network_statuses (hist_of second) = 2%nat.
Proof.
  cbv zeta. repeat split; vm_compute; reflexivity.
Qed.

(** A path is of valid length when it has 1 to 8 entries. *)
Lemma valid_circuit_length_iff {A : Type} (l : list A) :
  valid_circuit_length (inr l) = true <-> (1 <= length l <= 8)%nat.
Proof.
  unfold valid_circuit_length. rewrite andb_true_iff, Z.ltb_lt, Z.leb_le.
  lia.
Qed.

Section CircuitBuilderFacts.

Variable env : Collaborators.

Lemma build_attempts_keeps_self n fps t self h :
  self_of (build_attempts env n fps t self h) = self.
Proof.
  revert h. induction n as [|n IH]; intros h; simpl; [reflexivity|].
  unfold_monad.
  destruct (new_circuit env h fps t) as [e|c]; simpl.
  - destruct (transient e); simpl; [|reflexivity]. apply IH.
  - reflexivity.
Qed.

Lemma build_attempts_count n fps t self h :
  (count_events is_new_circuit (hist_of (build_attempts env n fps t self h))
   <= count_events is_new_circuit h + n)%nat.
Proof.
  revert h. induction n as [|n IH]; intros h; simpl.
  - unfold_monad. simpl. lia.
  - unfold_monad.
    destruct (new_circuit env h fps t) as [e|c]; simpl.
    + destruct (transient e); simpl.
      * etransitivity; [apply IH|]. rewrite !count_events_cons. simpl. lia.
      * rewrite !count_events_cons. simpl. lia.
    + rewrite !count_events_cons. simpl. lia.
Qed.

(** The exceptions that [except (InvalidRequest, CircuitExtensionFailed,
    ProtocolError, Timeout)] catches. *)
Lemma transient_iff (e : exn) :
  transient e = true
  <-> e = InvalidRequest \/ e = InvalidArguments
      \/ e = CircuitExtensionFailed \/ e = ProtocolError \/ e = Timeout.
Proof.
  split.
  - destruct e; simpl; intros H; try discriminate; tauto.
  - intros [->|[->|[->|[->| ->]]]]; reflexivity.
Qed.

(** A round of the loop that ends in a retried fault: the warning is
    logged and the remaining rounds follow. *)
Lemma build_attempts_retry n fps t self h e :
  new_circuit env h fps t = inl e ->
  transient e = true ->
  build_attempts env (S n) fps t self h
  = build_attempts env n fps t self
      (EvLog WARNING (exn_str e) [] :: EvNewCircuit fps true t :: h).
Proof.
  intros He Ht. cbn [build_attempts]. unfold_monad. rewrite He. simpl.
  rewrite Ht. reflexivity.
Qed.

Lemma _build_circuit_impl_okay fps self h :
  valid_circuit_length (inr fps) = true ->
  is_controller_okay env h = true ->
  _build_circuit_impl env fps self h
  = build_attempts env 3 fps (circuit_timeout self) self
      (EvLog DEBUG "Building %s" [fp_path_str fps] :: EvIsControllerOkay :: h).
Proof.
  intros Hvalid Hok. unfold _build_circuit_impl. rewrite Hvalid.
  change (negb true) with false. cbv iota.
  unfold bind at 1. unfold call at 1. cbv beta. rewrite Hok.
  reflexivity.
Qed.

Lemma _build_circuit_impl_not_okay fps self h :
  valid_circuit_length (inr fps) = true ->
  is_controller_okay env h = false ->
  _build_circuit_impl env fps self h
  = (Raise AssertionError, self, EvIsControllerOkay :: h).
Proof.
  intros Hvalid Hok. unfold _build_circuit_impl. rewrite Hvalid.
  change (negb true) with false. cbv iota.
  unfold bind at 1. unfold call at 1. cbv beta. rewrite Hok.
  reflexivity.
Qed.

Lemma _build_circuit_impl_too_long fps self h :
  valid_circuit_length (inr fps) = false ->
  _build_circuit_impl env fps self h = (Raise PathLengthException, self, h).
Proof.
  intros Hvalid. unfold _build_circuit_impl. rewrite Hvalid. reflexivity.
Qed.

(** [_build_circuit_impl] never writes to the builder. *)
Lemma _build_circuit_impl_keeps_self fps self h :
  self_of (_build_circuit_impl env fps self h) = self.
Proof.
  destruct (valid_circuit_length (inr fps)) eqn:Hvalid.
  - destruct (is_controller_okay env h) eqn:Hok.
    + rewrite _build_circuit_impl_okay by assumption.
      apply build_attempts_keeps_self.
    + rewrite _build_circuit_impl_not_okay by assumption. reflexivity.
  - rewrite _build_circuit_impl_too_long by assumption. reflexivity.
Qed.

Lemma build_circuit_impl_count fps self h :
  valid_circuit_length (inr fps) = true ->
  (count_events is_new_circuit (hist_of (_build_circuit_impl env fps self h))
   <= count_events is_new_circuit h + 3)%nat.
Proof.
  intros Hvalid. destruct (is_controller_okay env h) eqn:Hok.
  - rewrite _build_circuit_impl_okay by assumption.
    etransitivity; [apply build_attempts_count|].
    rewrite !count_events_cons. simpl. lia.
  - rewrite _build_circuit_impl_not_okay by assumption.
    unfold hist_of. simpl. rewrite count_events_cons. simpl. lia.
Qed.

(** C8. For a path of valid length, [_build_circuit_impl] makes at most 3
    calls of [c.new_circuit] and leaves the set of built circuits as it
    was, whatever the controller answers.  And when the controller is okay
    and each of the three attempts is answered with one of the faults that
    are retried (InvalidRequest, or InvalidArguments, its subclass;
    CircuitExtensionFailed; ProtocolError; Timeout), it returns None
    without raising, the builder is what it was, and the calls made are
    the three attempts, each followed by its warning.  Nothing is asked of
    what the controller would answer to a fourth attempt. *)
Theorem build_circuit_impl_three_attempts (fps : list string)
    (self : CircuitBuilder) (h : history) :
  valid_circuit_length (inr fps) = true ->
  let o := _build_circuit_impl env fps self h in
  let t := circuit_timeout self in
  let h1 := EvLog DEBUG "Building %s" [fp_path_str fps]
            :: EvIsControllerOkay :: h in
  let failed (e : exn) (hk : history) :=
    EvLog WARNING (exn_str e) [] :: EvNewCircuit fps true t :: hk in
  let retried (e : exn) :=
    e = InvalidRequest \/ e = InvalidArguments
    \/ e = CircuitExtensionFailed \/ e = ProtocolError \/ e = Timeout in
  (count_events is_new_circuit (hist_of o)
   <= count_events is_new_circuit h + 3)%nat
  /\ built_circuits (self_of o) = built_circuits self
  /\ (forall e1 e2 e3,
        is_controller_okay env h = true ->
        new_circuit env h1 fps t = inl e1 -> retried e1 ->
        new_circuit env (failed e1 h1) fps t = inl e2 -> retried e2 ->
        new_circuit env (failed e2 (failed e1 h1)) fps t = inl e3 ->
        retried e3 ->
        o = (Return None, self, failed e3 (failed e2 (failed e1 h1)))
        /\ count_events is_new_circuit (hist_of o)
           = (count_events is_new_circuit h + 3)%nat).
Proof.
  intros Hvalid o t h1 failed retried. subst o.
  split; [apply build_circuit_impl_count; exact Hvalid|].
  split; [rewrite _build_circuit_impl_keeps_self; reflexivity|].
  intros e1 e2 e3 Hok H1 R1 H2 R2 H3 R3.
  apply transient_iff in R1, R2, R3.
  rewrite _build_circuit_impl_okay by assumption. fold h1 t.
  rewrite (build_attempts_retry _ _ _ _ _ _ H1 R1).
  rewrite (build_attempts_retry _ _ _ _ _ _ H2 R2).
  rewrite (build_attempts_retry _ _ _ _ _ _ H3 R3).
  split; [reflexivity|].
  unfold hist_of. simpl. unfold failed, h1.
  rewrite !count_events_cons. simpl. lia.
Qed.


(** When the controller is not okay, or the session reports no such
    circuit, [close_circuit] leaves the builder as it is. *)
Lemma close_circuit_unknown_keeps_self circ_id self h :
  is_controller_okay env h = false
  \/ get_circuit env (EvIsControllerOkay :: h) circ_id = None ->
  self_of (close_circuit env circ_id self h) = self.
Proof.
  intros Hgone. unfold close_circuit, ctl_close. unfold_monad.
  destruct (is_controller_okay env h); simpl; [|reflexivity].
  destruct Hgone as [Hbad|Hnone]; [discriminate|].
  rewrite Hnone. reflexivity.
Qed.


End CircuitBuilderFacts.

Lemma build_circuit_impl_three_attempts_witness :
  _build_circuit_impl Situation.env_three_faults Situation.two_hops
    (Stub.cb Scenario.net_two ∅) []
  = (Return None, Stub.cb Scenario.net_two ∅,
     [EvLog WARNING "ProtocolError" [];
      EvNewCircuit Situation.two_hops true 10;
      EvLog WARNING "CircuitExtensionFailed" [];
      EvNewCircuit Situation.two_hops true 10;
      EvLog WARNING "InvalidArguments" [];
      EvNewCircuit Situation.two_hops true 10;
      EvLog DEBUG "Building %s" [fp_path_str Situation.two_hops];
      EvIsControllerOkay])
  /\ new_circuit Situation.env_three_faults
       (hist_of (_build_circuit_impl Situation.env_three_faults
                   Situation.two_hops (Stub.cb Scenario.net_two ∅) []))
       Situation.two_hops 10
     = inr "9".
Proof.
  split; [|reflexivity].
  pose proof (build_circuit_impl_three_attempts Situation.env_three_faults
                Situation.two_hops (Stub.cb Scenario.net_two ∅) [] eq_refl)
    as Hthree.
  cbv zeta in Hthree. destruct Hthree as (_ & _ & Hfaults).
  apply (Hfaults InvalidArguments CircuitExtensionFailed ProtocolError);
    try reflexivity; tauto.
Defined.

(** The discard is under the test of the session: on a builder whose set
    was filled by hand with a circuit the session does not report, the
    call returns and the id stays. *)
Lemma close_circuit_keeps_unknown_circuit :
  res_of (close_circuit Scenario.env_gone "5"
            (Stub.cb Scenario.net_two {[ "5" ]}) []) = Return tt
  /\ "5" ∈ built_circuits
             (self_of (close_circuit Scenario.env_gone "5"
                         (Stub.cb Scenario.net_two {[ "5" ]}) [])).
Proof.
  split.
  - reflexivity.
  - change ("5" ∈ ({[ "5" ]} : gset string)).
    apply elem_of_singleton. reflexivity.
Qed.

(** C1. The session answers the construction call with circuit id 7;
    [_build_circuit_impl] returns 7 and the set of built circuits, empty
    before, does not hold 7 afterwards. *)
Theorem build_circuit_impl_does_not_record :
  res_of (_build_circuit_impl Scenario.env_builds
            ["AAAAAAAAAAAAAAAAAAAA"; "EXITFPR"]
            (Stub.cb Scenario.net_two ∅) []) = Return (Some "7")
  /\ "7" ∉ built_circuits
             (self_of (_build_circuit_impl Scenario.env_builds
                         ["AAAAAAAAAAAAAAAAAAAA"; "EXITFPR"]
                         (Stub.cb Scenario.net_two ∅) [])).
Proof.
  split.
  - reflexivity.
  - rewrite _build_circuit_impl_keeps_self. simpl. apply not_elem_of_empty.
Qed.

Section Footprints.

Context {S T : Type} (f : S -> T) (p : event -> bool).

Lemma bounded_ret {A} (a : A) : bounded f p 0 (ret a).
Proof. intros s h. unfold_monad. simpl. split; [reflexivity|lia]. Qed.

Lemma bounded_raise {A} e : bounded f p 0 (@raise S A e).
Proof. intros s h. unfold_monad. simpl. split; [reflexivity|lia]. Qed.

Lemma bounded_out_of_fuel {A} : bounded f p 0 (@out_of_fuel S A).
Proof. intros s h. unfold_monad. simpl. split; [reflexivity|lia]. Qed.

Lemma bounded_get_self : bounded f p 0 (@get_self S).
Proof. intros s h. unfold_monad. simpl. split; [reflexivity|lia]. Qed.

Lemma bounded_lift_result {A} (r : result A) : bounded f p 0 (lift_result r).
Proof. intros s h. unfold_monad. simpl. split; [reflexivity|lia]. Qed.

Lemma bounded_lift_exn {A} (r : exn + A) : bounded f p 0 (lift_exn r).
Proof. destruct r; [apply bounded_raise|apply bounded_ret]. Qed.

Lemma bounded_py_assert b : bounded f p 0 (py_assert b).
Proof. destruct b; [apply bounded_ret|apply bounded_raise]. Qed.

Lemma bounded_call {A} (answer : history -> A) ev :
  p ev = false -> bounded f p 0 (call answer ev).
Proof.
  intros Hev s h. unfold_monad. simpl. rewrite count_events_cons, Hev.
  split; [reflexivity|lia].
Qed.

Lemma bounded_call_exn {A} (answer : history -> exn + A) ev :
  p ev = false -> bounded f p 0 (call_exn answer ev).
Proof.
  intros Hev s h. unfold_monad.
  destruct (answer h); simpl; rewrite count_events_cons, Hev;
    (split; [reflexivity|lia]).
Qed.

Lemma bounded_log lvl fmt args :
  p (EvLog lvl fmt args) = false -> bounded f p 0 (log lvl fmt args).
Proof.
  intros Hev s h. unfold_monad. simpl. rewrite count_events_cons, Hev.
  split; [reflexivity|lia].
Qed.

Lemma bounded_put_self (s' : S) :
  (forall s, f s' = f s) -> bounded f p 0 (put_self s').
Proof.
  intros Hf s h. unfold_monad. simpl. split; [apply Hf|lia].
Qed.

Lemma bounded_bind {A B} n1 n2 (m : M S A) (k : A -> M S B) :
  bounded f p n1 m -> (forall a, bounded f p n2 (k a)) ->
  bounded f p (n1 + n2) (bind m k).
Proof.
  intros Hm Hk s h. specialize (Hm s h). unfold bind.
  destruct (m s h) as [[r s1] h1]. unfold self_of, hist_of in Hm.
  simpl in Hm. destruct Hm as [Hf Hc].
  destruct r as [a| |].
  - destruct (Hk a s1 h1) as [Hf' Hc']. split; [congruence|lia].
  - unfold self_of, hist_of. simpl. split; [exact Hf|lia].
  - unfold self_of, hist_of. simpl. split; [exact Hf|lia].
Qed.

Lemma bounded_weaken {A} n n' (m : M S A) :
  (n <= n')%nat -> bounded f p n m -> bounded f p n' m.
Proof.
  intros Hle Hm s h. destruct (Hm s h) as [Hf Hc]. split; [exact Hf|lia].
Qed.

Lemma bounded_bind0 {A B} n (m : M S A) (k : A -> M S B) :
  bounded f p 0 m -> (forall a, bounded f p n (k a)) ->
  bounded f p n (bind m k).
Proof. intros Hm Hk. apply (bounded_bind 0 n); assumption. Qed.

Lemma bounded_try_except {A} (m : M S A) handled handler :
  bounded f p 0 m -> (forall e, bounded f p 0 (handler e)) ->
  bounded f p 0 (try_except m handled handler).
Proof.
  intros Hm Hh s h. specialize (Hm s h). unfold try_except.
  destruct (m s h) as [[r s1] h1]. unfold self_of, hist_of in Hm.
  simpl in Hm. destruct Hm as [Hf Hc].
  destruct r as [a|e|]; try (split; [exact Hf|exact Hc]).
  destruct (handled e); [|split; [exact Hf|exact Hc]].
  destruct (Hh e s1 h1) as [Hf' Hc']. split; [congruence|lia].
Qed.

Lemma bounded_for_each {A B} (l : list A) (body : A -> B -> M S B) acc :
  (forall x b, bounded f p 0 (body x b)) ->
  bounded f p 0 (for_each l body acc).
Proof.
  intros Hbody. revert acc. induction l as [|x l IH]; intros acc; simpl.
  - apply bounded_ret.
  - apply bounded_bind0; [apply Hbody|]. intros b. apply IH.
Qed.

Lemma bounded_rng_choice env {A} (l : list A) :
  (forall n, p (EvChoice n) = false) -> bounded f p 0 (rng_choice env l).
Proof.
  intros Hev. unfold rng_choice. destruct l; [apply bounded_raise|].
  apply bounded_call. apply Hev.
Qed.

End Footprints.

Lemma bounded_zoom {S T U A : Type} (f : S -> U) (p : event -> bool) n
    (get : S -> T) (set : T -> S -> S) (m : M T A) :
  (forall t s, f (set t s) = f s) ->
  bounded (fun _ : T => tt) p n m ->
  bounded f p n (zoom get set m).
Proof.
  intros Hset Hm s h. specialize (Hm (get s) h). unfold zoom.
  destruct (m (get s) h) as [[r t1] h1]. unfold self_of, hist_of in *.
  simpl in *. split; [apply Hset|apply Hm].
Qed.

Ltac bounded_step :=
  first
    [ apply bounded_ret | apply bounded_raise | apply bounded_get_self
    | apply bounded_py_assert | apply bounded_lift_result
    | apply bounded_lift_exn | apply bounded_out_of_fuel
    | apply bounded_call; reflexivity
    | apply bounded_call_exn; reflexivity
    | apply bounded_log; reflexivity
    | apply bounded_put_self; intros; reflexivity
    | apply bounded_rng_choice; intros; reflexivity
    | apply bounded_try_except
    | apply bounded_bind0
    | match goal with
      | |- forall _, _ => intro
      | |- bounded _ _ _ (if ?b then _ else _) => destruct b
      | |- bounded _ _ _ (match ?x with _ => _ end) => destruct x
      end ].

Lemma relays_no_new_circuit env :
  bounded (fun _ : RelayList => tt) is_new_circuit 0 (relays env).
Proof. unfold relays, _refresh, _init_relays. repeat bounded_step. Qed.

Section GapsCircuitBuilderFacts.

Variable env : Collaborators.

Lemma existsb_eqb_In (fp : string) (l : list string) :
  existsb (String.eqb fp) l = true <-> In fp l.
Proof.
  rewrite existsb_exists. split.
  - intros [x [Hin Heq]]. apply String.eqb_eq in Heq. subst. exact Hin.
  - intros Hin. exists fp. split; [exact Hin|apply String.eqb_refl].
Qed.

Lemma filter_split_length {A : Type} (f : A -> bool) (l : list A) :
  length l
  = (length (List.filter f l) + length (List.filter (fun x => negb (f x)) l))%nat.
Proof.
  induction l as [|x l IH]; simpl; [reflexivity|].
  destruct (f x); simpl; lia.
Qed.

(** With distinct fingerprints in the snapshot, the test of
    [_random_sample_relays] fires whenever fewer than [number] candidates
    are off the blacklist. *)
Lemma short_of_candidates (all_fps black_fps : list string) (number : nat) :
  NoDup all_fps ->
  (length (unblacklisted all_fps black_fps) < number)%nat ->
  (length all_fps <? length black_fps + number)%nat = true.
Proof.
  intros Hnd%NoDup_ListNoDup Hshort. apply Nat.ltb_lt.
  rewrite (filter_split_length (fun fp => existsb (String.eqb fp) black_fps)
             all_fps).
  fold (unblacklisted all_fps black_fps).
  assert (length (List.filter (fun fp => existsb (String.eqb fp) black_fps)
                    all_fps) <= length black_fps)%nat; [|lia].
  apply List.NoDup_incl_length.
  - apply List.NoDup_filter. exact Hnd.
  - intros fp Hin. apply List.filter_In in Hin as [_ Hin].
    apply existsb_eqb_In. exact Hin.
Qed.

Lemma py_join_None sep (items : list (option string)) :
  In None items -> py_join sep items = Raise TypeError.
Proof.
  intros Hin. unfold py_join.
  destruct (forallb _ items) eqn:E; [|reflexivity].
  rewrite forallb_forall in E. specialize (E None Hin). discriminate.
Qed.

Lemma missing_slot_In (npath : list (option Relay)) :
  (0 < length (List.filter is_none npath))%nat ->
  In None (map (option_map nickname) npath).
Proof.
  induction npath as [|[r|] npath IH]; simpl; intros Hlen.
  - lia.
  - right. apply IH. exact Hlen.
  - left. reflexivity.
Qed.

(** C2, as the code has it.  The path has a valid length and its pinned
    slots resolve; the snapshot the builder reads has distinct
    fingerprints and fewer candidates off the blacklist than there are
    empty slots.  Then [build_circuit] does not return None: joining the
    nicknames of the partly resolved path, whose empty slots are None,
    raises TypeError, before any warning is logged. *)
Theorem build_circuit_short_of_relays_raises (fuel : nat)
    (slots : list (option string)) (self s1 s2 : CircuitBuilder)
    (h h1 h2 : history) (npath : list (option Relay)) (rs : list Relay) :
  valid_circuit_length (inr slots) = true ->
  _normalize_path env slots self h = (Return (Some npath), s1, h1) ->
  cb_relays env s1 h1 = (Return rs, s2, h2) ->
  NoDup (map fingerprint rs) ->
  (length (unblacklisted (map fingerprint rs)
                         (map fingerprint (omap id npath)))
   < length (List.filter is_none npath))%nat ->
  build_circuit env fuel slots self h = (Raise TypeError, s2, h2).
Proof.
  intros Hvalid Hnorm Hrel Hnd Hshort.
  unfold build_circuit. rewrite Hvalid. change (negb true) with false.
  cbv iota. unfold bind at 1. rewrite Hnorm.
  unfold _random_sample_relays.
  unfold bind at 1. unfold bind at 1. rewrite Hrel.
  rewrite (short_of_candidates _ _ _ Hnd Hshort).
  unfold ret at 1. cbv beta iota.
  unfold bind at 1. unfold lift_result at 1.
  rewrite py_join_None; [reflexivity|].
  apply missing_slot_In. lia.
Qed.

Lemma cb_relays_footprint :
  bounded built_circuits is_new_circuit 0 (cb_relays env).
Proof.
  unfold cb_relays. apply bounded_zoom; [reflexivity|].
  apply relays_no_new_circuit.
Qed.

Lemma _normalize_path_loop_footprint slots new_path :
  bounded built_circuits is_new_circuit 0
    (_normalize_path_loop env slots new_path).
Proof.
  revert new_path. induction slots as [|fp slots IH]; intros new_path; simpl.
  - apply bounded_ret.
  - destruct (falsey fp); [apply IH|].
    apply bounded_bind0; [apply bounded_call; reflexivity|].
    intros [r|]; [apply IH|]. repeat bounded_step.
Qed.

Lemma sample_loop_footprint fuel number all_fps black_fps chosen_fps :
  bounded built_circuits is_new_circuit 0
    (sample_loop env fuel number all_fps black_fps chosen_fps).
Proof.
  revert black_fps chosen_fps.
  induction fuel as [|fuel IH]; intros black_fps chosen_fps; simpl.
  - destruct (_ <? _)%nat; [apply bounded_out_of_fuel|apply bounded_ret].
  - destruct (_ <? _)%nat; [|apply bounded_ret].
    apply bounded_bind0; [apply bounded_rng_choice; reflexivity|].
    intros choice. destruct (existsb _ _); apply IH.
Qed.

Lemma _random_sample_relays_footprint fuel number blacklist :
  bounded built_circuits is_new_circuit 0
    (_random_sample_relays env fuel number blacklist).
Proof.
  unfold _random_sample_relays.
  apply bounded_bind0; [apply cb_relays_footprint|]. intros rs.
  destruct (_ <? _)%nat; [apply bounded_ret|].
  apply bounded_bind0; [apply sample_loop_footprint|]. intros chosen.
  apply bounded_bind0; [|intros; apply bounded_ret].
  apply bounded_for_each. intros fp acc. repeat bounded_step.
Qed.

Lemma _build_circuit_impl_footprint fps :
  bounded built_circuits is_new_circuit 3 (_build_circuit_impl env fps).
Proof.
  intros s h. split.
  - rewrite _build_circuit_impl_keeps_self. reflexivity.
  - destruct (valid_circuit_length (inr fps)) eqn:Hvalid.
    + apply (build_circuit_impl_count env fps s h Hvalid).
    + rewrite _build_circuit_impl_too_long by assumption.
      unfold hist_of. simpl. lia.
Qed.

(** The whole of [GapsCircuitBuilder.build_circuit], whatever the path,
    the fuel and the collaborators: at most 3 calls of [c.new_circuit],
    and the set of built circuits is what it was. *)
Lemma build_circuit_footprint fuel slots :
  bounded built_circuits is_new_circuit 3 (build_circuit env fuel slots).
Proof.
  unfold build_circuit, _normalize_path.
  destruct (negb _);
    [apply (bounded_weaken _ _ 0); [lia|apply bounded_raise]|].
  apply bounded_bind0; [apply _normalize_path_loop_footprint|].
  intros [npath|]; [|apply (bounded_weaken _ _ 0); [lia|apply bounded_ret]].
  apply bounded_bind0; [apply _random_sample_relays_footprint|].
  intros [insert_relays|].
  - apply bounded_bind0; [apply bounded_py_assert|]. intros _.
    apply bounded_bind0; [apply bounded_lift_result|]. intros fps.
    apply _build_circuit_impl_footprint.
  - apply (bounded_weaken _ _ 0); [lia|]. repeat bounded_step.
Qed.

End GapsCircuitBuilderFacts.

Section GapsPath.

Variable env : Collaborators.

Hypothesis lookup_by_fingerprint :
  forall h fp r, fp_or_nick_to_relay env h fp = Some r -> fingerprint r = fp.

Lemma _normalize_path_loop_spec slots acc s h np s' h' :
  _normalize_path_loop env slots acc s h = (Return (Some np), s', h') ->
  exists np', np = acc ++ np'
    /\ length np' = length slots
    /\ map fingerprint (omap id np') = pinned_names slots.
Proof.
  revert acc h. induction slots as [|fp slots IH]; intros acc h Hrun.
  - simpl in Hrun. unfold ret in Hrun. injection Hrun as <- _ _.
    exists []. rewrite app_nil_r. repeat split.
  - simpl in Hrun. unfold pinned_names. simpl.
    destruct (falsey fp) eqn:Hf.
    + apply IH in Hrun as (np' & -> & Hlen & Hfp).
      exists (None :: np'). rewrite <- app_assoc. simpl.
      repeat split; [lia|exact Hfp].
    + destruct fp as [name|]; [|discriminate].
      unfold bind at 1 in Hrun. unfold call at 1 in Hrun.
      destruct (fp_or_nick_to_relay env h name) as [r|] eqn:Hlook.
      * apply IH in Hrun as (np' & -> & Hlen & Hfp).
        exists (Some r :: np'). rewrite <- app_assoc. simpl.
        repeat split; [lia|].
        rewrite (lookup_by_fingerprint _ _ _ Hlook). f_equal. exact Hfp.
      * unfold bind, log, ret in Hrun. discriminate.
Qed.

Lemma sample_loop_spec fuel number all_fps black chosen s h res s' h' :
  sample_loop env fuel number all_fps black chosen s h = (Return res, s', h') ->
  NoDup black ->
  exists more, res = chosen ++ more /\ NoDup (black ++ more).
Proof.
  revert black chosen s h.
  induction fuel as [|fuel IH]; intros black chosen s h Hrun Hnd; simpl in Hrun.
  - destruct (_ <? _)%nat; [discriminate|].
    unfold ret in Hrun. injection Hrun as <- _ _.
    exists []. rewrite !app_nil_r. split; [reflexivity|exact Hnd].
  - destruct (_ <? _)%nat.
    + unfold bind at 1 in Hrun. unfold rng_choice in Hrun.
      destruct all_fps as [|d all_fps]; [discriminate|].
      unfold call at 1 in Hrun.
      match type of Hrun with
      | context [existsb (String.eqb ?c) black] => set (choice := c) in *
      end.
      destruct (existsb (String.eqb choice) black) eqn:Hin.
      * apply IH in Hrun; assumption.
      * apply IH in Hrun as (more & -> & Hnd').
        -- exists (choice :: more). rewrite <- !app_assoc in *. simpl in *.
           split; [reflexivity|exact Hnd'].
        -- apply NoDup_app. split; [exact Hnd|]. split.
           ++ intros x Hx Hx'. apply list_elem_of_singleton in Hx'. subst x.
              assert (existsb (String.eqb choice) black = true); [|congruence].
              apply existsb_exists. exists choice.
              split; [apply list_elem_of_In; exact Hx|apply String.eqb_refl].
           ++ apply NoDup_singleton.
    + unfold ret in Hrun. injection Hrun as <- _ _.
      exists []. rewrite !app_nil_r. split; [reflexivity|exact Hnd].
Qed.

Lemma lookups_spec (chosen : list string) acc (s : CircuitBuilder) h rels s' h' :
  for_each chosen
    (fun fp acc =>
       bind (call (fun h => fp_or_nick_to_relay env h fp) (EvFpOrNickToRelay fp))
            (fun r => ret (acc ++ [r]))) acc s h
  = (Return rels, s', h') ->
  exists rels', rels = acc ++ rels'
    /\ map fingerprint (omap id rels') `sublist_of` chosen.
Proof.
  revert acc h. induction chosen as [|fp chosen IH]; intros acc h Hrun;
    simpl in Hrun.
  - unfold ret in Hrun. injection Hrun as <- _ _. exists [].
    rewrite app_nil_r. split; [reflexivity|constructor].
  - unfold bind at 1 in Hrun. unfold bind at 1 in Hrun.
    unfold call at 1 in Hrun. unfold ret at 1 in Hrun.
    apply IH in Hrun as (rels' & -> & Hsub).
    exists (fp_or_nick_to_relay env h fp :: rels').
    rewrite <- app_assoc. split; [reflexivity|].
    destruct (fp_or_nick_to_relay env h fp) as [r|] eqn:Hlook; simpl.
    + rewrite (lookup_by_fingerprint _ _ _ Hlook). apply sublist_skip.
      exact Hsub.
    + apply sublist_cons. exact Hsub.
Qed.

Lemma _random_sample_relays_spec fuel number blacklist s h ins s' h' :
  _random_sample_relays env fuel number blacklist s h
  = (Return (Some ins), s', h') ->
  NoDup (map fingerprint blacklist) ->
  exists chosen,
    NoDup (map fingerprint blacklist ++ chosen)
    /\ map fingerprint (omap id ins) `sublist_of` chosen.
Proof.
  intros Hrun Hnd. unfold _random_sample_relays in Hrun.
  unfold bind at 1 in Hrun.
  destruct (cb_relays env s h) as [[[rs| |] s1] h1]; try discriminate.
  destruct (_ <? _)%nat; [discriminate|].
  unfold bind at 1 in Hrun.
  destruct (sample_loop env fuel number _ _ [] s1 h1)
    as [[[chosen| |] s2] h2] eqn:Hloop; try discriminate.
  apply sample_loop_spec in Hloop as (more & -> & Hnd'); [|exact Hnd].
  simpl in *.
  unfold bind at 1 in Hrun.
  match type of Hrun with
  | context [for_each more ?b [] s2 h2] =>
      destruct (for_each more b [] s2 h2) as [[[rels| |] s3] h3] eqn:Hlook;
        try discriminate
  end.
  apply lookups_spec in Hlook as (rels' & -> & Hsub). simpl in *.
  unfold ret in Hrun. injection Hrun as <- _ _.
  exists more. split; assumption.
Qed.

Lemma py_pop_snoc {A : Type} (l l' : list A) (x : A) :
  py_pop l = Some (x, l') -> l = l' ++ [x].
Proof.
  unfold py_pop. destruct (rev l) as [|y r] eqn:Hrev; [discriminate|].
  intros [= -> <-]. rewrite <- (rev_involutive l), Hrev. reflexivity.
Qed.

Lemma fill_path_spec np ins fps :
  fill_path np ins = Return fps ->
  length fps = length np
  /\ exists front back,
       ins = front ++ map Some back
       /\ Permutation fps (map fingerprint (omap id np) ++ map fingerprint back).
Proof.
  revert ins fps. induction np as [|[r|] np IH]; intros ins fps Hfill;
    simpl in Hfill.
  - injection Hfill as <-. split; [reflexivity|].
    exists ins, []. rewrite app_nil_r. split; reflexivity.
  - destruct (fill_path np ins) as [fps'| |] eqn:Hrest; try discriminate.
    injection Hfill as <-.
    destruct (IH _ _ Hrest) as (Hlen & front & back & -> & Hperm).
    simpl. split; [lia|]. exists front, back. split; [reflexivity|].
    constructor. exact Hperm.
  - destruct (py_pop ins) as [[[r|] ins']|] eqn:Hpop; try discriminate.
    destruct (fill_path np ins') as [fps'| |] eqn:Hrest; try discriminate.
    injection Hfill as <-.
    destruct (IH _ _ Hrest) as (Hlen & front & back & -> & Hperm).
    apply py_pop_snoc in Hpop. subst ins.
    simpl. split; [lia|]. exists front, (back ++ [r]).
    split.
    + rewrite map_app, <- app_assoc. reflexivity.
    + rewrite map_app. simpl.
      rewrite app_assoc.
      etransitivity; [apply perm_skip, Hperm|apply Permutation_cons_append].
Qed.

Lemma sublist_of_lookups (ins front : list (option Relay)) (back : list Relay) :
  ins = front ++ map Some back ->
  map fingerprint back `sublist_of` map fingerprint (omap id ins).
Proof.
  intros ->. rewrite omap_app, map_app. apply sublist_inserts_l.
  assert (Hback : omap id (map Some back) = back).
  { clear. induction back as [|r back IH]; simpl; [reflexivity|].
    f_equal. exact IH. }
  rewrite Hback. reflexivity.
Qed.

(** With every slot pinned by fingerprint and no fingerprint pinned twice,
    [build_circuit] either makes no call of [c.new_circuit] at all, or is
    the construction routine run on a path with one entry for each slot
    and no fingerprint twice. *)
Lemma build_circuit_distinct_path fuel slots self h :
  NoDup (pinned_names slots) ->
  let o := build_circuit env fuel slots self h in
  (count_events is_new_circuit (hist_of o)
   <= count_events is_new_circuit h)%nat
  \/ exists fps s' h',
       o = _build_circuit_impl env fps s' h'
       /\ length fps = length slots
       /\ NoDup fps.
Proof.
  intros Hpins o. subst o. unfold build_circuit.
  destruct (negb _); [left; reflexivity|]. cbv beta iota.
  unfold _normalize_path. rewrite bind_run.
  pose proof (_normalize_path_loop_footprint env slots [] self h) as [_ Hc1].
  destruct (_normalize_path_loop env slots [] self h)
    as [[r1 s1] h1] eqn:Hnorm.
  unfold hist_of in Hc1. simpl in Hc1.
  destruct r1 as [[np|]| |]; try (left; unfold hist_of; simpl; lia).
  apply _normalize_path_loop_spec in Hnorm as (np' & Heq & Hlen & Hfp).
  simpl in Heq. subst np'.
  rewrite bind_run.
  pose proof (_random_sample_relays_footprint env fuel
                (length (List.filter is_none np)) (omap id np) s1 h1)
    as [_ Hc2].
  destruct (_random_sample_relays env fuel _ (omap id np) s1 h1)
    as [[r2 s2] h2] eqn:Hsample.
  unfold hist_of in Hc2. simpl in Hc2.
  destruct r2 as [[ins|]| |]; try (left; unfold hist_of; simpl; lia).
  - apply _random_sample_relays_spec in Hsample
      as (chosen & Hnd & Hsub); [|rewrite Hfp; exact Hpins].
    rewrite bind_run.
    destruct (_ =? _)%nat; simpl py_assert;
      [|left; unfold raise, hist_of; simpl; lia].
    unfold ret at 1. cbv beta iota.
    rewrite bind_run. unfold lift_result at 1.
    destruct (fill_path np ins) as [fps| |] eqn:Hfill;
      try (left; unfold hist_of; simpl; lia).
    right. exists fps, s2, h2. split; [reflexivity|].
    apply fill_path_spec in Hfill as (Hlen' & front & back & Hins & Hperm).
    split; [lia|].
    rewrite Hperm.
    eapply sublist_NoDup; [exact Hnd|].
    apply sublist_app; [reflexivity|].
    etransitivity; [apply (sublist_of_lookups _ _ _ Hins)|exact Hsub].
  - left. unfold bind, lift_result, log, ret.
    destruct (py_join _ _); unfold hist_of; simpl;
      rewrite ?count_events_cons; simpl; lia.
Qed.

End GapsPath.

(** An open first hop and the pinned exit: the gap is filled with the other
    relay of the consensus. *)
Lemma build_circuit_fills_gap :
  res_of (build_circuit Scenario.env_by_fingerprint 10 [None; Some "EXITFPR"]
            (Stub.cb Scenario.net_two ∅) []) = Return (Some "7")
  /\ hd_error (hist_of (build_circuit Scenario.env_by_fingerprint 10
                          [None; Some "EXITFPR"]
                          (Stub.cb Scenario.net_two ∅) []))
     = Some (EvNewCircuit ["AAAAAAAAAAAAAAAAAAAA"; "EXITFPR"] true 10).
Proof. split; reflexivity. Qed.

Lemma build_circuit_distinct_path_example :
  exists fps s' h',
    build_circuit Scenario.env_by_fingerprint 10 [None; Some "EXITFPR"]
      (Stub.cb Scenario.net_two ∅) []
    = _build_circuit_impl Scenario.env_by_fingerprint fps s' h'
    /\ length fps = 2%nat /\ NoDup fps.
Proof.
  destruct (build_circuit_distinct_path Scenario.env_by_fingerprint) with
    (fuel := 10%nat) (slots := [None; Some "EXITFPR"])
    (self := Stub.cb Scenario.net_two ∅) (h := @nil event)
    as [Hnone|Hpath].
  - intros h fp r Hfind. apply List.find_some in Hfind as [_ Heq].
    apply String.eqb_eq in Heq. exact Heq.
  - apply NoDup_singleton.
  - vm_compute in Hnone. lia.
  - exact Hpath.
Qed.

Lemma build_circuit_short_of_relays_raises_witness :
  res_of (build_circuit Scenario.env_exit_only 10 [None; Some "EXITFPR"]
            (Stub.cb [Stub.relayE] ∅) []) = Raise TypeError
  /\ count_events is_warning
       (hist_of (build_circuit Scenario.env_exit_only 10
                   [None; Some "EXITFPR"] (Stub.cb [Stub.relayE] ∅) []))
     = 0%nat.
Proof.
  rewrite (build_circuit_short_of_relays_raises Scenario.env_exit_only 10
             [None; Some "EXITFPR"] (Stub.cb [Stub.relayE] ∅)
             (Stub.cb [Stub.relayE] ∅) (Stub.cb [Stub.relayE] ∅)
             [] [EvFpOrNickToRelay "EXITFPR"]
             [EvTime; EvFpOrNickToRelay "EXITFPR"]
             [None; Some Stub.relayE] [Stub.relayE]).
  - split; reflexivity.
  - reflexivity.
  - reflexivity.
  - reflexivity.
  - apply NoDup_singleton.
  - simpl. lia.
Defined.

(** C3. The same relay pinned in both slots of a two-slot path: the path
    resolves, nothing is left to fill, and [build_circuit] hands the path
    with that fingerprint twice to [c.new_circuit] and returns the
    circuit id. *)
Theorem build_circuit_same_relay_twice :
  res_of (build_circuit Scenario.env_builds 10
            [Some "EXITFPR"; Some "EXITFPR"]
            (Stub.cb Scenario.net_two ∅) []) = Return (Some "7")
  /\ hd_error (hist_of (build_circuit Scenario.env_builds 10
                          [Some "EXITFPR"; Some "EXITFPR"]
                          (Stub.cb Scenario.net_two ∅) []))
     = Some (EvNewCircuit ["EXITFPR"; "EXITFPR"] true 10)
  /\ ~ NoDup ["EXITFPR"; "EXITFPR"].
Proof.
  split; [reflexivity|]. split; [reflexivity|].
  intros Hnd. inversion Hnd as [|x l Hnotin _]. apply Hnotin.
  apply list_elem_of_here.
Qed.

Section ExitsFacts.

Variable env : Collaborators.

Lemma exits_can_exit_to_body_unavailable port exit acc s h :
  policy_truthy (exit_policy exit) = false ->
  get_microdescriptor env h (fingerprint exit) = inl DescriptorUnavailable ->
  exits_can_exit_to_body env port exit acc s h
  = (Return acc, s,
     EvLog DEBUG (exn_str DescriptorUnavailable) []
     :: EvGetMicrodescriptor (fingerprint exit) :: h).
Proof.
  intros Hp Hfetch. unfold exits_can_exit_to_body, exit_policy_of.
  rewrite Hp. unfold_monad. rewrite Hfetch. reflexivity.
Qed.

Lemma exits_can_exit_to_body_KeyError port exit acc s h p :
  exit_policy exit = Some p ->
  policy_truthy (Some p) = true ->
  can_exit_to env p None (Some port) = inl KeyError ->
  exits_can_exit_to_body env port exit acc s h
  = (Return acc, s,
     EvLog ERROR "Got that KeyError in stem again...: %s" [exn_str KeyError]
     :: h).
Proof.
  intros Hp Ht Hk. unfold exits_can_exit_to_body, exit_policy_of.
  rewrite Hp, Ht. unfold_monad. rewrite Hk. reflexivity.
Qed.

Lemma exits_can_exit_to_body_own_policy port exit acc s h p b :
  exit_policy exit = Some p ->
  policy_truthy (Some p) = true ->
  can_exit_to env p None (Some port) = inr b ->
  exits_can_exit_to_body env port exit acc s h
  = (Return (if b then acc ++ [exit] else acc), s, h).
Proof.
  intros Hp Ht Hk. unfold exits_can_exit_to_body, exit_policy_of.
  rewrite Hp, Ht. unfold_monad. rewrite Hk. reflexivity.
Qed.

Lemma exits_can_exit_to_body_sound port exit acc s h l s' h' :
  exits_can_exit_to_body env port exit acc s h = (Return l, s', h') ->
  l = acc \/ (l = acc ++ [exit] /\ accepts_port env port exit).
Proof.
  unfold exits_can_exit_to_body, exit_policy_of, accepts_port.
  destruct (policy_truthy (exit_policy exit)) eqn:Ht.
  - destruct (exit_policy exit) as [p|] eqn:Hp; [|discriminate].
    unfold_monad.
    destruct (can_exit_to env p None (Some port)) as [e|[|]] eqn:Hk; simpl.
    + destruct e; simpl; intros Heq; try discriminate Heq.
      injection Heq as <- _ _. left. reflexivity.
    + intros [= <- _ _]. right. split; [reflexivity|].
      exists p. split; [left; reflexivity|exact Hk].
    + intros [= <- _ _]. left. reflexivity.
  - unfold_monad.
    destruct (get_microdescriptor env h (fingerprint exit))
      as [e|[p|]] eqn:Hfetch; simpl.
    + destruct e; simpl; intros Heq; try discriminate Heq.
      injection Heq as <- _ _. left. reflexivity.
    + destruct (can_exit_to env p None (Some port)) as [e|[|]] eqn:Hk; simpl.
      * destruct e; simpl; intros Heq; try discriminate Heq.
        injection Heq as <- _ _. left. reflexivity.
      * intros [= <- _ _]. right. split; [reflexivity|].
        exists p. split; [right; exists h; exact Hfetch|exact Hk].
      * intros [= <- _ _]. left. reflexivity.
    + intros [= <- _ _]. left. reflexivity.
Qed.

Lemma exits_loop_sound port es acc (s : RelayList) h l s' h' :
  for_each es (exits_can_exit_to_body env port) acc s h = (Return l, s', h') ->
  forall r, r ∈ l -> r ∈ acc \/ (r ∈ es /\ accepts_port env port r).
Proof.
  revert acc s h. induction es as [|e es IH]; intros acc s h Hrun r Hr;
    simpl in Hrun.
  - unfold ret in Hrun. injection Hrun as <- _ _. left. exact Hr.
  - rewrite bind_run in Hrun.
    destruct (exits_can_exit_to_body env port e acc s h)
      as [[[acc'| |] s1] h1] eqn:Hbody; try discriminate.
    apply exits_can_exit_to_body_sound in Hbody.
    destruct (IH _ _ _ Hrun r Hr) as [Hacc|[Hes Hok]].
    + destruct Hbody as [->|[-> Hok]]; [left; exact Hacc|].
      apply elem_of_app in Hacc as [Hacc|Hacc]; [left; exact Hacc|].
      apply list_elem_of_singleton in Hacc. subst r.
      right. split; [apply list_elem_of_here|exact Hok].
    + right. split; [apply list_elem_of_further; exact Hes|exact Hok].
Qed.

Lemma resolve_host_keeps_self host :
  bounded (fun s : RelayList => s) is_new_circuit 0 (resolve_host env host).
Proof. unfold resolve_host. repeat bounded_step. Qed.

Lemma exits_can_exit_to_body_keeps_self port exit acc :
  bounded (fun s : RelayList => s) is_new_circuit 0
    (exits_can_exit_to_body env port exit acc).
Proof.
  unfold exits_can_exit_to_body, exit_policy_of. repeat bounded_step.
Qed.

Lemma Flag_eqb_eq (a b : Flag) : Flag_eqb a b = true -> a = b.
Proof. destruct a, b; simpl; intros H; try discriminate H; reflexivity. Qed.

(** What [exits_can_exit_to] returns, whatever the host: relays of the
    snapshot that carry the Exit flag and whose policy, asked about the
    port alone, accepts. *)
Lemma exits_can_exit_to_sound host port s h l s' h' :
  exits_can_exit_to env host port s h = (Return l, s', h') ->
  forall r, r ∈ l ->
    r ∈ _relays s' /\ EXIT ∈ flags r /\ accepts_port env port r.
Proof.
  unfold exits_can_exit_to. intros Hrun r Hr.
  rewrite bind_run in Hrun.
  destruct (resolve_host env host s h) as [[[host'| |] s1] h1] eqn:Hres;
    try discriminate.
  rewrite bind_run in Hrun.
  destruct (py_assert _ s1 h1) as [[[[]| |] s2] h2] eqn:Hassert;
    try discriminate.
  rewrite bind_run in Hrun.
  destruct (exits env s2 h2) as [[[es| |] s3] h3] eqn:Hexits; try discriminate.
  unfold exits, _relays_with_flag in Hexits. rewrite bind_run in Hexits.
  destruct (relays env s2 h2) as [[[rs| |] s4] h4] eqn:Hrel; try discriminate.
  unfold ret in Hexits. injection Hexits as <- <- <-.
  apply relays_returns_cache in Hrel. subst rs.
  pose proof (bounded_for_each (fun s : RelayList => s) is_new_circuit
                (List.filter (fun r => existsb (Flag_eqb EXIT) (flags r))
                             (_relays s4))
                (exits_can_exit_to_body env port) []
                (exits_can_exit_to_body_keeps_self port) s4 h4) as [Hself _].
  rewrite Hrun in Hself. unfold self_of in Hself. simpl in Hself. subst s'.
  destruct (exits_loop_sound _ _ _ _ _ _ _ _ Hrun r Hr) as [Hnil|[Hes Hok]].
  - inversion Hnil.
  - apply list_elem_of_In, List.filter_In in Hes as [Hin Hflag].
    repeat split; [apply list_elem_of_In; exact Hin| |exact Hok].
    apply existsb_exists in Hflag as (fl & Hfl & Heq).
    apply Flag_eqb_eq in Heq. subst fl. apply list_elem_of_In. exact Hfl.
Qed.

End ExitsFacts.

Section DestinationFacts.

Variable env : Collaborators.

(** C4, as the code has it.  For a URL with scheme http or https and a
    non-empty host but no path, and a default path that starts with a
    slash, [Destination.__init__] does not apply the default path: adding
    the string [default_path] to the tuple [u[0:2]] raises TypeError and no
    Destination is built. *)
Theorem Destination_init_without_path_raises (url default_path : string)
    (max_dl : Z) :
  scheme (urlparse env url) = "http" \/ scheme (urlparse env url) = "https" ->
  netloc (urlparse env url) <> "" ->
  path (urlparse env url) = "" ->
  (exists rest, default_path = String "/"%char rest) ->
  Destination_init env url default_path max_dl = Raise TypeError.
Proof.
  intros Hscheme Hnetloc Hpath [rest ->]. unfold Destination_init.
  assert (Hs : String.eqb (scheme (urlparse env url)) "http"
               || String.eqb (scheme (urlparse env url)) "https" = true).
  { destruct Hscheme as [-> | ->]; reflexivity. }
  rewrite Hs. simpl negb. cbv iota.
  assert (Hn : str_truthy (netloc (urlparse env url)) = true).
  { unfold str_truthy. apply negb_true_iff. apply String.eqb_neq.
    exact Hnetloc. }
  rewrite Hn, Hpath. reflexivity.
Qed.

(** With a path in the URL the destination keeps the URL as parsed. *)
Lemma Destination_init_with_path (url default_path : string) (max_dl : Z) :
  scheme (urlparse env url) = "http" \/ scheme (urlparse env url) = "https" ->
  netloc (urlparse env url) <> "" ->
  path (urlparse env url) <> "" ->
  Destination_init env url default_path max_dl
  = Return {| _max_dl := max_dl; _url := urlparse env url |}.
Proof.
  intros Hscheme Hnetloc Hpath. unfold Destination_init.
  assert (Hs : String.eqb (scheme (urlparse env url)) "http"
               || String.eqb (scheme (urlparse env url)) "https" = true).
  { destruct Hscheme as [-> | ->]; reflexivity. }
  rewrite Hs. simpl negb. cbv iota.
  unfold str_truthy.
  rewrite (proj2 (String.eqb_neq _ _) Hnetloc).
  rewrite (proj2 (String.eqb_neq _ _) Hpath). reflexivity.
Qed.

(** The port of a destination: the explicit port of the URL when it has
    one, else 80 for http and 443 for https. *)
Lemma Destination_port_default (d : Destination) :
  (forall p, url_port env (_url d) = inr (Some p) ->
             Destination_port env d = Return p)
  /\ (url_port env (_url d) = inr None -> scheme (_url d) = "http" ->
      Destination_port env d = Return 80)
  /\ (url_port env (_url d) = inr None -> scheme (_url d) = "https" ->
      Destination_port env d = Return 443).
Proof.
  unfold Destination_port. repeat split.
  - intros p ->. reflexivity.
  - intros -> ->. reflexivity.
  - intros -> ->. reflexivity.
Qed.

(** With no candidate exit, the body of the sweep raises IndexError at
    [rng.choice(exits)]. *)
Lemma usability_test_body_without_exits (fuel : nat) (dest : Destination)
    (usable : list Destination) (self : DestinationList) (h : history)
    (port : Z) (rl' : RelayList) (h' : history) :
  Destination_port env dest = Return port ->
  exits_can_exit_to env (Destination_hostname env dest) port (_rl self) h
  = (Return [], rl', h') ->
  usability_test_body env fuel dest usable self h
  = (Raise IndexError, set_rl rl' self, h').
Proof.
  intros Hport Hexits. unfold usability_test_body.
  unfold bind at 1. unfold lift_result at 1. rewrite Hport.
  unfold bind at 1. unfold zoom at 1. rewrite Hexits.
  reflexivity.
Qed.

End DestinationFacts.

Lemma Destination_init_without_path_raises_witness :
  Destination_init Scenario.env_builds "https://example.com" "/" 1024
  = Raise TypeError.
Proof.
  apply (Destination_init_without_path_raises Scenario.env_builds
           "https://example.com" "/" 1024).
  - right. reflexivity.
  - discriminate.
  - reflexivity.
  - exists "". reflexivity.
Defined.

(** C5. A sweep over one destination while the consensus holds no exit
    raises IndexError; no warning was logged and the lock taken at the
    start was not released. *)
Theorem usability_sweep_without_exits_raises :
  res_of (_perform_usability_test Scenario.env_no_exit 10
            (Stub.dl [Stub.relayA]) []) = Raise IndexError
  /\ count_events is_warning
       (hist_of (_perform_usability_test Scenario.env_no_exit 10
                   (Stub.dl [Stub.relayA]) [])) = 0%nat
  /\ ~ In EvLockRelease
       (hist_of (_perform_usability_test Scenario.env_no_exit 10
                   (Stub.dl [Stub.relayA]) [])).
Proof.
  split; [reflexivity|]. split; [reflexivity|].
  vm_compute. intuition discriminate.
Qed.

(** C6. A sweep in which circuit 7 is built for the destination and the
    HEAD request is answered with 404: the sweep returns, the destination
    is not usable, and [c.close_circuit] was never called for circuit 7,
    although the session still reports it. *)
Theorem usability_sweep_leaves_circuit_open :
  res_of (_perform_usability_test Scenario.env_not_found 10
            (Stub.dl Scenario.net_two) []) = Return tt
  /\ _usable_dests
       (self_of (_perform_usability_test Scenario.env_not_found 10
                   (Stub.dl Scenario.net_two) [])) = []
  /\ count_events is_new_circuit
       (hist_of (_perform_usability_test Scenario.env_not_found 10
                   (Stub.dl Scenario.net_two) [])) = 1%nat
  /\ count_events (is_close_of "7")
       (hist_of (_perform_usability_test Scenario.env_not_found 10
                   (Stub.dl Scenario.net_two) [])) = 0%nat
  /\ get_circuit Scenario.env_not_found
       (hist_of (_perform_usability_test Scenario.env_not_found 10
                   (Stub.dl Scenario.net_two) [])) "7" <> None.
Proof.
  repeat split; try reflexivity. discriminate.
Qed.

(** The same sweep with a destination that answers 200 and a large enough
    Content-Length closes circuit 7. *)
Lemma usability_sweep_closes_usable :
  res_of (_perform_usability_test Scenario.env_builds 10
            (Stub.dl Scenario.net_two) []) = Return tt
  /\ _usable_dests
       (self_of (_perform_usability_test Scenario.env_builds 10
                   (Stub.dl Scenario.net_two) [])) = [Stub.dest_https]
  /\ count_events (is_close_of "7")
       (hist_of (_perform_usability_test Scenario.env_builds 10
                   (Stub.dl Scenario.net_two) [])) = 1%nat.
Proof.
  repeat split; reflexivity.
Qed.

(** C9. The one exit of the consensus accepts port 443 to 5.6.7.8 only.
    Asked for the exits to 1.2.3.4:443, [exits_can_exit_to] returns that
    exit, whose policy does not permit 1.2.3.4:443: the policy was asked
    about the port alone. *)
Theorem exits_can_exit_to_ignores_host :
  res_of (exits_can_exit_to Scenario.env_picky_exit "1.2.3.4" 443
            (Stub.rl [Stub.relayA; Stub.relayX]) []) = Return [Stub.relayX]
  /\ exit_policy Stub.relayX = Some Stub.only_5678
  /\ can_exit_to Scenario.env_picky_exit Stub.only_5678
       (Some "1.2.3.4") (Some 443) = inr false
  /\ can_exit_to Scenario.env_picky_exit Stub.only_5678 None (Some 443)
     = inr true.
Proof.
  repeat split; reflexivity.
Qed.

(** The port of constructed destinations: 443 for an https URL without a
    port, 80 for an http one, the explicit port when the URL has one. *)
Lemma Destination_port_examples :
  rbind (Destination_init Scenario.env_builds
           "https://example.com/sbws.bin" "/" 1024)
        (Destination_port Scenario.env_builds) = Return 443
  /\ rbind (Destination_init Scenario.env_builds
              "http://example.com/sbws.bin" "/" 1024)
           (Destination_port Scenario.env_builds) = Return 80
  /\ rbind (Destination_init Scenario.env_builds
              "http://example.com:8080/sbws.bin" "/" 1024)
           (Destination_port Scenario.env_builds) = Return 8080.
Proof. repeat split; reflexivity. Qed.

(** * More of the code

    Properties of the functions around the ones above: the views of the
    relay list, the error paths of the builders, teardown, the parts of
    the gap filling, destinations, and the sweep and [next] of the
    destination list. *)

Section MoreRelayListFacts.

Variable env : Collaborators.

(** X1. A call of [relays] that finds the snapshot 300 seconds old or
    older while the controller is not okay raises AssertionError; it does
    not call [get_network_statuses] and the cached snapshot and its
    timestamp stay as they were. *)
Theorem relays_stale_unhealthy_raises (self : RelayList) (h : history) :
  (REFRESH_INTERVAL <= time_time env h - _last_refresh self)%Q ->
  is_controller_okay env (EvTime :: h) = false ->
  relays env self h
  = (Raise AssertionError, self, EvIsControllerOkay :: EvTime :: h).
Proof.
  intros Hage Hbad.
  assert (Hb : Qle_bool (float_add (_last_refresh self) REFRESH_INTERVAL)
                        (round64 (time_time env h)) = true).
  { apply Qle_bool_iff. apply float_add_le_time. lra. }
  unfold relays, _refresh, _init_relays. unfold_monad.
  rewrite Hb, Hbad. reflexivity.
Qed.

Lemma flag_views_split (flag : Flag) (rs : list Relay) :
  Permutation
    (List.filter (fun r => existsb (Flag_eqb flag) (flags r)) rs
     ++ List.filter (fun r => negb (existsb (Flag_eqb flag) (flags r))) rs)
    rs.
Proof.
  induction rs as [|r rs IH]; simpl; [constructor|].
  destruct (existsb (Flag_eqb flag) (flags r)); simpl.
  - constructor. exact IH.
  - symmetry. apply Permutation_cons_app. symmetry. exact IH.
Qed.

Lemma existsb_Flag_eqb (flag : Flag) (fl : list Flag) :
  existsb (Flag_eqb flag) fl = true <-> flag ∈ fl.
Proof.
  rewrite existsb_exists, list_elem_of_In. split.
  - intros (x & Hin & Heq). apply Flag_eqb_eq in Heq. subst. exact Hin.
  - intros Hin. exists flag. split; [exact Hin|]. destruct flag; reflexivity.
Qed.

(** X2. The relays with a flag and the relays without it, read one after
    the other with no refresh in between (the second read finds
    [time.time() < _last_refresh + 300], the sum and the comparison in
    floats as the code has them), split the snapshot: together they are a
    permutation of it, every relay of the first list carries the flag and
    no relay of the second does. *)
Theorem flag_views_partition (flag : Flag) (self s1 s2 : RelayList)
    (h h1 h2 : history) (l1 l2 : list Relay) :
  _relays_with_flag env flag self h = (Return l1, s1, h1) ->
  (round64 (time_time env h1)
   < float_add (_last_refresh s1) REFRESH_INTERVAL)%Q ->
  _relays_without_flag env flag s1 h1 = (Return l2, s2, h2) ->
  Permutation (l1 ++ l2) (_relays s2)
  /\ (forall r, r ∈ l1 -> flag ∈ flags r)
  /\ (forall r, r ∈ l2 -> flag ∉ flags r).
Proof.
  intros Hwith Hage Hwithout.
  unfold _relays_with_flag in Hwith. rewrite bind_run in Hwith.
  destruct (relays env self h) as [[[rs| |] s1'] h1'] eqn:Hrel;
    try discriminate.
  apply relays_returns_cache in Hrel. subst rs.
  unfold ret in Hwith. injection Hwith as <- <- <-.
  unfold _relays_without_flag in Hwithout. rewrite bind_run in Hwithout.
  rewrite relays_fresh in Hwithout by (apply not_stale_yet; exact Hage).
  unfold ret in Hwithout. injection Hwithout as <- <- _.
  split; [apply flag_views_split|]. split.
  - intros r Hr. apply list_elem_of_In, List.filter_In in Hr as [_ Hr].
    apply existsb_Flag_eqb. exact Hr.
  - intros r Hr Hflag. apply list_elem_of_In, List.filter_In in Hr as [_ Hr].
    apply existsb_Flag_eqb in Hflag. rewrite Hflag in Hr. discriminate.
Qed.

Lemma rng_choice_In {St A : Type} (l : list A) (s s' : St) h h' (a : A) :
  rng_choice env l s h = (Return a, s', h') -> a ∈ l /\ s' = s.
Proof.
  unfold rng_choice. destruct l as [|d l]; [discriminate|].
  remember (d :: l) as l0 eqn:Hl0. unfold call. intros Heq.
  assert (Ha : nth (rng_index env h (length l0) mod length l0)%nat l0 d = a)
    by congruence.
  assert (Hs : s = s') by congruence.
  split; [|congruence]. rewrite <- Ha.
  apply list_elem_of_In, nth_In, Nat.mod_upper_bound.
  rewrite Hl0. discriminate.
Qed.

Lemma relays_never_IndexError (self : RelayList) h s' h' :
  relays env self h <> (Raise IndexError, s', h').
Proof.
  unfold relays, _refresh, _init_relays. unfold_monad.
  destruct (Qle_bool _ _); simpl; [|discriminate].
  destruct (is_controller_okay env _); simpl; discriminate.
Qed.

(** X3. [random_relay] returns a relay of the snapshot it read, and the
    only way it raises IndexError is an empty snapshot. *)
Theorem random_relay_in_snapshot (self : RelayList) (h : history) :
  let o := random_relay env self h in
  (forall r, res_of o = Return r -> r ∈ _relays (self_of o))
  /\ (res_of o = Raise IndexError -> _relays (self_of o) = []).
Proof.
  intros o. subst o. unfold random_relay. rewrite bind_run.
  destruct (relays env self h) as [[[rs| |] s1] h1] eqn:Hrel.
  - apply relays_returns_cache in Hrel. subst rs.
    destruct (rng_choice env (_relays s1) s1 h1) as [[r2 s2] h2] eqn:Hch.
    unfold res_of, self_of. simpl. split.
    + intros r ->. apply rng_choice_In in Hch as [Hin ->]. exact Hin.
    + intros ->. unfold rng_choice in Hch.
      destruct (_relays s1) as [|d rs] eqn:Hrs; [|discriminate].
      unfold raise in Hch. injection Hch as <- _. exact Hrs.
  - unfold res_of, self_of. simpl. split; [discriminate|].
    intros [= ->]. exfalso. exact (relays_never_IndexError _ _ _ _ Hrel).
  - unfold res_of. simpl. split; discriminate.
Qed.

End MoreRelayListFacts.

Section Quiet.

Context {S : Type} (p : event -> bool).

Lemma quiet_ret {A} (a : A) : quiet p (@ret S A a).
Proof. intros s h. reflexivity. Qed.

Lemma quiet_raise {A} e : quiet p (@raise S A e).
Proof. intros s h. reflexivity. Qed.

Lemma quiet_out_of_fuel {A} : quiet p (@out_of_fuel S A).
Proof. intros s h. reflexivity. Qed.

Lemma quiet_get_self : quiet p (@get_self S).
Proof. intros s h. reflexivity. Qed.

Lemma quiet_put_self s' : quiet p (@put_self S s').
Proof. intros s h. reflexivity. Qed.

Lemma quiet_lift_result {A} (r : result A) : quiet p (@lift_result S A r).
Proof. intros s h. reflexivity. Qed.

Lemma quiet_lift_exn {A} (r : exn + A) : quiet p (@lift_exn S A r).
Proof. destruct r; intros s h; reflexivity. Qed.

Lemma quiet_py_assert b : quiet p (@py_assert S b).
Proof. destruct b; intros s h; reflexivity. Qed.

Lemma quiet_call {A} (answer : history -> A) ev :
  p ev = false -> quiet p (@call S A answer ev).
Proof.
  intros Hev s h. unfold call, hist_of. simpl.
  rewrite count_events_cons, Hev. reflexivity.
Qed.

Lemma quiet_call_exn {A} (answer : history -> exn + A) ev :
  p ev = false -> quiet p (@call_exn S A answer ev).
Proof.
  intros Hev s h. unfold call_exn, hist_of.
  destruct (answer h); simpl; rewrite count_events_cons, Hev; reflexivity.
Qed.

Lemma quiet_log lvl fmt args :
  p (EvLog lvl fmt args) = false -> quiet p (@log S lvl fmt args).
Proof.
  intros Hev s h. unfold log, hist_of. simpl.
  rewrite count_events_cons, Hev. reflexivity.
Qed.

Lemma quiet_bind {A B} (m : M S A) (k : A -> M S B) :
  quiet p m -> (forall a, quiet p (k a)) -> quiet p (bind m k).
Proof.
  intros Hm Hk s h. specialize (Hm s h). rewrite bind_run.
  destruct (m s h) as [[r s1] h1]. unfold hist_of in Hm. simpl in Hm.
  destruct r as [a| |]; [|exact Hm|exact Hm].
  rewrite (Hk a s1 h1). exact Hm.
Qed.

Lemma quiet_try_except {A} (m : M S A) handled handler :
  quiet p m -> (forall e, quiet p (handler e)) ->
  quiet p (try_except m handled handler).
Proof.
  intros Hm Hh s h. specialize (Hm s h). unfold try_except.
  destruct (m s h) as [[r s1] h1]. unfold hist_of in Hm. simpl in Hm.
  destruct r as [a|e|]; try exact Hm.
  destruct (handled e); [|exact Hm].
  rewrite (Hh e s1 h1). exact Hm.
Qed.

Lemma quiet_try_finally {A} (m : M S A) (f : M S unit) :
  quiet p m -> quiet p f -> quiet p (try_finally m f).
Proof.
  intros Hm Hf s h. specialize (Hm s h). unfold try_finally.
  destruct (m s h) as [[r s1] h1]. unfold hist_of in Hm. simpl in Hm.
  specialize (Hf s1 h1). destruct (f s1 h1) as [[r2 s2] h2].
  unfold hist_of in Hf. simpl in Hf.
  destruct r2; unfold hist_of; simpl; congruence.
Qed.

Lemma quiet_for_each {A B} (l : list A) (body : A -> B -> M S B) acc :
  (forall x b, quiet p (body x b)) -> quiet p (for_each l body acc).
Proof.
  intros Hbody. revert acc. induction l as [|x l IH]; intros acc; simpl.
  - apply quiet_ret.
  - apply quiet_bind; [apply Hbody|]. intros b. apply IH.
Qed.

Lemma quiet_rng_choice env {A} (l : list A) :
  (forall n, p (EvChoice n) = false) -> quiet p (@rng_choice env S A l).
Proof.
  intros Hev. unfold rng_choice. destruct l; [apply quiet_raise|].
  apply quiet_call. apply Hev.
Qed.

End Quiet.

Lemma quiet_zoom {S T A : Type} (p : event -> bool) (get : S -> T)
    (set : T -> S -> S) (m : M T A) :
  quiet p m -> quiet p (zoom get set m).
Proof.
  intros Hm s h. specialize (Hm (get s) h). unfold zoom.
  destruct (m (get s) h) as [[r t1] h1]. exact Hm.
Qed.

Ltac quiet_step :=
  first
    [ apply quiet_ret | apply quiet_raise | apply quiet_get_self
    | apply quiet_put_self | apply quiet_py_assert | apply quiet_lift_result
    | apply quiet_lift_exn | apply quiet_out_of_fuel
    | apply quiet_call; reflexivity
    | apply quiet_call_exn; reflexivity
    | apply quiet_log; reflexivity
    | apply quiet_rng_choice; intros; reflexivity
    | apply quiet_try_except
    | apply quiet_try_finally
    | apply quiet_zoom
    | apply quiet_bind
    | match goal with
      | |- forall _, _ => intro
      | |- quiet _ (if ?b then _ else _) => destruct b
      | |- quiet _ (match ?x with _ => _ end) => destruct x
      end ].

Section MoreExitsFacts.

Variable env : Collaborators.

Lemma exits_loop_sublist port es acc (s : RelayList) h l s' h' :
  for_each es (exits_can_exit_to_body env port) acc s h = (Return l, s', h') ->
  exists kept, l = acc ++ kept /\ kept `sublist_of` es.
Proof.
  revert acc s h. induction es as [|e es IH]; intros acc s h Hrun;
    simpl in Hrun.
  - unfold ret in Hrun. injection Hrun as <- _ _. exists [].
    rewrite app_nil_r. split; [reflexivity|constructor].
  - rewrite bind_run in Hrun.
    destruct (exits_can_exit_to_body env port e acc s h)
      as [[[acc'| |] s1] h1] eqn:Hbody; try discriminate.
    apply exits_can_exit_to_body_sound in Hbody.
    apply IH in Hrun as (kept & -> & Hsub).
    destruct Hbody as [->|[-> _]].
    + exists kept. split; [reflexivity|]. apply sublist_cons. exact Hsub.
    + exists (e :: kept). rewrite <- app_assoc. split; [reflexivity|].
      apply sublist_skip. exact Hsub.
Qed.

Lemma exits_can_exit_to_unfold host port s h l s' h' :
  exits_can_exit_to env host port s h = (Return l, s', h') ->
  exists s0 h0,
    for_each (List.filter (has_flag EXIT) (_relays s0))
      (exits_can_exit_to_body env port) [] s0 h0 = (Return l, s', h')
    /\ s' = s0.
Proof.
  unfold exits_can_exit_to. intros Hrun.
  rewrite bind_run in Hrun.
  destruct (resolve_host env host s h) as [[[host'| |] s1] h1] eqn:Hres;
    try discriminate.
  rewrite bind_run in Hrun.
  destruct (py_assert _ s1 h1) as [[[[]| |] s2] h2] eqn:Hassert;
    try discriminate.
  rewrite bind_run in Hrun.
  destruct (exits env s2 h2) as [[[es| |] s3] h3] eqn:Hexits; try discriminate.
  unfold exits, _relays_with_flag in Hexits. rewrite bind_run in Hexits.
  destruct (relays env s2 h2) as [[[rs| |] s4] h4] eqn:Hrel; try discriminate.
  unfold ret in Hexits. injection Hexits as <- <- <-.
  apply relays_returns_cache in Hrel. subst rs.
  exists s4, h4. split; [exact Hrun|].
  pose proof (bounded_for_each (fun s : RelayList => s) is_new_circuit
                (List.filter (fun r => existsb (Flag_eqb EXIT) (flags r))
                             (_relays s4))
                (exits_can_exit_to_body env port) []
                (exits_can_exit_to_body_keeps_self env port) s4 h4)
    as [Hself _].
  rewrite Hrun in Hself. exact Hself.
Qed.

(** X4. Whatever the host, what [exits_can_exit_to] returns is a
    selection, in snapshot order, of the relays of the snapshot that carry
    the Exit flag; each relay returned has a policy (its own, or one the
    controller handed out for its fingerprint) that accepts the port when
    asked about the port alone. *)
Theorem exits_can_exit_to_selects_accepting_exits (host : string) (port : Z)
    (s s' : RelayList) (h h' : history) (l : list Relay) :
  exits_can_exit_to env host port s h = (Return l, s', h') ->
  l `sublist_of` List.filter (has_flag EXIT) (_relays s')
  /\ forall r, r ∈ l ->
       r ∈ _relays s' /\ EXIT ∈ flags r /\ accepts_port env port r.
Proof.
  intros Hrun. split.
  - apply exits_can_exit_to_unfold in Hrun as (s0 & h0 & Hloop & ->).
    apply exits_loop_sublist in Hloop as (kept & -> & Hsub). exact Hsub.
  - apply (exits_can_exit_to_sound env host port s h l s' h' Hrun).
Qed.

Lemma exits_loop_exact port es acc (s : RelayList) h l s' h' :
  (forall e, e ∈ es -> policy_truthy (exit_policy e) = true) ->
  for_each es (exits_can_exit_to_body env port) acc s h = (Return l, s', h') ->
  l = acc ++ List.filter (port_accepted env port) es.
Proof.
  revert acc s h. induction es as [|e es IH]; intros acc s h Hpol Hrun;
    simpl in Hrun.
  - unfold ret in Hrun. injection Hrun as <- _ _. simpl.
    rewrite app_nil_r. reflexivity.
  - rewrite bind_run in Hrun.
    pose proof (Hpol e (list_elem_of_here _ _)) as Ht.
    destruct (exit_policy e) as [p|] eqn:Hp; [|discriminate].
    simpl. unfold port_accepted at 1. rewrite Hp.
    destruct (can_exit_to env p None (Some port)) as [ex|b] eqn:Hk.
    + unfold exits_can_exit_to_body, exit_policy_of in Hrun.
      rewrite Hp, Ht in Hrun. unfold_monad. rewrite Hk in Hrun.
      destruct ex; simpl in Hrun; try discriminate.
      apply IH in Hrun; [exact Hrun|].
      intros e' He'. apply Hpol. apply list_elem_of_further. exact He'.
    + rewrite (exits_can_exit_to_body_own_policy env port e acc s h p b
                 Hp Ht Hk) in Hrun.
      apply IH in Hrun.
      2:{ intros e' He'. apply Hpol. apply list_elem_of_further. exact He'. }
      rewrite Hrun. destruct b; [|reflexivity].
      rewrite <- app_assoc. reflexivity.
Qed.

(** X5. When every relay of the snapshot that carries the Exit flag has its
    exit policy loaded, what [exits_can_exit_to] returns is exactly the
    Exit-flagged relays of the snapshot, in snapshot order, whose own
    policy accepts the port when asked about the port alone; a relay on
    whose policy the check fails with KeyError is left out. *)
Theorem exits_can_exit_to_exact_with_loaded_policies (host : string)
    (port : Z) (s s' : RelayList) (h h' : history) (l : list Relay) :
  exits_can_exit_to env host port s h = (Return l, s', h') ->
  (forall r, r ∈ _relays s' -> EXIT ∈ flags r ->
             policy_truthy (exit_policy r) = true) ->
  l = List.filter (fun r => has_flag EXIT r && port_accepted env port r)
        (_relays s').
Proof.
  intros Hrun Hpol.
  apply exits_can_exit_to_unfold in Hrun as (s0 & h0 & Hloop & ->).
  apply exits_loop_exact in Hloop.
  - simpl in Hloop. rewrite Hloop. clear.
    induction (_relays s0) as [|r rs IH]; simpl; [reflexivity|].
    destruct (has_flag EXIT r); simpl; [|exact IH].
    destruct (port_accepted env port r); [f_equal|]; exact IH.
  - intros e He. apply list_elem_of_In, List.filter_In in He as [Hin Hflag].
    apply Hpol; [apply list_elem_of_In; exact Hin|].
    apply existsb_Flag_eqb. exact Hflag.
Qed.

End MoreExitsFacts.

Section ExitsErrors.

Variable env : Collaborators.

Lemma relays_quiet (p : event -> bool) :
  p EvTime = false -> p EvIsControllerOkay = false ->
  p EvGetNetworkStatuses = false ->
  quiet p (relays env).
Proof.
  intros H1 H2 H3. unfold relays, _refresh, _init_relays.
  repeat first [ apply quiet_call; assumption | quiet_step ].
Qed.

Lemma exits_can_exit_to_body_quiet_resolve port exit acc :
  quiet is_resolve (exits_can_exit_to_body env port exit acc).
Proof.
  unfold exits_can_exit_to_body, exit_policy_of. repeat quiet_step.
Qed.

Lemma exits_loop_quiet_resolve port host' :
  quiet is_resolve
    (bind (py_assert (is_valid_ipv4_address env host'
                      || is_valid_ipv6_address env host'))
          (fun _ => bind (exits env)
             (fun es => for_each es (exits_can_exit_to_body env port) []))).
Proof.
  apply quiet_bind; [apply quiet_py_assert|]. intros _.
  apply quiet_bind.
  - unfold exits, _relays_with_flag. apply quiet_bind.
    + apply relays_quiet; reflexivity.
    + intros rs. apply quiet_ret.
  - intros es. apply quiet_for_each. intros x b.
    apply exits_can_exit_to_body_quiet_resolve.
Qed.

Lemma resolve_host_literal host (s : RelayList) h :
  is_valid_ipv4_address env host || is_valid_ipv6_address env host = true ->
  resolve_host env host s h = (Return host, s, h).
Proof.
  intros Hlit. unfold resolve_host.
  destruct (is_valid_ipv4_address env host),
           (is_valid_ipv6_address env host); try discriminate; reflexivity.
Qed.

Lemma resolve_host_name host (s : RelayList) h :
  is_valid_ipv4_address env host || is_valid_ipv6_address env host = false ->
  resolve_host env host s h
  = match resolve env h host with
    | [] => (Raise IndexError, s, EvResolve host :: h)
    | a :: _ => (Return a, s, EvResolve host :: h)
    end.
Proof.
  intros Hlit. unfold resolve_host.
  destruct (is_valid_ipv4_address env host),
           (is_valid_ipv6_address env host); try discriminate.
  simpl. unfold_monad. destruct (resolve env h host); reflexivity.
Qed.

(** X6. [exits_can_exit_to] calls [resolve] only for a host that is not a
    literal IPv4 or IPv6 address, and then exactly once.  When the
    resolver has no address for the name, the call raises IndexError, and
    when the first address it gives is not a valid one, AssertionError;
    in both cases the relay list has not been read. *)
Theorem exits_can_exit_to_resolves_names_only (host : string) (port : Z)
    (s : RelayList) (h : history) :
  let o := exits_can_exit_to env host port s h in
  let literal :=
    is_valid_ipv4_address env host || is_valid_ipv6_address env host in
  (literal = true ->
     count_events is_resolve (hist_of o) = count_events is_resolve h)
  /\ (literal = false ->
      count_events is_resolve (hist_of o) = S (count_events is_resolve h))
  /\ (literal = false -> resolve env h host = [] ->
      o = (Raise IndexError, s, EvResolve host :: h))
  /\ (literal = false ->
      forall a rest, resolve env h host = a :: rest ->
        is_valid_ipv4_address env a || is_valid_ipv6_address env a = false ->
        o = (Raise AssertionError, s, EvResolve host :: h)).
Proof.
  intros o literal. subst o literal. unfold exits_can_exit_to.
  rewrite bind_run.
  destruct (is_valid_ipv4_address env host || is_valid_ipv6_address env host)
    eqn:Hlit.
  - rewrite (resolve_host_literal _ _ _ Hlit).
    split; [|repeat split; discriminate]. intros _.
    apply (exits_loop_quiet_resolve port host s h).
  - rewrite (resolve_host_name _ _ _ Hlit).
    split; [discriminate|].
    destruct (resolve env h host) as [|a rest] eqn:Hres.
    + split; [|split; [intros _ _; reflexivity|]].
      * intros _. unfold hist_of. simpl. rewrite count_events_cons.
        reflexivity.
      * intros _ a rest Habs. discriminate Habs.
    + split; [|split; [discriminate|]].
      * intros _.
        rewrite (exits_loop_quiet_resolve port a s (EvResolve host :: h)).
        rewrite count_events_cons. reflexivity.
      * intros _ a' rest' [= <- <-] Hbad. rewrite bind_run.
        rewrite Hbad. reflexivity.
Qed.

Lemma exits_can_exit_to_body_returns port exit acc (s : RelayList) h :
  (forall h fp, get_microdescriptor env h fp = inl DescriptorUnavailable
                \/ exists p, get_microdescriptor env h fp = inr p) ->
  (forall p, can_exit_to env p None (Some port) = inl KeyError
             \/ exists b, can_exit_to env p None (Some port) = inr b) ->
  exists l h', exits_can_exit_to_body env port exit acc s h = (Return l, s, h').
Proof.
  intros Hfetch Hmatch.
  unfold exits_can_exit_to_body, exit_policy_of.
  destruct (policy_truthy (exit_policy exit)).
  - unfold_monad. destruct (exit_policy exit) as [p|]; [|eauto].
    destruct (Hmatch p) as [->|[b ->]]; simpl; eauto.
  - unfold_monad.
    destruct (Hfetch h (fingerprint exit)) as [->|[[p|] ->]]; simpl; eauto.
    destruct (Hmatch p) as [->|[b ->]]; simpl; eauto.
Qed.

Lemma exits_loop_returns port es acc (s : RelayList) h :
  (forall h fp, get_microdescriptor env h fp = inl DescriptorUnavailable
                \/ exists p, get_microdescriptor env h fp = inr p) ->
  (forall p, can_exit_to env p None (Some port) = inl KeyError
             \/ exists b, can_exit_to env p None (Some port) = inr b) ->
  exists l h',
    for_each es (exits_can_exit_to_body env port) acc s h = (Return l, s, h').
Proof.
  intros Hfetch Hmatch. revert acc h.
  induction es as [|e es IH]; intros acc h; simpl.
  - unfold ret. eauto.
  - rewrite bind_run.
    destruct (exits_can_exit_to_body_returns port e acc s h Hfetch Hmatch)
      as (l & h' & ->).
    apply IH.
Qed.

Lemma relays_returns_when_okay (s : RelayList) h :
  (forall h, is_controller_okay env h = true) ->
  exists rs s' h', relays env s h = (Return rs, s', h').
Proof.
  intros Hok. unfold relays, _refresh, _init_relays. unfold_monad.
  destruct (Qle_bool _ _); simpl; [rewrite Hok; simpl|]; eauto.
Qed.

(** X7. One bad relay does not stop the query: when the host is a literal
    address, the controller is okay, fetching a microdescriptor fails with
    DescriptorUnavailable only and the policy check fails with KeyError
    only, [exits_can_exit_to] returns a list and does not raise. *)
Theorem exits_can_exit_to_survives_bad_relays (host : string) (port : Z)
    (s : RelayList) (h : history) :
  is_valid_ipv4_address env host || is_valid_ipv6_address env host = true ->
  (forall h, is_controller_okay env h = true) ->
  (forall h fp, get_microdescriptor env h fp = inl DescriptorUnavailable
                \/ exists p, get_microdescriptor env h fp = inr p) ->
  (forall p, can_exit_to env p None (Some port) = inl KeyError
             \/ exists b, can_exit_to env p None (Some port) = inr b) ->
  exists l s' h', exits_can_exit_to env host port s h = (Return l, s', h').
Proof.
  intros Hlit Hok Hfetch Hmatch. unfold exits_can_exit_to.
  rewrite bind_run, (resolve_host_literal _ _ _ Hlit).
  rewrite bind_run, Hlit. unfold py_assert, ret at 1. rewrite bind_run.
  unfold exits, _relays_with_flag. rewrite bind_run.
  destruct (relays_returns_when_okay s h Hok) as (rs & s1 & h1 & ->).
  unfold ret at 1.
  destruct (exits_loop_returns port
              (List.filter (fun r => existsb (Flag_eqb EXIT) (flags r)) rs)
              [] s1 h1 Hfetch Hmatch) as (l & h' & ->).
  eauto.
Qed.

End ExitsErrors.

Section MoreCircuitBuilderFacts.

Variable env : Collaborators.

(** X8. The length of the path is checked before anything else: for an
    empty path or one of more than 8 entries, [build_circuit] and
    [_build_circuit_impl] raise PathLengthException without a single call
    to a collaborator and leave the builder as it is. *)
Theorem path_length_checked_first (fuel : nat) (slots : list (option string))
    (fps : list string) (self : CircuitBuilder) (h : history) :
  (length slots = 0%nat \/ (8 < length slots)%nat ->
   build_circuit env fuel slots self h = (Raise PathLengthException, self, h))
  /\ (length fps = 0%nat \/ (8 < length fps)%nat ->
      _build_circuit_impl env fps self h
      = (Raise PathLengthException, self, h)).
Proof.
  split; intros Hlen.
  - unfold build_circuit.
    assert (Hv : valid_circuit_length (inr slots) = false).
    { destruct (valid_circuit_length (inr slots)) eqn:E; [|reflexivity].
      apply valid_circuit_length_iff in E. lia. }
    rewrite Hv. reflexivity.
  - apply _build_circuit_impl_too_long.
    destruct (valid_circuit_length (inr fps)) eqn:E; [|reflexivity].
    apply valid_circuit_length_iff in E. lia.
Qed.

Lemma build_attempts_accounting n fps t self h :
  exists k,
    (k <= n)%nat
    /\ count_events is_warning
         (hist_of (build_attempts env n fps t self h))
       = (count_events is_warning h + k)%nat
    /\ match res_of (build_attempts env n fps t self h) with
       | Return None =>
           k = n
           /\ count_events is_new_circuit
                (hist_of (build_attempts env n fps t self h))
              = (count_events is_new_circuit h + n)%nat
       | Return (Some _) =>
           (k < n)%nat
           /\ count_events is_new_circuit
                (hist_of (build_attempts env n fps t self h))
              = (count_events is_new_circuit h + k + 1)%nat
       | Raise e =>
           transient e = false /\ (k < n)%nat
           /\ count_events is_new_circuit
                (hist_of (build_attempts env n fps t self h))
              = (count_events is_new_circuit h + k + 1)%nat
       | OutOfFuel => False
       end.
Proof.
  revert h. induction n as [|n IH]; intros h.
  - exists 0%nat. simpl. unfold_monad. simpl. repeat split; lia.
  - simpl. unfold_monad.
    destruct (new_circuit env h fps t) as [e|c] eqn:Hnc; simpl.
    + destruct (transient e) eqn:Ht; simpl.
      * destruct (IH (EvLog WARNING (exn_str e) []
                      :: EvNewCircuit fps true t :: h)) as (k & Hk & Hw & Hres).
        unfold res_of, hist_of in *. exists (S k).
        rewrite !count_events_cons in Hw, Hres. simpl in Hw, Hres.
        split; [lia|]. split; [rewrite Hw; lia|].
        destruct (build_attempts env n fps t self _) as [[[[c|]|e'|] s'] h'];
          simpl in *.
        -- destruct Hres as [Hlt Hn]. split; [lia|]. rewrite Hn. lia.
        -- destruct Hres as [-> Hn]. split; [reflexivity|]. rewrite Hn. lia.
        -- destruct Hres as (Hne & Hlt & Hn). repeat split; try assumption;
             [lia|rewrite Hn; lia].
        -- exact Hres.
      * exists 0%nat. rewrite !count_events_cons. simpl.
        repeat split; try lia. exact Ht.
    + exists 0%nat. rewrite !count_events_cons. simpl. repeat split; lia.
Qed.

(** X9. The first answer of [c.new_circuit] decides exactly when it is
    not a retried fault.  A circuit id is returned at once, and an
    exception other than InvalidRequest, InvalidArguments (its subclass),
    CircuitExtensionFailed, ProtocolError and Timeout propagates at once:
    in both cases there is no second attempt and no warning.  After one of
    those five a warning is logged and a second attempt is made. *)
Theorem first_answer_decides (fps : list string) (self : CircuitBuilder)
    (h : history) :
  valid_circuit_length (inr fps) = true ->
  is_controller_okay env h = true ->
  let h1 := EvLog DEBUG "Building %s" [fp_path_str fps]
            :: EvIsControllerOkay :: h in
  let t := circuit_timeout self in
  let o := _build_circuit_impl env fps self h in
  (forall c, new_circuit env h1 fps t = inr c ->
     o = (Return (Some c), self, EvNewCircuit fps true t :: h1))
  /\ (forall e, new_circuit env h1 fps t = inl e ->
      e <> InvalidRequest -> e <> InvalidArguments ->
      e <> CircuitExtensionFailed -> e <> ProtocolError -> e <> Timeout ->
      o = (Raise e, self, EvNewCircuit fps true t :: h1))
  /\ (forall e, new_circuit env h1 fps t = inl e ->
      e = InvalidRequest \/ e = InvalidArguments
      \/ e = CircuitExtensionFailed \/ e = ProtocolError \/ e = Timeout ->
      (count_events is_warning h + 1
       <= count_events is_warning (hist_of o))%nat
      /\ (count_events is_new_circuit h + 2
          <= count_events is_new_circuit (hist_of o))%nat).
Proof.
  intros Hvalid Hok h1 t o. subst o.
  rewrite _build_circuit_impl_okay by assumption.
  fold h1 t. split; [|split].
  - intros c Hc. simpl. unfold_monad. rewrite Hc. reflexivity.
  - intros e He N1 N2 N3 N4 N5.
    assert (Ht : transient e = false).
    { destruct (transient e) eqn:E; [|reflexivity].
      apply transient_iff in E. tauto. }
    simpl. unfold_monad. rewrite He. simpl. rewrite Ht. reflexivity.
  - intros e He Hr. apply transient_iff in Hr.
    rewrite (build_attempts_retry _ _ _ _ _ _ _ He Hr).
    set (h2 := EvLog WARNING (exn_str e) [] :: EvNewCircuit fps true t :: h1).
    assert (W : count_events is_warning h2
                = S (count_events is_warning h)).
    { unfold h2, h1. rewrite !count_events_cons. reflexivity. }
    assert (N : count_events is_new_circuit h2
                = S (count_events is_new_circuit h)).
    { unfold h2, h1. rewrite !count_events_cons. reflexivity. }
    destruct (build_attempts_accounting 2 fps t self h2)
      as (k & Hk & Hw & Hres).
    rewrite W in Hw. rewrite N in Hres. split; [rewrite Hw; lia|].
    destruct (res_of _) as [[c|]|e'|].
    + destruct Hres as [_ Hn]. rewrite Hn. lia.
    + destruct Hres as [_ Hn]. rewrite Hn. lia.
    + destruct Hres as (_ & _ & Hn). rewrite Hn. lia.
    + destruct Hres.
Qed.

(** X10. Every attempt that is retried is logged as a warning.  For a path
    of valid length and a controller that is okay, let k be the number of
    warnings [_build_circuit_impl] logs: when it returns a circuit id, or
    raises, it made k+1 calls of [c.new_circuit] with k at most 2, and what
    it raises is not a transient fault; when it returns None it made 3
    calls and logged 3 warnings. *)
Theorem retries_are_logged (fps : list string) (self : CircuitBuilder)
    (h : history) :
  valid_circuit_length (inr fps) = true ->
  is_controller_okay env h = true ->
  let o := _build_circuit_impl env fps self h in
  exists k,
    count_events is_warning (hist_of o) = (count_events is_warning h + k)%nat
    /\ match res_of o with
       | Return None =>
           k = 3%nat
           /\ count_events is_new_circuit (hist_of o)
              = (count_events is_new_circuit h + 3)%nat
       | Return (Some _) =>
           (k <= 2)%nat
           /\ count_events is_new_circuit (hist_of o)
              = (count_events is_new_circuit h + k + 1)%nat
       | Raise e =>
           transient e = false /\ (k <= 2)%nat
           /\ count_events is_new_circuit (hist_of o)
              = (count_events is_new_circuit h + k + 1)%nat
       | OutOfFuel => False
       end.
Proof.
  intros Hvalid Hok o. subst o.
  rewrite _build_circuit_impl_okay by assumption.
  destruct (build_attempts_accounting 3 fps (circuit_timeout self) self
              (EvLog DEBUG "Building %s" [fp_path_str fps]
               :: EvIsControllerOkay :: h)) as (k & Hk & Hw & Hres).
  exists k. rewrite !count_events_cons in Hw, Hres. simpl in Hw, Hres.
  split; [exact Hw|].
  destruct (res_of _) as [[c|]|e|].
  - destruct Hres as [Hlt Hn]. split; [lia|exact Hn].
  - exact Hres.
  - destruct Hres as (Hne & Hlt & Hn). repeat split; [exact Hne|lia|exact Hn].
  - exact Hres.
Qed.

End MoreCircuitBuilderFacts.

Section CloseAndTeardown.

Variable env : Collaborators.

Lemma close_circuit_state circ_id (self : CircuitBuilder) h :
  self_of (close_circuit env circ_id self h) = self
  \/ self_of (close_circuit env circ_id self h)
     = set_built_circuits (built_circuits self ∖ {[circ_id]}) self.
Proof.
  unfold close_circuit, ctl_close. unfold_monad.
  destruct (is_controller_okay env h); simpl; [|left; reflexivity].
  destruct (get_circuit env _ circ_id); simpl; [|left; reflexivity].
  destruct (close_circuit_ctl env _ circ_id) as [e|]; simpl;
    [|right; reflexivity].
  destruct e; simpl; (left; reflexivity) || (right; reflexivity).
Qed.

Lemma close_circuit_history circ_id (self : CircuitBuilder) h :
  let h1 := EvIsControllerOkay :: h in
  let h2 := EvGetCircuit circ_id :: h1 in
  hist_of (close_circuit env circ_id self h)
  = if is_controller_okay env h
    then match get_circuit env h1 circ_id with
         | Some _ => EvCloseCircuit circ_id :: h2
         | None => h2
         end
    else h1.
Proof.
  unfold close_circuit, ctl_close. unfold_monad.
  destruct (is_controller_okay env h); simpl; [|reflexivity].
  destruct (get_circuit env _ circ_id); simpl; [|reflexivity].
  destruct (close_circuit_ctl env _ circ_id) as [e|]; simpl; [|reflexivity].
  destruct e; reflexivity.
Qed.

(** X11. [close_circuit] touches nothing but its own circuit: every other
    id is in the set of built circuits afterwards exactly when it was
    before, the relay list of the builder is unchanged, and the call makes
    at most one call of [c.close_circuit], for [circ_id], and none when the
    controller is not okay or the session reports no such circuit. *)
Theorem close_circuit_only_its_own (circ_id : string)
    (self : CircuitBuilder) (h : history) :
  let o := close_circuit env circ_id self h in
  (forall other, other <> circ_id ->
     other ∈ built_circuits (self_of o) <-> other ∈ built_circuits self)
  /\ relay_list (self_of o) = relay_list self
  /\ (exists k,
        (k <= 1)%nat
        /\ count_events is_close (hist_of o)
           = (count_events is_close h + k)%nat
        /\ count_events (is_close_of circ_id) (hist_of o)
           = (count_events (is_close_of circ_id) h + k)%nat
        /\ (is_controller_okay env h = false
            \/ get_circuit env (EvIsControllerOkay :: h) circ_id = None ->
            k = 0%nat)).
Proof.
  intros o. subst o. split; [|split].
  - intros other Hne.
    destruct (close_circuit_state circ_id self h) as [-> | ->];
      [reflexivity|].
    simpl. rewrite elem_of_difference, elem_of_singleton. tauto.
  - destruct (close_circuit_state circ_id self h) as [-> | ->]; reflexivity.
  - rewrite close_circuit_history.
    destruct (is_controller_okay env h) eqn:Hok.
    + destruct (get_circuit env (EvIsControllerOkay :: h) circ_id) eqn:Hc.
      * exists 1%nat. rewrite !count_events_cons. simpl.
        rewrite String.eqb_refl.
        repeat split; try lia. intros [Habs|Habs]; discriminate.
      * exists 0%nat. rewrite !count_events_cons. simpl.
        repeat split; lia.
    + exists 0%nat. rewrite !count_events_cons. simpl. repeat split; lia.
Qed.

(** X12. A fault of the underlying close other than InvalidArguments is not
    swallowed: [close_circuit] raises it, and the id stays in the set of
    built circuits when it was there. *)
Theorem close_circuit_other_fault_propagates (circ_id : string)
    (self : CircuitBuilder) (h : history) (e : exn) :
  is_controller_okay env h = true ->
  get_circuit env (EvIsControllerOkay :: h) circ_id <> None ->
  close_circuit_ctl env (EvGetCircuit circ_id :: EvIsControllerOkay :: h)
    circ_id = Some e ->
  e <> InvalidArguments ->
  close_circuit env circ_id self h
  = (Raise e, self,
     EvCloseCircuit circ_id :: EvGetCircuit circ_id
     :: EvIsControllerOkay :: h).
Proof.
  intros Hok Hknown Hclose Hne. unfold close_circuit, ctl_close.
  unfold_monad. rewrite Hok. simpl.
  destruct (get_circuit env (EvIsControllerOkay :: h) circ_id);
    [|contradiction].
  rewrite Hclose. simpl.
  destruct e; simpl; try reflexivity. contradiction.
Qed.

(** X13. Teardown does nothing when it is switched off or the controller
    is not okay: with [close_circuits_on_exit] false, [__del__] makes no
    call at all; with a controller that is not okay it asks the controller
    and stops.  In both cases no circuit is closed and the set of built
    circuits is kept. *)
Theorem teardown_switched_off (self : CircuitBuilder) (h : history) :
  (close_circuits_on_exit self = false ->
   CircuitBuilder_del env self h = (Return tt, self, h))
  /\ (close_circuits_on_exit self = true ->
      is_controller_okay env h = false ->
      CircuitBuilder_del env self h
      = (Return tt, self, EvIsControllerOkay :: h)).
Proof.
  unfold CircuitBuilder_del. unfold_monad. split.
  - intros ->. reflexivity.
  - intros -> Hbad. simpl. rewrite Hbad. reflexivity.
Qed.

Lemma teardown_body_returns (c : string) (self : CircuitBuilder) h :
  (forall h c, close_circuit_ctl env h c = None
               \/ close_circuit_ctl env h c = Some InvalidArguments) ->
  exists h',
    bind (call (fun h => get_circuit env h c) (EvGetCircuit c))
         (fun circ =>
            match circ with
            | Some _ =>
                try_except (ctl_close env c)
                  (exn_eqb InvalidArguments) (fun _ => ret tt)
            | None => ret tt
            end) self h
    = (Return tt, self, h')
    /\ count_events is_get_circuit h' = S (count_events is_get_circuit h)
    /\ (count_events is_close h' <= S (count_events is_close h))%nat.
Proof.
  intros Hclose. unfold ctl_close. unfold_monad.
  destruct (get_circuit env h c).
  - destruct (Hclose (EvGetCircuit c :: h) c) as [-> | ->]; simpl;
      eexists; (split; [reflexivity|]); rewrite !count_events_cons; simpl;
      split; lia.
  - eexists. split; [reflexivity|]. rewrite !count_events_cons. simpl.
    split; lia.
Qed.

Lemma teardown_loop_returns (ids : list string) (self : CircuitBuilder) h :
  (forall h c, close_circuit_ctl env h c = None
               \/ close_circuit_ctl env h c = Some InvalidArguments) ->
  exists h',
    for_each ids
      (fun circ_id (_ : unit) =>
         bind (call (fun h => get_circuit env h circ_id)
                    (EvGetCircuit circ_id))
              (fun circ =>
                 match circ with
                 | Some _ =>
                     try_except (ctl_close env circ_id)
                       (exn_eqb InvalidArguments) (fun _ => ret tt)
                 | None => ret tt
                 end)) tt self h
    = (Return tt, self, h')
    /\ count_events is_get_circuit h'
       = (count_events is_get_circuit h + length ids)%nat
    /\ (count_events is_close h'
        <= count_events is_close h + length ids)%nat.
Proof.
  intros Hclose. revert h. induction ids as [|c ids IH]; intros h.
  - exists h. simpl. unfold ret. repeat split; lia.
  - cbn [for_each]. rewrite bind_run.
    destruct (teardown_body_returns c self h Hclose) as (h1 & -> & Hg1 & Hc1).
    destruct (IH h1) as (h' & -> & Hg & Hc).
    exists h'. split; [reflexivity|]. simpl length. split; lia.
Qed.

(** X14. Teardown empties the set: with [close_circuits_on_exit] true, a
    controller that is okay and an underlying close that fails with
    InvalidArguments only, [__del__] returns, asks the session once about
    each id of the set, closes at most that many circuits, and leaves the
    set of built circuits empty. *)
Theorem teardown_empties_the_set (self : CircuitBuilder) (h : history) :
  close_circuits_on_exit self = true ->
  is_controller_okay env h = true ->
  (forall h c, close_circuit_ctl env h c = None
               \/ close_circuit_ctl env h c = Some InvalidArguments) ->
  let o := CircuitBuilder_del env self h in
  res_of o = Return tt
  /\ built_circuits (self_of o) = ∅
  /\ count_events is_get_circuit (hist_of o)
     = (count_events is_get_circuit h + size (built_circuits self))%nat
  /\ (count_events is_close (hist_of o)
      <= count_events is_close h + size (built_circuits self))%nat.
Proof.
  intros Hflag Hok Hclose o.
  destruct (teardown_loop_returns (elements (built_circuits self)) self
              (EvIsControllerOkay :: h) Hclose) as (h' & Hloop & Hg & Hc).
  assert (Heq : o = (Return tt, set_built_circuits ∅ self, h')).
  { subst o. unfold CircuitBuilder_del.
    rewrite bind_run. unfold get_self at 1. cbv beta iota. rewrite Hflag.
    change (negb true) with false. cbv iota.
    rewrite bind_run. unfold call at 1. cbv beta iota. rewrite Hok.
    change (negb true) with false. cbv iota.
    rewrite bind_run, Hloop. reflexivity. }
  rewrite Heq. rewrite !count_events_cons in Hg, Hc. simpl in Hg, Hc.
  unfold res_of, self_of, hist_of. simpl.
  repeat split; [exact Hg|exact Hc].
Qed.

End CloseAndTeardown.

Section BuilderLife.

Variable env : Collaborators.







End BuilderLife.


Section MoreGapsFacts.

Variable env : Collaborators.

(** X15. [GapsCircuitBuilder.build_circuit], for every path, every answer
    of the collaborators and every amount of fuel: at most 3 calls of
    [c.new_circuit] are made, and the set of built circuits is what it
    was. *)
Theorem gaps_build_circuit_at_most_three_calls (fuel : nat)
    (slots : list (option string)) (self : CircuitBuilder) (h : history) :
  let o := build_circuit env fuel slots self h in
  built_circuits (self_of o) = built_circuits self
  /\ (count_events is_new_circuit (hist_of o)
      <= count_events is_new_circuit h + 3)%nat.
Proof. intros o. apply (build_circuit_footprint env fuel slots self h). Qed.

(** X16. When every lookup by name answers with the relay of that
    fingerprint and no fingerprint is pinned twice, [build_circuit] either
    makes no call of [c.new_circuit], or what it does is the construction
    routine run on a path with one entry for each slot and no fingerprint
    twice. *)
Theorem gaps_path_has_distinct_fingerprints (fuel : nat)
    (slots : list (option string)) (self : CircuitBuilder) (h : history) :
  (forall h fp r, fp_or_nick_to_relay env h fp = Some r ->
                  fingerprint r = fp) ->
  NoDup (pinned_names slots) ->
  let o := build_circuit env fuel slots self h in
  (count_events is_new_circuit (hist_of o)
   <= count_events is_new_circuit h)%nat
  \/ exists fps s' h',
       o = _build_circuit_impl env fps s' h'
       /\ length fps = length slots
       /\ NoDup fps.
Proof.
  intros Hlookup Hpins.
  apply (build_circuit_distinct_path env Hlookup fuel slots self h Hpins).
Qed.

Lemma _normalize_path_loop_quiet (p : event -> bool) slots new_path :
  (forall s, p (EvFpOrNickToRelay s) = false) ->
  (forall l f a, p (EvLog l f a) = false) ->
  quiet p (_normalize_path_loop env slots new_path).
Proof.
  intros Hl Hg. revert new_path.
  induction slots as [|fp slots IH]; intros new_path; simpl.
  - apply quiet_ret.
  - destruct (falsey fp); [apply IH|].
    apply quiet_bind; [apply quiet_call; apply Hl|].
    intros [r|]; [apply IH|].
    apply quiet_bind; [apply quiet_log; apply Hg|]. intros _. apply quiet_ret.
Qed.

Lemma _normalize_path_loop_keeps_self slots new_path (s : CircuitBuilder) h :
  self_of (_normalize_path_loop env slots new_path s h) = s.
Proof.
  revert new_path h. induction slots as [|fp slots IH]; intros new_path h;
    simpl.
  - reflexivity.
  - destruct (falsey fp); [apply IH|]. rewrite bind_run. unfold call at 1.
    destruct (fp_or_nick_to_relay env h _); [apply IH|]. reflexivity.
Qed.

Lemma _normalize_path_loop_unresolvable slots new_path (s : CircuitBuilder)
    h name :
  Some name ∈ slots -> name <> "" ->
  (forall h', fp_or_nick_to_relay env h' name = None) ->
  res_of (_normalize_path_loop env slots new_path s h) = Return None.
Proof.
  intros Hin Hne Hfail. revert new_path h.
  induction slots as [|fp slots IH]; intros new_path h.
  - inversion Hin.
  - simpl. apply elem_of_cons in Hin as [<-|Hin].
    + simpl. rewrite (proj2 (String.eqb_neq name "") Hne).
      rewrite bind_run. unfold call at 1. rewrite Hfail. reflexivity.
    + destruct (falsey fp); [apply IH; exact Hin|].
      rewrite bind_run. unfold call at 1.
      destruct (fp_or_nick_to_relay env h _); [apply IH; exact Hin|].
      reflexivity.
Qed.

(** X17. A pinned slot that the controller cannot resolve ends the build:
    for a path of valid length with such a slot, [build_circuit] returns
    None, leaves the builder as it is, draws no random relay and makes no
    call of [c.new_circuit]. *)
Theorem unresolvable_slot_ends_the_build (fuel : nat)
    (slots : list (option string)) (self : CircuitBuilder) (h : history)
    (name : string) :
  valid_circuit_length (inr slots) = true ->
  Some name ∈ slots -> name <> "" ->
  (forall h', fp_or_nick_to_relay env h' name = None) ->
  let o := build_circuit env fuel slots self h in
  res_of o = Return None
  /\ self_of o = self
  /\ count_events is_choice (hist_of o) = count_events is_choice h
  /\ count_events is_new_circuit (hist_of o) = count_events is_new_circuit h.
Proof.
  intros Hvalid Hin Hne Hfail o.
  pose proof (_normalize_path_loop_unresolvable slots [] self h name
                Hin Hne Hfail) as Hres.
  pose proof (_normalize_path_loop_keeps_self slots [] self h) as Hself.
  pose proof (_normalize_path_loop_quiet is_choice slots []
                (fun _ => eq_refl) (fun _ _ _ => eq_refl) self h) as Hq1.
  pose proof (_normalize_path_loop_quiet is_new_circuit slots []
                (fun _ => eq_refl) (fun _ _ _ => eq_refl) self h) as Hq2.
  assert (Heq : o = (Return None, self,
                     hist_of (_normalize_path_loop env slots [] self h))).
  { subst o. unfold build_circuit. rewrite Hvalid.
    change (negb true) with false. cbv iota. unfold _normalize_path.
    rewrite bind_run.
    destruct (_normalize_path_loop env slots [] self h) as [[r s1] h1].
    unfold res_of in Hres. unfold self_of in Hself. simpl in Hres, Hself.
    subst r s1. reflexivity. }
  rewrite Heq. repeat split; assumption.
Qed.

Lemma _normalize_path_loop_shape slots acc (s : CircuitBuilder) h np s' h' :
  _normalize_path_loop env slots acc s h = (Return (Some np), s', h') ->
  exists np', np = acc ++ np'
    /\ length np' = length slots
    /\ map is_none np' = map falsey slots
    /\ count_events is_lookup h'
       = (count_events is_lookup h + length (pinned_names slots))%nat.
Proof.
  revert acc h. induction slots as [|fp slots IH]; intros acc h Hrun.
  - simpl in Hrun. unfold ret in Hrun. injection Hrun as <- _ <-.
    exists []. rewrite app_nil_r. simpl. repeat split. lia.
  - simpl in Hrun. unfold pinned_names. simpl.
    destruct (falsey fp) eqn:Hf.
    + apply IH in Hrun as (np' & -> & Hlen & Hshape & Hcount).
      exists (None :: np'). rewrite <- app_assoc. simpl.
      unfold pinned_names in Hcount.
      repeat split; [lia|f_equal; exact Hshape|exact Hcount].
    + destruct fp as [name|]; [|discriminate].
      rewrite bind_run in Hrun. unfold call at 1 in Hrun.
      destruct (fp_or_nick_to_relay env h name) as [r|] eqn:Hlook.
      * apply IH in Hrun as (np' & -> & Hlen & Hshape & Hcount).
        exists (Some r :: np'). rewrite <- app_assoc. simpl.
        rewrite count_events_cons in Hcount. simpl in Hcount.
        unfold pinned_names in Hcount.
        repeat split; [lia|f_equal; exact Hshape|].
        etransitivity; [exact Hcount|]. rewrite Nat.add_succ_r. reflexivity.
      * unfold bind, log, ret in Hrun. discriminate.
Qed.

(** X18. What [_normalize_path] returns has the shape of the path it was
    given: the same length, an empty slot exactly where the path had None
    or the empty string, and a relay elsewhere; the builder is untouched
    and the controller was asked once for each pinned slot. *)
Theorem normalize_path_keeps_shape (slots : list (option string))
    (self s' : CircuitBuilder) (h h' : history) (np : list (option Relay)) :
  _normalize_path env slots self h = (Return (Some np), s', h') ->
  length np = length slots
  /\ map is_none np = map falsey slots
  /\ s' = self
  /\ count_events is_lookup h'
     = (count_events is_lookup h + length (pinned_names slots))%nat.
Proof.
  intros Hrun. unfold _normalize_path in Hrun.
  pose proof (_normalize_path_loop_keeps_self slots [] self h) as Hself.
  rewrite Hrun in Hself. unfold self_of in Hself. simpl in Hself.
  apply _normalize_path_loop_shape in Hrun
    as (np' & Heq & Hlen & Hshape & Hcount).
  simpl in Heq. subst np'. repeat split; assumption.
Qed.

Lemma sample_loop_invariant fuel number all_fps black chosen
    (s : CircuitBuilder) h res s' h' :
  sample_loop env fuel number all_fps black chosen s h = (Return res, s', h') ->
  (length chosen <= number)%nat ->
  exists more,
    res = chosen ++ more
    /\ length res = number
    /\ NoDup more
    /\ (forall fp, fp ∈ more -> fp ∈ all_fps /\ fp ∉ black)
    /\ s' = s.
Proof.
  revert black chosen h.
  induction fuel as [|fuel IH]; intros black chosen h Hrun Hlen;
    simpl in Hrun.
  - destruct (length chosen <? number)%nat eqn:Hlt; [discriminate|].
    apply Nat.ltb_ge in Hlt.
    unfold ret in Hrun. injection Hrun as <- <- _.
    exists []. rewrite app_nil_r. repeat split; try lia.
    + constructor.
    + inversion H.
    + inversion H.
  - destruct (length chosen <? number)%nat eqn:Hlt.
    + apply Nat.ltb_lt in Hlt. rewrite bind_run in Hrun.
      destruct (rng_choice env all_fps s h) as [[[choice| |] s1] h1] eqn:Hch;
        try discriminate.
      apply rng_choice_In in Hch as [Hin ->].
      destruct (existsb (String.eqb choice) black) eqn:Hbl.
      * apply IH in Hrun; [exact Hrun|lia].
      * apply IH in Hrun as (more & -> & Hn & Hnd & Hall & ->).
        2:{ rewrite length_app. simpl. lia. }
        exists (choice :: more). rewrite <- app_assoc in *. simpl in *.
        split; [reflexivity|]. split; [exact Hn|].
        assert (Hnotin : choice ∉ black).
        { intros Hc. apply list_elem_of_In, existsb_eqb_In in Hc.
          congruence. }
        repeat split.
        -- constructor; [|exact Hnd].
           intros Hc. apply Hall in Hc as [_ Hc]. apply Hc.
           apply elem_of_app. right. apply list_elem_of_here.
        -- apply elem_of_cons in H as [->|H]; [exact Hin|].
           apply Hall in H as [H _]. exact H.
        -- apply elem_of_cons in H as [->|H]; [exact Hnotin|].
           apply Hall in H as [_ H]. intros Hc. apply H.
           apply elem_of_app. left. exact Hc.
    + apply Nat.ltb_ge in Hlt.
      unfold ret in Hrun. injection Hrun as <- <- _.
      exists []. rewrite app_nil_r. repeat split; try lia.
      * constructor.
      * inversion H.
      * inversion H.
Qed.

(** X19. The rejection sampling of [_random_sample_relays], when it ends:
    it has picked exactly [number] fingerprints, all of them fingerprints
    of the snapshot, none of them on the blacklist and no two of them the
    same; the builder is untouched. *)
Theorem sampling_is_distinct_and_off_the_blacklist (fuel number : nat)
    (all_fps black : list string) (self s' : CircuitBuilder)
    (h h' : history) (chosen : list string) :
  sample_loop env fuel number all_fps black [] self h
  = (Return chosen, s', h') ->
  length chosen = number
  /\ NoDup chosen
  /\ (forall fp, fp ∈ chosen -> fp ∈ all_fps /\ fp ∉ black)
  /\ s' = self.
Proof.
  intros Hrun.
  apply sample_loop_invariant in Hrun as (more & -> & Hn & Hnd & Hall & ->);
    [|simpl; lia].
  simpl in *. repeat split; try assumption; apply Hall; assumption.
Qed.

End MoreGapsFacts.

Lemma py_pop_app {A : Type} (l : list A) (x : A) :
  py_pop (l ++ [x]) = Some (x, l).
Proof.
  unfold py_pop. rewrite rev_app_distr. simpl. rewrite rev_involutive.
  reflexivity.
Qed.

Lemma snoc_of_length {A : Type} (l : list A) (n : nat) :
  length l = S n -> exists l' x, l = l' ++ [x] /\ length l' = n.
Proof.
  intros Hlen. destruct (rev l) as [|x r] eqn:Hrev.
  - apply (f_equal (@length A)) in Hrev. rewrite length_rev in Hrev.
    simpl in Hrev. lia.
  - exists (rev r), x. split.
    + rewrite <- (rev_involutive l), Hrev. reflexivity.
    + apply (f_equal (@length A)) in Hrev. rewrite length_rev in Hrev.
      simpl in Hrev. rewrite length_rev. lia.
Qed.

(** X20. Filling the gaps: given as many looked-up relays as the path has
    empty slots, [fill_path] succeeds; the result has one fingerprint for
    each slot, the fingerprint of a pinned relay stands at the place of its
    slot, and the empty slots, from first to last, receive the relays from
    the last of the list to the first, as [pop()] hands them out. *)
Theorem fill_path_keeps_pins_and_pops_from_the_end
    (np : list (option Relay)) (back : list Relay) :
  length back = length (List.filter is_none np) ->
  exists fps,
    fill_path np (map Some back) = Return fps
    /\ length fps = length np
    /\ (forall i r, np !! i = Some (Some r) ->
                    fps !! i = Some (fingerprint r))
    /\ omap (fun sf : option Relay * string =>
               if is_none (fst sf) then Some (snd sf) else None)
            (zip np fps)
       = map fingerprint (rev back).
Proof.
  revert back. induction np as [|[r|] np IH]; intros back Hlen; simpl in *.
  - destruct back; [|discriminate]. exists []. repeat split.
    intros i r Hi. destruct i; discriminate.
  - destruct (IH back Hlen) as (fps & -> & Hl & Hpin & Hgap).
    exists (fingerprint r :: fps). simpl. repeat split.
    + lia.
    + intros [|i] r' Hi; simpl in *.
      * injection Hi as <-. reflexivity.
      * apply Hpin. exact Hi.
    + exact Hgap.
  - apply snoc_of_length in Hlen as (back' & r & -> & Hlen).
    rewrite map_app. simpl. rewrite py_pop_app.
    destruct (IH back' Hlen) as (fps & -> & Hl & Hpin & Hgap).
    exists (fingerprint r :: fps). simpl. repeat split.
    + lia.
    + intros [|i] r' Hi; simpl in *; [discriminate|].
      apply Hpin. exact Hi.
    + rewrite rev_app_distr. simpl. f_equal. exact Hgap.
Qed.

Section MoreDestinationFacts.

Variable env : Collaborators.

Lemma Destination_init_returns (url default_path : string)
    (max_dl : Z) (d : Destination) :
  Destination_init env url default_path max_dl = Return d ->
  (scheme (_url d) = "http" \/ scheme (_url d) = "https")
  /\ netloc (_url d) <> ""
  /\ path (_url d) <> ""
  /\ _url d = urlparse env url
  /\ _max_dl d = max_dl.
Proof.
  unfold Destination_init.
  destruct (String.eqb (scheme (urlparse env url)) "http") eqn:Hhttp;
    destruct (String.eqb (scheme (urlparse env url)) "https") eqn:Hhttps;
    simpl; try discriminate;
    (destruct (str_truthy (netloc (urlparse env url))) eqn:Hn; simpl;
       [|discriminate]);
    (destruct (str_truthy (path (urlparse env url))) eqn:Hp; simpl;
       [|destruct default_path as [|c rest]; [discriminate|];
         destruct (Ascii.eqb c "/"); simpl; discriminate]);
    intros [= <-]; simpl;
    unfold str_truthy in Hn, Hp;
    apply negb_true_iff, String.eqb_neq in Hn;
    apply negb_true_iff, String.eqb_neq in Hp;
    repeat split; try assumption.
  - left. apply String.eqb_eq. exact Hhttp.
  - left. apply String.eqb_eq. exact Hhttp.
  - right. apply String.eqb_eq. exact Hhttps.
Qed.

(** X21. Every destination that [Destination.__init__] returns was given a
    URL with scheme http or https, a non-empty host part and a non-empty
    path; it stores that URL as parsed, whatever the default path, and the
    download size it was given. *)
Theorem constructed_destination_invariant (url default_path : string)
    (max_dl : Z) (d : Destination) :
  Destination_init env url default_path max_dl = Return d ->
  (scheme (_url d) = "http" \/ scheme (_url d) = "https")
  /\ netloc (_url d) <> ""
  /\ path (_url d) <> ""
  /\ _url d = urlparse env url
  /\ _max_dl d = max_dl.
Proof. apply Destination_init_returns. Qed.

(** X22. For a destination that [Destination.__init__] returned, the
    branch of [port] marked unreachable is never taken: [port] returns the
    explicit port of the URL, or 80 for http and 443 for https when the URL
    has none, and raises only what reading the port of the URL raises. *)
Theorem port_of_constructed_destination (url default_path : string)
    (max_dl : Z) (d : Destination) :
  Destination_init env url default_path max_dl = Return d ->
  match url_port env (_url d) with
  | inl e => Destination_port env d = Raise e
  | inr (Some p) => Destination_port env d = Return p
  | inr None =>
      (scheme (_url d) = "http" /\ Destination_port env d = Return 80)
      \/ (scheme (_url d) = "https" /\ Destination_port env d = Return 443)
  end.
Proof.
  intros Hinit.
  apply Destination_init_returns in Hinit as (Hscheme & _).
  unfold Destination_port.
  destruct (url_port env (_url d)) as [e|[p|]]; try reflexivity.
  destruct Hscheme as [Hs|Hs]; rewrite Hs; [left|right]; split; reflexivity.
Qed.

Lemma locked_head (St : Type) (dest : Destination) (circ_id : string)
    (s : St) h :
  let url := Destination_url env dest in
  let h0 := EvAddEventListener circ_id :: EvStreamLockAcquire :: h in
  with_lock EvStreamLockAcquire EvStreamLockRelease
    (bind (call (fun _ => tt) (EvAddEventListener circ_id))
       (fun _ =>
          try_finally
            (try_except
               (bind (call_exn (fun h => head env h url) (EvHead url))
                     (fun hd => ret (inr hd)))
               (fun e => exn_eqb e ConnectionError || exn_eqb e ReadTimeout)
               (fun e =>
                  bind (call (fun h => circuit_str env h circ_id)
                             (EvCircuitStr circ_id))
                       (fun cs =>
                          ret (inl ("Could not connect to " +:+ url
                                    +:+ " over circ " +:+ circ_id +:+ " "
                                    +:+ cs +:+ ": " +:+ exn_str e)))))
            (call (fun _ => tt) (EvRemoveEventListener circ_id)))) s h
  = match head env h0 url with
    | inr hd =>
        (Return (inr hd), s,
         EvStreamLockRelease :: EvRemoveEventListener circ_id
         :: EvHead url :: h0)
    | inl e =>
        if exn_eqb e ConnectionError || exn_eqb e ReadTimeout
        then (Return (inl ("Could not connect to " +:+ url
                           +:+ " over circ " +:+ circ_id +:+ " "
                           +:+ circuit_str env (EvHead url :: h0) circ_id
                           +:+ ": " +:+ exn_str e)), s,
              EvStreamLockRelease :: EvRemoveEventListener circ_id
              :: EvCircuitStr circ_id :: EvHead url :: h0)
        else (Raise e, s,
              EvStreamLockRelease :: EvRemoveEventListener circ_id
              :: EvHead url :: h0)
    end.
Proof.
  intros url h0. subst url h0. unfold with_lock. unfold_monad.
  destruct (head env _ _) as [e|hd]; [|reflexivity].
  destruct (exn_eqb e ConnectionError || exn_eqb e ReadTimeout); reflexivity.
Qed.

Lemma connect_unfold (St : Type) (dest : Destination) (circ_id : string)
    (max_dl : Z) (s : St) h :
  let url := Destination_url env dest in
  let h0 := EvAddEventListener circ_id :: EvStreamLockAcquire :: h in
  let done := EvStreamLockRelease :: EvRemoveEventListener circ_id
              :: EvHead url :: h0 in
  connect_to_destination_over_circuit env dest circ_id max_dl s h
  = match head env h0 url with
    | inr hd =>
        if negb (status_code hd =? 200)
        then (Return (inl (("When sending HTTP HEAD to " +:+ url +:+ ", ")
                           +:+ "we expected HTTP code " +:+ "200"
                           +:+ " not " +:+ pretty (status_code hd))),
              s, done)
        else
          match lookup_header "content-length" (headers hd) with
          | None =>
              (Return (inl (("When sending HTTP HEAD to " +:+ url +:+ ", ")
                 +:+ "we except the header Content-Length to exist in the response")),
               s, done)
          | Some v =>
              match py_int env v with
              | None => (Raise ValueError, s, done)
              | Some content_length =>
                  if content_length <? max_dl
                  then (Return (inl (("When sending HTTP HEAD to " +:+ url
                          +:+ ", ")
                          +:+ "our maximum configured download size is "
                          +:+ pretty max_dl +:+ " but the content is only "
                          +:+ pretty content_length)),
                        s, done)
                  else (Return (inr content_length), s,
                        EvLog DEBUG "Connected to %s over circuit %s"
                          [url; circ_id] :: done)
              end
          end
    | inl e =>
        if exn_eqb e ConnectionError || exn_eqb e ReadTimeout
        then (Return (inl ("Could not connect to " +:+ url
                           +:+ " over circ " +:+ circ_id +:+ " "
                           +:+ circuit_str env (EvHead url :: h0) circ_id
                           +:+ ": " +:+ exn_str e)), s,
              EvStreamLockRelease :: EvRemoveEventListener circ_id
              :: EvCircuitStr circ_id :: EvHead url :: h0)
        else (Raise e, s, done)
    end.
Proof.
  intros url h0 done. subst url h0 done.
  unfold connect_to_destination_over_circuit. cbv zeta.
  rewrite bind_run. rewrite locked_head. cbv zeta.
  destruct (head env _ _) as [e|hd].
  - destruct (exn_eqb e ConnectionError || exn_eqb e ReadTimeout);
      reflexivity.
  - destruct (negb (status_code hd =? 200)); [reflexivity|].
    destruct (lookup_header "content-length" (headers hd)) as [v|];
      [|reflexivity].
    destruct (py_int env v) as [n|]; [|reflexivity].
    destruct (n <? max_dl); reflexivity.
Qed.

(** X23. On every path through [connect_to_destination_over_circuit],
    whatever the HEAD request does, the stream lock is taken once and
    released once, the listener is added once and removed once, exactly one
    HEAD request is sent, and the caller's object is untouched. *)
Theorem connect_releases_lock_and_listener (St : Type) (dest : Destination)
    (circ_id : string) (max_dl : Z) (s : St) (h : history) :
  let o := connect_to_destination_over_circuit env dest circ_id max_dl s h in
  self_of o = s
  /\ count_events is_stream_lock_acquire (hist_of o)
     = S (count_events is_stream_lock_acquire h)
  /\ count_events is_stream_lock_release (hist_of o)
     = S (count_events is_stream_lock_release h)
  /\ count_events is_add_listener (hist_of o)
     = S (count_events is_add_listener h)
  /\ count_events is_remove_listener (hist_of o)
     = S (count_events is_remove_listener h)
  /\ count_events is_head (hist_of o) = S (count_events is_head h).
Proof.
  intros o. subst o. rewrite connect_unfold.
  destruct (head env _ _) as [e|hd].
  - destruct (exn_eqb e ConnectionError || exn_eqb e ReadTimeout);
      unfold self_of, hist_of; simpl; rewrite !count_events_cons;
      repeat split; reflexivity.
  - destruct (negb (status_code hd =? 200));
      [unfold self_of, hist_of; simpl; rewrite !count_events_cons;
       repeat split; reflexivity|].
    destruct (lookup_header "content-length" (headers hd)) as [v|];
      [|unfold self_of, hist_of; simpl; rewrite !count_events_cons;
        repeat split; reflexivity].
    destruct (py_int env v) as [n|];
      [|unfold self_of, hist_of; simpl; rewrite !count_events_cons;
        repeat split; reflexivity].
    destruct (n <? max_dl);
      unfold self_of, hist_of; simpl; rewrite !count_events_cons;
      repeat split; reflexivity.
Qed.

(** X24. [connect_to_destination_over_circuit] reports a destination
    usable only when the HEAD request was answered with status 200 and a
    Content-Length header whose number is at least the download size
    asked for; that number is what it returns. *)
Theorem usable_means_ok_and_large_enough (St : Type) (dest : Destination)
    (circ_id : string) (max_dl : Z) (s s' : St) (h h' : history) (n : Z) :
  connect_to_destination_over_circuit env dest circ_id max_dl s h
  = (Return (inr n), s', h') ->
  exists hd v,
    head env (EvAddEventListener circ_id :: EvStreamLockAcquire :: h)
         (Destination_url env dest) = inr hd
    /\ status_code hd = 200
    /\ lookup_header "content-length" (headers hd) = Some v
    /\ py_int env v = Some n
    /\ max_dl <= n.
Proof.
  rewrite connect_unfold.
  destruct (head env _ _) as [e|hd] eqn:Hhead.
  - destruct (exn_eqb e ConnectionError || exn_eqb e ReadTimeout);
      discriminate.
  - destruct (status_code hd =? 200) eqn:Hstatus; simpl; [|discriminate].
    destruct (lookup_header "content-length" (headers hd)) as [v|] eqn:Hv;
      [|discriminate].
    destruct (py_int env v) as [m|] eqn:Hint; [|discriminate].
    destruct (m <? max_dl) eqn:Hlt; [discriminate|].
    intros [= <- _ _]. exists hd, v.
    apply Z.eqb_eq in Hstatus. apply Z.ltb_ge in Hlt.
    repeat split; assumption.
Qed.

(** X25. A connection fault is an answer, not an exception: when the HEAD
    request raises ConnectionError or ReadTimeout,
    [connect_to_destination_over_circuit] returns "not usable" with a
    reason; any other exception of the request is raised on, after the
    listener has been removed and the lock released. *)
Theorem connection_faults_are_reported (St : Type) (dest : Destination)
    (circ_id : string) (max_dl : Z) (s : St) (h : history) (e : exn) :
  head env (EvAddEventListener circ_id :: EvStreamLockAcquire :: h)
       (Destination_url env dest) = inl e ->
  let o := connect_to_destination_over_circuit env dest circ_id max_dl s h in
  (e = ConnectionError \/ e = ReadTimeout ->
     exists reason, res_of o = Return (inl reason))
  /\ (e <> ConnectionError -> e <> ReadTimeout ->
      o = (Raise e, s,
           EvStreamLockRelease :: EvRemoveEventListener circ_id
           :: EvHead (Destination_url env dest)
           :: EvAddEventListener circ_id :: EvStreamLockAcquire :: h)).
Proof.
  intros Hhead o. subst o. rewrite connect_unfold. rewrite Hhead. split.
  - intros [-> | ->]; simpl; eexists; reflexivity.
  - intros H1 H2. destruct e; try reflexivity; contradiction.
Qed.

End MoreDestinationFacts.

Lemma insert_by_bandwidth_perm (r : Relay) (l : list Relay) :
  Permutation (insert_by_bandwidth r l) (r :: l).
Proof.
  induction l as [|x l IH]; simpl; [reflexivity|].
  destruct (bandwidth x <=? bandwidth r); [reflexivity|].
  rewrite IH. apply perm_swap.
Qed.

Lemma sorted_by_bandwidth_perm (l : list Relay) :
  Permutation (sorted_by_bandwidth l) l.
Proof.
  induction l as [|r l IH]; simpl; [reflexivity|].
  rewrite insert_by_bandwidth_perm. constructor. exact IH.
Qed.

Lemma insert_by_bandwidth_sorted (r : Relay) (l : list Relay) :
  StronglySorted (fun a b => bandwidth b <= bandwidth a) l ->
  StronglySorted (fun a b => bandwidth b <= bandwidth a)
    (insert_by_bandwidth r l).
Proof.
  induction 1 as [|x l Hs IH Hall]; simpl.
  - repeat constructor.
  - destruct (bandwidth x <=? bandwidth r) eqn:Hle.
    + apply Z.leb_le in Hle. constructor.
      * constructor; assumption.
      * constructor; [exact Hle|].
        eapply List.Forall_impl; [|exact Hall]. simpl. intros a Ha. lia.
    + apply Z.leb_gt in Hle. constructor; [exact IH|].
      apply List.Forall_forall. intros a Ha.
      apply (Permutation_in _ (insert_by_bandwidth_perm r l)) in Ha.
      destruct Ha as [<-|Ha]; [lia|].
      rewrite List.Forall_forall in Hall. apply Hall. exact Ha.
Qed.

Lemma sorted_by_bandwidth_sorted (l : list Relay) :
  StronglySorted (fun a b => bandwidth b <= bandwidth a)
    (sorted_by_bandwidth l).
Proof.
  induction l as [|r l IH]; simpl; [constructor|].
  apply insert_by_bandwidth_sorted. exact IH.
Qed.

Lemma insert_by_bandwidth_stable (b : Z) (r : Relay) (l : list Relay) :
  List.filter (fun x => bandwidth x =? b) (insert_by_bandwidth r l)
  = List.filter (fun x => bandwidth x =? b) (r :: l).
Proof.
  induction l as [|x l IH]; simpl; [reflexivity|].
  destruct (bandwidth x <=? bandwidth r) eqn:Hle; [reflexivity|].
  apply Z.leb_gt in Hle. simpl. rewrite IH. simpl.
  destruct (bandwidth r =? b) eqn:Hr; [|reflexivity].
  apply Z.eqb_eq in Hr.
  assert (Hx : (bandwidth x =? b) = false) by (apply Z.eqb_neq; lia).
  rewrite Hx. reflexivity.
Qed.

(** X26. Sorting the candidate exits by bandwidth, as the sweep does:
    the result holds the same relays, in descending order of bandwidth,
    and relays of equal bandwidth stay in the order they had. *)
Theorem sorted_by_bandwidth_is_a_stable_descending_sort (l : list Relay) :
  Permutation (sorted_by_bandwidth l) l
  /\ StronglySorted (fun a b => bandwidth b <= bandwidth a)
       (sorted_by_bandwidth l)
  /\ forall b,
       List.filter (fun x => bandwidth x =? b) (sorted_by_bandwidth l)
       = List.filter (fun x => bandwidth x =? b) l.
Proof.
  split; [apply sorted_by_bandwidth_perm|].
  split; [apply sorted_by_bandwidth_sorted|].
  intros b. induction l as [|r l IH]; simpl; [reflexivity|].
  rewrite insert_by_bandwidth_stable. simpl. rewrite IH. reflexivity.
Qed.

Lemma strongly_sorted_app_le (l1 l2 : list Relay) :
  StronglySorted (fun a b => bandwidth b <= bandwidth a) (l1 ++ l2) ->
  forall a b, In a l1 -> In b l2 -> bandwidth b <= bandwidth a.
Proof.
  induction l1 as [|x l1 IH]; simpl; intros Hs a b Ha Hb; [contradiction|].
  apply StronglySorted_inv in Hs as [Hs Hall].
  destruct Ha as [<-|Ha].
  - rewrite List.Forall_forall in Hall. apply Hall.
    apply in_or_app. right. exact Hb.
  - apply (IH Hs a b Ha Hb).
Qed.

(** X27. The exits the sweep keeps for a destination: with n candidates
    it keeps max(3, n div 10) of them, or all n when there are fewer, and
    no relay it drops has more bandwidth than a relay it keeps. *)
Theorem kept_exits_are_the_fastest (l : list Relay) :
  let kept := firstn (num_keep l) (sorted_by_bandwidth l) in
  let dropped := skipn (num_keep l) (sorted_by_bandwidth l) in
  num_keep l = Nat.max 3 (length l / 10)
  /\ length kept = Nat.min (Nat.max 3 (length l / 10)) (length l)
  /\ Permutation (kept ++ dropped) l
  /\ forall a b, In a kept -> In b dropped -> bandwidth b <= bandwidth a.
Proof.
  intros kept dropped. subst kept dropped.
  assert (Hk : num_keep l = Nat.max 3 (length l / 10)).
  { unfold num_keep. rewrite <- (Nat2Z.id (Nat.max 3 (length l / 10))).
    f_equal. rewrite Nat2Z.inj_max, Nat2Z.inj_div. reflexivity. }
  split; [exact Hk|]. split; [|split].
  - rewrite length_firstn, (Permutation_length (sorted_by_bandwidth_perm l)).
    rewrite Hk. reflexivity.
  - rewrite firstn_skipn. apply sorted_by_bandwidth_perm.
  - apply strongly_sorted_app_le. rewrite firstn_skipn.
    apply sorted_by_bandwidth_sorted.
Qed.

Section Returns.

Context {S : Type}.

Lemma returns_ret {A} (P : A -> Prop) (a : A) : P a -> returns P (@ret S A a).
Proof. intros HP s h a' s' h' [= <- _ _]. exact HP. Qed.

Lemma returns_raise {A} (P : A -> Prop) e : returns P (@raise S A e).
Proof. intros s h a' s' h' Heq. discriminate Heq. Qed.

Lemma returns_bind {A B} (P : B -> Prop) (m : M S A) (k : A -> M S B) :
  (forall a, returns P (k a)) -> returns P (bind m k).
Proof.
  intros Hk s h b s' h' Hrun. rewrite bind_run in Hrun.
  destruct (m s h) as [[[a| |] s1] h1]; try discriminate.
  apply (Hk a s1 h1 b s' h' Hrun).
Qed.

End Returns.

Lemma bounded_keeps {S A T : Type} (f : S -> T) (m : M S A) :
  (forall s h, f (self_of (m s h)) = f s) -> bounded f no_event 0 m.
Proof.
  intros Hk s h. split; [apply Hk|].
  unfold count_events.
  assert (Hz : forall l, List.filter no_event l = []).
  { induction l as [|e l IH]; simpl; [reflexivity|exact IH]. }
  rewrite !Hz. simpl. lia.
Qed.

Lemma bounded_unit_no_event {S A : Type} (m : M S A) :
  bounded (fun _ : S => tt) no_event 0 m.
Proof. apply bounded_keeps. reflexivity. Qed.

Lemma bounded_of_quiet {S A : Type} (p : event -> bool) (m : M S A) :
  quiet p m -> bounded (fun _ : S => tt) p 0 m.
Proof. intros Hq s h. split; [reflexivity|]. rewrite (Hq s h). lia. Qed.

Lemma bounded_bind_then {S A B T : Type} (f : S -> T) (p : event -> bool) n
    (m : M S A) (k : A -> M S B) :
  bounded f p n m -> (forall a, bounded f p 0 (k a)) ->
  bounded f p n (bind m k).
Proof.
  intros Hm Hk. apply (bounded_weaken f p (n + 0) n); [lia|].
  apply bounded_bind; assumption.
Qed.

Lemma bounded_for_each_times {S A B T : Type} (f : S -> T)
    (p : event -> bool) n (l : list A) (body : A -> B -> M S B) acc :
  (forall x b, bounded f p n (body x b)) ->
  bounded f p (n * length l) (for_each l body acc).
Proof.
  intros Hbody. revert acc. induction l as [|x l IH]; intros acc; simpl.
  - apply (bounded_weaken f p 0); [lia|apply bounded_ret].
  - apply (bounded_weaken f p (n + n * length l)); [lia|].
    apply bounded_bind; [apply Hbody|]. intros b. apply IH.
Qed.

Section SweepFacts.

Variable env : Collaborators.

Lemma connect_keeps_self {St : Type} dest circ_id max_dl (s : St) h :
  self_of (connect_to_destination_over_circuit env dest circ_id max_dl s h)
  = s.
Proof.
  rewrite connect_unfold.
  repeat match goal with
         | |- context [match ?x with _ => _ end] => destruct x
         end; reflexivity.
Qed.

Lemma connect_quiet_new_circuit {St : Type} dest circ_id max_dl :
  quiet is_new_circuit
    (@connect_to_destination_over_circuit env St dest circ_id max_dl).
Proof.
  intros s h. rewrite connect_unfold.
  repeat match goal with
         | |- context [match ?x with _ => _ end] => destruct x
         end; unfold hist_of; simpl; rewrite !count_events_cons; reflexivity.
Qed.

Lemma try_build_keeps_dests n fuel exits_kept circ_id :
  bounded _all_dests no_event 0 (try_build env n fuel exits_kept circ_id).
Proof.
  revert circ_id. induction n as [|n IH]; intros circ_id; simpl.
  - apply bounded_ret.
  - apply bounded_bind0; [apply bounded_rng_choice; reflexivity|].
    intros exit. apply bounded_bind0.
    + apply bounded_zoom; [reflexivity|apply bounded_unit_no_event].
    + intros c. destruct (circ_truthy c); [apply bounded_ret|apply IH].
Qed.

Lemma usability_test_body_keeps_dests fuel dest usable :
  bounded _all_dests no_event 0 (usability_test_body env fuel dest usable).
Proof.
  unfold usability_test_body.
  apply bounded_bind0; [apply bounded_lift_result|]. intros port.
  apply bounded_bind0;
    [apply bounded_zoom; [reflexivity|apply bounded_unit_no_event]|].
  intros possible. cbv zeta.
  apply bounded_bind0; [apply try_build_keeps_dests|]. intros circ_id.
  destruct (negb (circ_truthy circ_id)); [repeat bounded_step|].
  apply bounded_bind0; [apply bounded_call; reflexivity|]. intros cs.
  apply bounded_bind0; [apply bounded_log; reflexivity|]. intros _.
  apply bounded_bind0.
  { apply bounded_keeps. intros s h. unfold is_usable.
    rewrite connect_keeps_self. reflexivity. }
  intros [reason|n]; [repeat bounded_step|].
  apply bounded_bind0; [apply bounded_log; reflexivity|]. intros _.
  apply bounded_bind0;
    [apply bounded_zoom; [reflexivity|apply bounded_unit_no_event]|].
  intros _. apply bounded_ret.
Qed.

Lemma usability_test_body_returns fuel dest usable :
  returns (fun l => l = usable \/ l = usable ++ [dest])
    (usability_test_body env fuel dest usable).
Proof.
  unfold usability_test_body.
  apply returns_bind. intros port. apply returns_bind. intros possible.
  cbv zeta. apply returns_bind. intros circ_id.
  destruct (negb (circ_truthy circ_id)).
  - apply returns_bind. intros _. apply returns_ret. left. reflexivity.
  - apply returns_bind. intros cs. apply returns_bind. intros _.
    apply returns_bind. intros [reason|n].
    + apply returns_bind. intros _. apply returns_ret. left. reflexivity.
    + apply returns_bind. intros _. apply returns_bind. intros _.
      apply returns_ret. right. reflexivity.
Qed.

Lemma sweep_loop_sublist fuel dests usable (s : DestinationList) h l s' h' :
  for_each dests (usability_test_body env fuel) usable s h
  = (Return l, s', h') ->
  exists kept, l = usable ++ kept /\ kept `sublist_of` dests.
Proof.
  revert usable s h. induction dests as [|d dests IH]; intros usable s h Hrun;
    simpl in Hrun.
  - unfold ret in Hrun. injection Hrun as <- _ _. exists [].
    rewrite app_nil_r. split; [reflexivity|constructor].
  - rewrite bind_run in Hrun.
    destruct (usability_test_body env fuel d usable s h)
      as [[[acc| |] s1] h1] eqn:Hbody; try discriminate.
    apply usability_test_body_returns in Hbody.
    apply IH in Hrun as (kept & -> & Hsub).
    destruct Hbody as [->| ->].
    + exists kept. split; [reflexivity|]. apply sublist_cons. exact Hsub.
    + exists (d :: kept). rewrite <- app_assoc. split; [reflexivity|].
      apply sublist_skip. exact Hsub.
Qed.

Lemma sweep_unfold fuel (self : DestinationList) h :
  _perform_usability_test env fuel self h
  = match for_each (_all_dests self) (usability_test_body env fuel) [] self
            (EvMakeSession :: EvLog DEBUG "Perform usability tests" []
             :: EvLockAcquire :: h) with
    | (Return usable, s1, h1) =>
        (Return tt, set_usable usable (round64 (time_time env h1)) s1,
         EvLockRelease :: EvTime :: h1)
    | (Raise e, s1, h1) => (Raise e, s1, h1)
    | (OutOfFuel, s1, h1) => (OutOfFuel, s1, h1)
    end.
Proof.
  unfold _perform_usability_test. unfold_monad.
  destruct (for_each _ _ _ _ _) as [[[usable| |] s1] h1]; reflexivity.
Qed.

Lemma sweep_returns (fuel : nat) (self s' : DestinationList)
    (h h' : history) :
  _perform_usability_test env fuel self h = (Return tt, s', h') ->
  _usable_dests s' `sublist_of` _all_dests self
  /\ _all_dests s' = _all_dests self.
Proof.
  rewrite sweep_unfold.
  pose proof (bounded_for_each _all_dests no_event (_all_dests self)
                (usability_test_body env fuel) []
                (usability_test_body_keeps_dests fuel) self
                (EvMakeSession :: EvLog DEBUG "Perform usability tests" []
                 :: EvLockAcquire :: h)) as [Hdests _].
  destruct (for_each _ _ _ _ _) as [[[usable| |] s1] h1] eqn:Hloop;
    try discriminate.
  intros [= <- _]. simpl.
  apply sweep_loop_sublist in Hloop as (kept & -> & Hsub).
  split; [exact Hsub|exact Hdests].
Qed.

(** X28. A usability sweep that returns leaves a usable list that is a
    selection, in order, of the configured destinations, and the
    configured destinations themselves are what they were. *)
Theorem sweep_keeps_usable_within_configured (fuel : nat)
    (self s' : DestinationList) (h h' : history) :
  _perform_usability_test env fuel self h = (Return tt, s', h') ->
  _usable_dests s' `sublist_of` _all_dests self
  /\ _all_dests s' = _all_dests self.
Proof. apply sweep_returns. Qed.

End SweepFacts.

Lemma bounded_forget {S A T : Type} (f : S -> T) (p : event -> bool) n
    (m : M S A) :
  bounded f p n m -> bounded (fun _ : S => tt) p n m.
Proof. intros Hm s h. split; [reflexivity|apply Hm]. Qed.

Section SweepCalls.

Variable env : Collaborators.

Lemma exits_can_exit_to_quiet_new_circuit host port :
  quiet is_new_circuit (exits_can_exit_to env host port).
Proof.
  unfold exits_can_exit_to, resolve_host, exits, _relays_with_flag.
  apply quiet_bind; [repeat quiet_step|]. intros host'.
  apply quiet_bind; [apply quiet_py_assert|]. intros _.
  apply quiet_bind.
  - apply quiet_bind; [apply relays_quiet; reflexivity|].
    intros rs. apply quiet_ret.
  - intros es. apply quiet_for_each. intros x b.
    unfold exits_can_exit_to_body, exit_policy_of. repeat quiet_step.
Qed.

Lemma close_circuit_quiet_new_circuit circ_id :
  quiet is_new_circuit (close_circuit env circ_id).
Proof. unfold close_circuit, ctl_close. repeat quiet_step. Qed.

Lemma try_build_calls n fuel exits_kept circ_id :
  bounded (fun _ : DestinationList => tt) is_new_circuit (3 * n)
    (try_build env n fuel exits_kept circ_id).
Proof.
  revert circ_id. induction n as [|n IH]; intros circ_id; simpl try_build.
  - apply bounded_ret.
  - apply bounded_bind0; [apply bounded_rng_choice; reflexivity|].
    intros exit.
    apply (bounded_weaken _ _ (3 + 3 * n)); [lia|].
    apply bounded_bind.
    + apply bounded_zoom; [reflexivity|].
      apply (bounded_forget built_circuits). apply build_circuit_footprint.
    + intros c. destruct (circ_truthy c);
        [apply (bounded_weaken _ _ 0); [lia|apply bounded_ret]|apply IH].
Qed.

Lemma usability_test_body_calls fuel dest usable :
  bounded (fun _ : DestinationList => tt) is_new_circuit 9
    (usability_test_body env fuel dest usable).
Proof.
  unfold usability_test_body.
  apply bounded_bind0; [apply bounded_lift_result|]. intros port.
  apply bounded_bind0.
  { apply bounded_zoom; [reflexivity|].
    apply bounded_of_quiet, exits_can_exit_to_quiet_new_circuit. }
  intros possible. cbv zeta.
  apply bounded_bind_then; [apply (try_build_calls 3)|]. intros circ_id.
  destruct (negb (circ_truthy circ_id)); [repeat bounded_step|].
  apply bounded_bind0; [apply bounded_call; reflexivity|]. intros cs.
  apply bounded_bind0; [apply bounded_log; reflexivity|]. intros _.
  apply bounded_bind0.
  { apply bounded_of_quiet. unfold is_usable.
    apply connect_quiet_new_circuit. }
  intros [reason|n]; [repeat bounded_step|].
  apply bounded_bind0; [apply bounded_log; reflexivity|]. intros _.
  apply bounded_bind0.
  { apply bounded_zoom; [reflexivity|].
    apply bounded_of_quiet, close_circuit_quiet_new_circuit. }
  intros _. apply bounded_ret.
Qed.

(** X29. In a usability sweep, the pass of the loop for one destination
    makes at most 9 calls of [c.new_circuit], whatever the state it starts
    in and the answers it gets: 3 builds of at most 3 attempts each.  So
    the sweep as a whole, however it ends, makes at most 9 times as many
    calls as there are configured destinations. *)
Theorem sweep_makes_at_most_nine_calls_per_destination (fuel : nat)
    (self : DestinationList) (h : history) :
  (forall (dest : Destination) (usable : list Destination)
          (s0 : DestinationList) (h0 : history),
     (count_events is_new_circuit
        (hist_of (usability_test_body env fuel dest usable s0 h0))
      <= count_events is_new_circuit h0 + 9)%nat)
  /\ (count_events is_new_circuit
        (hist_of (_perform_usability_test env fuel self h))
      <= count_events is_new_circuit h + 9 * length (_all_dests self))%nat.
Proof.
  split.
  - intros dest usable s0 h0.
    apply (usability_test_body_calls fuel dest usable s0 h0).
  - rewrite sweep_unfold.
    pose proof (bounded_for_each_times (fun _ : DestinationList => tt)
                  is_new_circuit 9 (_all_dests self)
                  (usability_test_body env fuel) []
                  (usability_test_body_calls fuel) self
                  (EvMakeSession :: EvLog DEBUG "Perform usability tests" []
                   :: EvLockAcquire :: h)) as [_ Hcount].
    rewrite !count_events_cons in Hcount. simpl in Hcount.
    destruct (for_each _ _ _ _ _) as [[[usable| |] s1] h1];
      unfold hist_of in *; simpl in *; rewrite ?count_events_cons; simpl; lia.
Qed.

End SweepCalls.

Section NextFacts.

Variable env : Collaborators.

Lemma swap_perm {A : Type} (x : list A) (i j : nat) : swap x i j ≡ₚ x.
Proof.
  unfold swap. destruct (x !! i) as [a|] eqn:Hi; [|reflexivity].
  destruct (x !! j) as [b|] eqn:Hj; [|reflexivity].
  apply Permutation_insert_swap; assumption.
Qed.

Lemma shuffle_from_perm {St A : Type} (i : nat) (x : list A) (s : St) h :
  exists y h',
    shuffle_from env i x s h = (Return y, s, h') /\ y ≡ₚ x.
Proof.
  revert x h. induction i as [|i IH]; intros x h.
  - exists x, h. split; reflexivity.
  - cbn [shuffle_from]. rewrite bind_run. unfold randbelow, call at 1.
    cbv beta iota.
    match goal with
    | |- context [shuffle_from env i ?x' s ?h0] =>
        destruct (IH x' h0) as (y & h' & -> & Hperm)
    end.
    exists y, h'. split; [reflexivity|].
    rewrite Hperm. apply swap_perm.
Qed.

Lemma next_loop_invariant rounds fuel (c c' : Caller) h h' :
  next_loop env rounds fuel c h = (Return tt, c', h') ->
  usable_within c ->
  usable_within c'
  /\ _all_dests (dests_of c') = _all_dests (dests_of c)
  /\ _usable_dests (dests_of c') <> [].
Proof.
  revert c h. induction rounds as [|rounds IH]; intros c h Hrun Hinv;
    cbn [next_loop] in Hrun.
  - discriminate.
  - unfold _should_perform_usability_test, py_time in Hrun.
    unfold bind at 1, zoom at 1, bind at 1, get_self at 1, bind at 1,
      call at 1, ret at 1 in Hrun.
    cbv beta iota in Hrun.
    assert (Hc : set_dests (dests_of c) c = c) by (destruct c; reflexivity).
    rewrite Hc in Hrun.
    destruct (negb (Qle_bool _ _)).
    + rewrite bind_run in Hrun. rewrite bind_run in Hrun.
      unfold zoom at 1 in Hrun.
      destruct (_perform_usability_test env fuel (dests_of c) (EvTime :: h))
        as [[[[]| |] dl1] h1] eqn:Hsweep; try discriminate.
      apply sweep_returns in Hsweep as [Hsub Hall].
      unfold_monad. unfold sleep in Hrun. cbv beta iota in Hrun.
      change (dests_of (set_dests dl1 c)) with dl1 in Hrun.
      assert (Hinv1 : usable_within (set_dests dl1 c)).
      { intros x Hx. simpl in *. rewrite Hall.
        eapply elem_of_sublist; [exact Hx|exact Hsub]. }
      destruct (0 <? length (_usable_dests dl1))%nat eqn:Hne;
        cbv beta iota in Hrun.
      * injection Hrun as <- _. split; [exact Hinv1|]. split; [exact Hall|].
        simpl. apply Nat.ltb_lt in Hne. intros Hnil. rewrite Hnil in Hne.
        simpl in Hne. lia.
      * apply IH in Hrun as (Hi & Ha & Hn).
        -- split; [exact Hi|]. split; [|exact Hn].
           rewrite Ha. simpl. exact Hall.
        -- exact Hinv1.
    + unfold_monad. unfold sleep in Hrun. cbv beta iota in Hrun.
      destruct (0 <? length (_usable_dests (dests_of c)))%nat eqn:Hne;
        cbv beta iota in Hrun.
      * injection Hrun as <- _. split; [exact Hinv|]. split; [reflexivity|].
        apply Nat.ltb_lt in Hne. intros Hnil. rewrite Hnil in Hne.
        simpl in Hne. lia.
      * apply IH in Hrun as (Hi & Ha & Hn).
        -- split; [exact Hi|]. split; [|exact Hn]. rewrite Ha. reflexivity.
        -- exact Hinv.
Qed.

(** X30. What [DestinationList.next] returns: when the usable
    destinations are among the configured ones at the start, the
    destination returned is one of the usable destinations held afterwards
    and so one of the configured ones, and the configured destinations are
    what they were. *)
Theorem next_returns_a_usable_destination (rounds fuel : nat)
    (c c' : Caller) (h h' : history) (d : Destination) :
  usable_within c ->
  next env rounds fuel c h = (Return d, c', h') ->
  d ∈ _usable_dests (dests_of c')
  /\ d ∈ _all_dests (dests_of c)
  /\ _all_dests (dests_of c') = _all_dests (dests_of c).
Proof.
  intros Hinv Hrun. unfold next, with_lock in Hrun.
  rewrite bind_run in Hrun. rewrite bind_run in Hrun.
  unfold call at 1 in Hrun. unfold try_finally at 1 in Hrun.
  destruct (next_loop env rounds fuel c (EvLockAcquire :: h))
    as [[r1 c1] h1] eqn:Hloop.
  unfold call at 1 in Hrun. destruct r1 as [[]| |]; try discriminate.
  apply next_loop_invariant in Hloop as (Hi & Ha & Hn); [|exact Hinv].
  rewrite bind_run in Hrun. unfold get_self at 1 in Hrun.
  rewrite bind_run in Hrun. unfold shuffle in Hrun.
  destruct (shuffle_from_perm (length (_usable_dests (dests_of c1)) - 1)
              (_usable_dests (dests_of c1)) c1 (EvLockRelease :: h1))
    as (y & h2 & Hsh & Hperm).
  rewrite Hsh in Hrun. unfold_monad.
  destruct y as [|d0 y]; [discriminate|].
  injection Hrun as <- <- _. simpl.
  assert (Hd : d0 ∈ _usable_dests (dests_of c1)).
  { rewrite <- Hperm. apply list_elem_of_here. }
  split; [apply list_elem_of_here|]. split; [|exact Ha].
  rewrite <- Ha. apply Hi. exact Hd.
Qed.

End NextFacts.

(** ** Witnesses for the properties above *)

Lemma relays_stale_unhealthy_raises_witness :
  relays Situation.env_unhealthy (Stub.rl Scenario.net_two) []
  = (Raise AssertionError, Stub.rl Scenario.net_two,
     [EvIsControllerOkay; EvTime]).
Proof.
  apply (relays_stale_unhealthy_raises Situation.env_unhealthy
           (Stub.rl Scenario.net_two) []).
  - vm_compute. discriminate.
  - reflexivity.
Defined.

Lemma flag_views_partition_witness :
  Permutation ([Stub.relayA] ++ [Stub.relayE]) Scenario.net_two
  /\ (forall r, r ∈ [Stub.relayA] -> GUARD ∈ flags r)
  /\ (forall r, r ∈ [Stub.relayE] -> GUARD ∉ flags r).
Proof.
  apply (flag_views_partition Situation.env_fresh GUARD
           (Stub.rl Scenario.net_two) (Stub.rl Scenario.net_two)
           (Stub.rl Scenario.net_two) [] [EvTime] [EvTime; EvTime]
           [Stub.relayA] [Stub.relayE]).
  - reflexivity.
  - vm_compute. reflexivity.
  - reflexivity.
Defined.

Lemma exits_can_exit_to_selects_accepting_exits_witness :
  [Stub.relayE] `sublist_of` List.filter (has_flag EXIT) Scenario.net_two
  /\ forall r, r ∈ [Stub.relayE] ->
       r ∈ Scenario.net_two /\ EXIT ∈ flags r
       /\ accepts_port Scenario.env_builds 443 r.
Proof.
  apply (exits_can_exit_to_selects_accepting_exits Scenario.env_builds
           "1.2.3.4" 443 (Stub.rl Scenario.net_two)
           (Stub.rl Scenario.net_two) [] [EvTime] [Stub.relayE]).
  reflexivity.
Defined.

Lemma exits_can_exit_to_exact_with_loaded_policies_witness :
  [Stub.relayE]
  = List.filter
      (fun r => has_flag EXIT r
                && port_accepted Scenario.env_exit_only 443 r)
      [Stub.relayE].
Proof.
  apply (exits_can_exit_to_exact_with_loaded_policies
           Scenario.env_exit_only "1.2.3.4" 443 (Stub.rl [Stub.relayE])
           (Stub.rl [Stub.relayE]) [] [EvTime] [Stub.relayE]).
  - reflexivity.
  - intros r Hr _. apply list_elem_of_singleton in Hr. rewrite Hr.
    reflexivity.
Defined.

Lemma stem_can_exit_to_answers (p : ExitPolicy) (port : Z) :
  Stub.stem_can_exit_to p None (Some port) = inl KeyError
  \/ exists b, Stub.stem_can_exit_to p None (Some port) = inr b.
Proof.
  right. induction p as [|r p IH]; simpl; [eauto|].
  destruct (Stub.rule_is_match r None (Some port)); eauto.
Qed.

Lemma exits_can_exit_to_survives_bad_relays_witness :
  exists l s' h',
    exits_can_exit_to Scenario.env_builds "1.2.3.4" 443
      (Stub.rl Scenario.net_two) [] = (Return l, s', h').
Proof.
  apply (exits_can_exit_to_survives_bad_relays Scenario.env_builds
           "1.2.3.4" 443 (Stub.rl Scenario.net_two) []).
  - reflexivity.
  - intros h. reflexivity.
  - intros h fp. left. reflexivity.
  - intros p. apply stem_can_exit_to_answers.
Defined.

Lemma first_answer_decides_witness :
  _build_circuit_impl Scenario.env_builds Situation.two_hops
    (Stub.cb Scenario.net_two ∅) []
  = (Return (Some "7"), Stub.cb Scenario.net_two ∅,
     [EvNewCircuit Situation.two_hops true 10;
      EvLog DEBUG "Building %s" [fp_path_str Situation.two_hops];
      EvIsControllerOkay])
  /\ (2 <= count_events is_new_circuit
             (hist_of (_build_circuit_impl Situation.env_three_faults
                         Situation.two_hops
                         (Stub.cb Scenario.net_two ∅) [])))%nat.
Proof.
  split.
  - pose proof (first_answer_decides Scenario.env_builds Situation.two_hops
                  (Stub.cb Scenario.net_two ∅) [] eq_refl eq_refl) as Hfirst.
    cbv zeta in Hfirst. destruct Hfirst as [Hid _].
    apply Hid. reflexivity.
  - pose proof (first_answer_decides Situation.env_three_faults
                  Situation.two_hops (Stub.cb Scenario.net_two ∅) []
                  eq_refl eq_refl) as Hfirst.
    cbv zeta in Hfirst. destruct Hfirst as (_ & _ & Hretry).
    destruct (Hretry InvalidArguments) as [_ Hcalls];
      [reflexivity|tauto|exact Hcalls].
Defined.

Lemma retries_are_logged_witness :
  count_events is_warning
    (hist_of (_build_circuit_impl Scenario.env_timeouts Situation.two_hops
                (Stub.cb Scenario.net_two ∅) []))
  = 3%nat.
Proof.
  pose proof (retries_are_logged Scenario.env_timeouts Situation.two_hops
                (Stub.cb Scenario.net_two ∅) [] eq_refl eq_refl) as Hlog.
  cbv zeta in Hlog. destruct Hlog as (k & Hw & Hres).
  change (k = 3%nat
          /\ count_events is_new_circuit
               (hist_of (_build_circuit_impl Scenario.env_timeouts
                           Situation.two_hops
                           (Stub.cb Scenario.net_two ∅) []))
             = (count_events is_new_circuit [] + 3)%nat) in Hres.
  destruct Hres as [Hk _]. rewrite Hk in Hw. exact Hw.
Defined.

Lemma close_circuit_other_fault_propagates_witness :
  close_circuit Situation.env_close_fault "7"
    (Stub.cb Scenario.net_two {[ "7" ]}) []
  = (Raise ProtocolError, Stub.cb Scenario.net_two {[ "7" ]},
     [EvCloseCircuit "7"; EvGetCircuit "7"; EvIsControllerOkay]).
Proof.
  apply (close_circuit_other_fault_propagates Situation.env_close_fault "7"
           (Stub.cb Scenario.net_two {[ "7" ]}) [] ProtocolError).
  - reflexivity.
  - discriminate.
  - reflexivity.
  - discriminate.
Defined.

Lemma teardown_empties_the_set_witness :
  built_circuits
    (self_of (CircuitBuilder_del Scenario.env_builds
                (Stub.cb Scenario.net_two {[ "7" ]}) []))
  = ∅.
Proof.
  pose proof (teardown_empties_the_set Scenario.env_builds
                (Stub.cb Scenario.net_two {[ "7" ]}) [] eq_refl eq_refl)
    as Hdel.
  cbv zeta in Hdel. destruct Hdel as (_ & Hempty & _).
  - intros h c. left. reflexivity.
  - exact Hempty.
Defined.

Lemma gaps_path_has_distinct_fingerprints_witness :
  exists fps s' h',
    build_circuit Scenario.env_by_fingerprint 10 [None; Some "EXITFPR"]
      (Stub.cb Scenario.net_two ∅) []
    = _build_circuit_impl Scenario.env_by_fingerprint fps s' h'
    /\ length fps = 2%nat /\ NoDup fps.
Proof.
  destruct (gaps_path_has_distinct_fingerprints Scenario.env_by_fingerprint
              10 [None; Some "EXITFPR"] (Stub.cb Scenario.net_two ∅) [])
    as [Hnone|Hpath].
  - intros h fp r Hfind. apply List.find_some in Hfind as [_ Heq].
    apply String.eqb_eq in Heq. exact Heq.
  - apply NoDup_singleton.
  - vm_compute in Hnone. lia.
  - exact Hpath.
Defined.

Lemma unresolvable_slot_ends_the_build_witness :
  res_of (build_circuit Scenario.env_builds 10 [Some "NOSUCHRELAY"; None]
            (Stub.cb Scenario.net_two ∅) []) = Return None.
Proof.
  pose proof (unresolvable_slot_ends_the_build Scenario.env_builds 10
                [Some "NOSUCHRELAY"; None] (Stub.cb Scenario.net_two ∅) []
                "NOSUCHRELAY" eq_refl) as Hend.
  cbv zeta in Hend. destruct Hend as [Hres _].
  - apply list_elem_of_here.
  - discriminate.
  - intros h'. reflexivity.
  - exact Hres.
Defined.

Lemma normalize_path_keeps_shape_witness :
  length [None; Some Stub.relayE] = length [None; Some "EXITFPR"]
  /\ map is_none [None; Some Stub.relayE]
     = map falsey [None; Some "EXITFPR"]
  /\ Stub.cb Scenario.net_two ∅ = Stub.cb Scenario.net_two ∅
  /\ count_events is_lookup [EvFpOrNickToRelay "EXITFPR"]
     = (count_events is_lookup []
        + length (pinned_names [None; Some "EXITFPR"]))%nat.
Proof.
  apply (normalize_path_keeps_shape Scenario.env_builds
           [None; Some "EXITFPR"] (Stub.cb Scenario.net_two ∅)
           (Stub.cb Scenario.net_two ∅) [] [EvFpOrNickToRelay "EXITFPR"]
           [None; Some Stub.relayE]).
  reflexivity.
Defined.

Lemma sampling_is_distinct_and_off_the_blacklist_witness :
  length ["AAAAAAAAAAAAAAAAAAAA"] = 1%nat
  /\ NoDup ["AAAAAAAAAAAAAAAAAAAA"]
  /\ (forall fp, fp ∈ ["AAAAAAAAAAAAAAAAAAAA"] ->
        fp ∈ Situation.two_hops /\ fp ∉ ["EXITFPR"])
  /\ Stub.cb Scenario.net_two ∅ = Stub.cb Scenario.net_two ∅.
Proof.
  apply (sampling_is_distinct_and_off_the_blacklist Scenario.env_builds
           10 1 Situation.two_hops ["EXITFPR"] (Stub.cb Scenario.net_two ∅)
           (Stub.cb Scenario.net_two ∅) [] [EvChoice 2]
           ["AAAAAAAAAAAAAAAAAAAA"]).
  reflexivity.
Defined.

Lemma fill_path_keeps_pins_and_pops_from_the_end_witness :
  exists fps,
    fill_path [None; Some Stub.relayE] [Some Stub.relayA] = Return fps
    /\ length fps = 2%nat.
Proof.
  destruct (fill_path_keeps_pins_and_pops_from_the_end
              [None; Some Stub.relayE] [Stub.relayA] eq_refl)
    as (fps & Hfill & Hlen & _).
  exists fps. split; [exact Hfill|exact Hlen].
Defined.

Lemma constructed_destination_invariant_witness :
  (scheme (_url Stub.dest_https) = "http"
   \/ scheme (_url Stub.dest_https) = "https")
  /\ netloc (_url Stub.dest_https) <> ""
  /\ path (_url Stub.dest_https) <> ""
  /\ _url Stub.dest_https
     = urlparse Scenario.env_builds "https://example.com/sbws.bin"
  /\ _max_dl Stub.dest_https = 1024.
Proof.
  apply (constructed_destination_invariant Scenario.env_builds
           "https://example.com/sbws.bin" "/" 1024 Stub.dest_https).
  reflexivity.
Defined.

Lemma port_of_constructed_destination_witness :
  Destination_port Scenario.env_builds Stub.dest_https = Return 443.
Proof.
  pose proof (port_of_constructed_destination Scenario.env_builds
                "https://example.com/sbws.bin" "/" 1024 Stub.dest_https
                eq_refl) as Hport.
  change ((scheme (_url Stub.dest_https) = "http"
           /\ Destination_port Scenario.env_builds Stub.dest_https
              = Return 80)
          \/ (scheme (_url Stub.dest_https) = "https"
              /\ Destination_port Scenario.env_builds Stub.dest_https
                 = Return 443)) in Hport.
  destruct Hport as [[Habs _]|[_ Hport]]; [discriminate Habs|exact Hport].
Defined.

Lemma usable_means_ok_and_large_enough_witness :
  exists hd v,
    head Scenario.env_builds [EvAddEventListener "7"; EvStreamLockAcquire]
         (Destination_url Scenario.env_builds Stub.dest_https) = inr hd
    /\ status_code hd = 200
    /\ lookup_header "content-length" (headers hd) = Some v
    /\ py_int Scenario.env_builds v = Some 1024
    /\ 1024 <= 1024.
Proof.
  apply (usable_means_ok_and_large_enough Scenario.env_builds unit
           Stub.dest_https "7" 1024 tt tt []
           (hist_of (connect_to_destination_over_circuit Scenario.env_builds
                       Stub.dest_https "7" 1024 tt [])) 1024).
  reflexivity.
Defined.

Lemma connection_faults_are_reported_witness :
  exists reason,
    res_of (connect_to_destination_over_circuit Situation.env_no_connection
              Stub.dest_https "7" 1024 tt []) = Return (inl reason).
Proof.
  pose proof (connection_faults_are_reported Situation.env_no_connection
                unit Stub.dest_https "7" 1024 tt [] ConnectionError eq_refl)
    as Hfault.
  cbv zeta in Hfault. destruct Hfault as [Hreported _].
  apply Hreported. left. reflexivity.
Defined.

Lemma sweep_keeps_usable_within_configured_witness :
  _usable_dests
    (self_of (_perform_usability_test Scenario.env_builds 10
                (Stub.dl Scenario.net_two) []))
    `sublist_of` [Stub.dest_https]
  /\ _all_dests
       (self_of (_perform_usability_test Scenario.env_builds 10
                   (Stub.dl Scenario.net_two) []))
     = [Stub.dest_https].
Proof.
  apply (sweep_keeps_usable_within_configured Scenario.env_builds 10
           (Stub.dl Scenario.net_two)
           (self_of (_perform_usability_test Scenario.env_builds 10
                       (Stub.dl Scenario.net_two) []))
           []
           (hist_of (_perform_usability_test Scenario.env_builds 10
                       (Stub.dl Scenario.net_two) []))).
  reflexivity.
Defined.

Lemma next_returns_a_usable_destination_witness :
  Stub.dest_https
    ∈ _usable_dests
        (dests_of (self_of (next Scenario.env_builds 1 10
                              Situation.caller [])))
  /\ Stub.dest_https ∈ [Stub.dest_https]
  /\ _all_dests
       (dests_of (self_of (next Scenario.env_builds 1 10
                             Situation.caller [])))
     = [Stub.dest_https].
Proof.
  apply (next_returns_a_usable_destination Scenario.env_builds 1 10
           Situation.caller
           (self_of (next Scenario.env_builds 1 10 Situation.caller []))
           []
           (hist_of (next Scenario.env_builds 1 10 Situation.caller []))
           Stub.dest_https).
  - intros x Hx. inversion Hx.
  - reflexivity.
Defined.
